(** * Agent-Memory: chunking, indexing and retrieval core

    A shallow embedding of the TypeScript services of the Agent-Memory
    extension:

    - [ChunkingService] (chunkingService.ts): the tree-sitter driven
      structural chunker [_visitNode] and the line based fallback
      [_simpleChunk];
    - [MemoryService] (memoryService.ts): [addDocument], [search] and the
      listing and deletion operations over the LanceDB table;
    - [FolderIndexer] (the folder indexer): [getFilesToIndex], [matchesPattern]
      and [validateIndexingOperation];
    - [Extension] (extension.ts): the commands [agent-memory.indexFile] and
      [agent-memory.indexFolder];
    - [MemoryViewProvider] (memoryViewProvider.ts): the folders at the root
      of the tree view.

    JavaScript strings are sequences of UTF-16 code units; they are modelled
    as lists of code units, so that [length] is the [.length] of the source.
    Numbers that the source compares with lengths and sizes are integers
    ([Z]); embedding vectors and the size estimate are rationals ([Q]).
    The engines the services call (tree-sitter, the embedding pipeline, the
    uuid generator, the file system, the RegExp engine) are parameters of the
    model, gathered in the records [Engines] and [Workspace]. *)

From Stdlib Require Import String Ascii.
From Stdlib Require Import List NArith ZArith QArith Bool Lia.
Import ListNotations.

Set Warnings "-register-all".
Close Scope Q_scope.

(* ------------------------------------------------------------------ *)
(** * JavaScript strings *)

Module JS.

(** A code unit of a JavaScript string. *)
Definition codeUnit := N.

Definition jsstring := list codeUnit.

(** The code units of an ASCII literal of the source. *)
Fixpoint lit (s : string) : jsstring :=
  match s with
  | EmptyString => []
  | String c s' => N_of_ascii c :: lit s'
  end.

Fixpoint eqb (a b : jsstring) : bool :=
  match a, b with
  | [], [] => true
  | x :: a', y :: b' => N.eqb x y && eqb a' b'
  | _, _ => false
  end.

Definition LF : codeUnit := 10%N.
Definition SLASH : codeUnit := 47%N.
Definition STAR : codeUnit := 42%N.
Definition QUOTE : codeUnit := 39%N.

(** ECMAScript WhiteSpace and LineTerminator code points: what
    [String.prototype.trim] strips. *)
Definition isWhiteSpace (c : codeUnit) : bool :=
  existsb (N.eqb c)
    [9; 10; 11; 12; 13; 32; 160; 5760; 8232; 8233; 8239; 8287; 12288; 65279]%N
  || (N.leb 8192 c && N.leb c 8202).

Fixpoint trimStart (s : jsstring) : jsstring :=
  match s with
  | [] => []
  | c :: s' => if isWhiteSpace c then trimStart s' else s
  end.

Definition trimEnd (s : jsstring) : jsstring := rev (trimStart (rev s)).

Definition trim (s : jsstring) : jsstring := trimEnd (trimStart s).

(** [s.split(sep)] for a one code unit separator: never empty. *)
Fixpoint split (sep : codeUnit) (s : jsstring) : list jsstring :=
  match s with
  | [] => [[]]
  | c :: s' =>
      if N.eqb c sep then [] :: split sep s'
      else match split sep s' with
           | l :: ls => (c :: l) :: ls
           | [] => [[c]]
           end
  end.

(** [a.includes(x)] on an array of strings. *)
Definition includes (a : list jsstring) (x : jsstring) : bool :=
  existsb (eqb x) a.

(** Pairwise distinct strings. *)
Fixpoint distinct (l : list jsstring) : bool :=
  match l with
  | [] => true
  | x :: l' => negb (includes l' x) && distinct l'
  end.

(** Empty or white space only. *)
Definition blank (s : jsstring) : bool := forallb isWhiteSpace s.

(** The code units that are not white space, in order. *)
Definition nonWhiteSpace (s : jsstring) : jsstring :=
  filter (fun c => negb (isWhiteSpace c)) s.

End JS.

Import JS.

(* ------------------------------------------------------------------ *)
(** * Completions of asynchronous calls *)

(** What a rejected promise carries. *)
Inductive Error : Type :=
| EmbeddingError   (* EmbeddingService.getEmbedding rejected *)
| StoreError       (* a LanceDB table operation rejected *)
| RegExpSyntaxError (* new RegExp(source) threw *)
| TypeError.       (* a method was called on undefined *)

(** An awaited call either returns a value or throws. *)
Inductive Completion (A : Type) : Type :=
| Returned (a : A)
| Thrown (e : Error).

Arguments Returned {A} a.
Arguments Thrown {A} e.

(* ------------------------------------------------------------------ *)
(** * ChunkingService *)

Module ChunkingService.

(** A tree-sitter syntax node: [node.type], [node.text], [node.children]
    ([node.childCount] is the length of [children]). *)
Inductive Node : Type :=
  mkNode (type : jsstring) (text : jsstring) (children : list Node).

Definition type (n : Node) : jsstring := let '(mkNode t _ _) := n in t.
Definition text (n : Node) : jsstring := let '(mkNode _ x _) := n in x.
Definition children (n : Node) : list Node := let '(mkNode _ _ c) := n in c.
Definition childCount (n : Node) : nat := length (children n).

Definition blockTypes : list jsstring :=
  [lit "function_declaration"; lit "class_declaration"; lit "method_definition"].

Definition isBlock (n : Node) : bool := includes blockTypes (type n).

(** [_visitNode(node, chunks, maxSize)]: the array [chunks] is threaded
    through the traversal and returned. *)
Fixpoint _visitNode (node : Node) (chunks : list jsstring) (maxSize : Z)
  : list jsstring :=
  let '(mkNode ty content kids) := node in
  if includes blockTypes ty && (Z.of_nat (length content) <=? maxSize)%Z
  then chunks ++ [content]
  else
    match kids with
    | _ :: _ =>
        (fix visitAll (l : list Node) (acc : list jsstring) : list jsstring :=
           match l with
           | [] => acc
           | child :: l' => visitAll l' (_visitNode child acc maxSize)
           end) kids chunks
    | [] =>
        if (0 <? length (trim content))%nat then chunks ++ [content]
        else chunks
    end.

(** A node [_visitNode] emits whole: a block whose text fits. *)
Definition smallBlock (maxSize : Z) (n : Node) : Prop :=
  isBlock n = true /\ (Z.of_nat (length (text n)) <= maxSize)%Z.

(** The loop over [node.children] of [_visitNode]. *)
Definition visitChildren (l : list Node) (chunks : list jsstring) (maxSize : Z)
  : list jsstring :=
  fold_left (fun acc child => _visitNode child acc maxSize) l chunks.

(** One iteration of the loop over the lines in [_simpleChunk]; the state is
    the array [chunks] and the buffer [currentChunk]. *)
Definition lineStep (maxSize : Z) (st : list jsstring * jsstring)
  (line : jsstring) : list jsstring * jsstring :=
  let '(chunks, currentChunk) := st in
  if ((Z.of_nat (length currentChunk) + Z.of_nat (length line) >? maxSize)%Z
      && (0 <? length currentChunk)%nat)
  then (chunks ++ [currentChunk], line ++ [LF])
  else (chunks, currentChunk ++ line ++ [LF]).

Definition _simpleChunk (text : jsstring) (maxSize : Z) : list jsstring :=
  let lines := split LF text in
  let '(chunks, currentChunk) := fold_left (lineStep maxSize) lines ([], []) in
  let chunks :=
    if (0 <? length (trim currentChunk))%nat then chunks ++ [currentChunk]
    else chunks in
  if (0 <? length chunks)%nat then chunks else [text].

(** ** The grammar cache and [chunk] *)

(** A loaded grammar, identified by the wasm file it was loaded from. *)
Definition Grammar := jsstring.

Definition LANGUAGE_CONFIG : list (jsstring * jsstring) :=
  [ (lit "typescript", lit "tree-sitter-typescript.wasm");
    (lit "typescriptreact", lit "tree-sitter-tsx.wasm");
    (lit "python", lit "tree-sitter-python.wasm");
    (lit "c", lit "tree-sitter-c.wasm");
    (lit "cpp", lit "tree-sitter-cpp.wasm");
    (lit "bash", lit "tree-sitter-bash.wasm") ].

(** Property names every object literal inherits from [Object.prototype]:
    the [in] operator of [isLanguageSupported] answers true on them too. *)
Definition objectPrototypeKeys : list jsstring :=
  [ lit "constructor"; lit "__defineGetter__"; lit "__defineSetter__";
    lit "hasOwnProperty"; lit "__lookupGetter__"; lit "__lookupSetter__";
    lit "isPrototypeOf"; lit "propertyIsEnumerable"; lit "toString";
    lit "valueOf"; lit "__proto__"; lit "toLocaleString" ].

Fixpoint lookup {V : Type} (k : jsstring) (m : list (jsstring * V)) : option V :=
  match m with
  | [] => None
  | (k', v) :: m' => if JS.eqb k k' then Some v else lookup k m'
  end.

(** The tree-sitter engine. *)
Record Parser : Type := {
  (* Parser.init() and new Parser() succeeded *)
  initOk : bool;
  (* Parser.Language.load(wasmPath) resolved *)
  languageLoad : jsstring -> bool;
  (* parser.parse(code).rootNode under the active grammar; None: it threw *)
  parse : Grammar -> jsstring -> option Node
}.

(** The fields of a ChunkingService instance; [parser] and [context] say
    whether the field is set, [activeGrammar] is the language last given to
    [parser.setLanguage]. *)
Record State : Type := {
  parser : bool;
  context : bool;
  loadedLanguages : list (jsstring * Grammar);
  currentLanguageId : option jsstring;
  activeGrammar : option Grammar
}.

(** A fresh instance, then [init(context)]. *)
Definition init (P : Parser) : State :=
  {| parser := initOk P; context := true; loadedLanguages := [];
     currentLanguageId := None; activeGrammar := None |}.

Definition setLanguage (languageId : jsstring) (g : Grammar)
  (cache : list (jsstring * Grammar)) (s : State) : State :=
  {| parser := parser s; context := context s;
     loadedLanguages := cache;
     currentLanguageId := Some languageId;
     activeGrammar := Some g |}.

Definition loadLanguage (P : Parser) (languageId : jsstring) (s : State)
  : bool * State :=
  if negb (context s) || negb (parser s) then (false, s)
  else
    match lookup languageId (loadedLanguages s) with
    | Some language => (true, setLanguage languageId language (loadedLanguages s) s)
    | None =>
        match lookup languageId LANGUAGE_CONFIG with
        | None => (false, s)
        | Some wasmFile =>
            if languageLoad P wasmFile
            then (true, setLanguage languageId wasmFile
                          ((languageId, wasmFile) :: loadedLanguages s) s)
            else (false, s)
        end
    end.

Definition getSupportedLanguages : list jsstring := map fst LANGUAGE_CONFIG.

Definition isLanguageSupported (languageId : jsstring) : bool :=
  includes getSupportedLanguages languageId
  || includes objectPrototypeKeys languageId.

(** [chunk(code, languageId, maxChunkSize)]; a missing or empty
    [languageId] is falsy. *)
Definition chunk (P : Parser) (code : jsstring) (languageId : option jsstring)
  (maxChunkSize : Z) (s : State) : list jsstring * State :=
  match languageId with
  | Some ((_ :: _) as lang) =>
      if parser s then
        let '(loaded, s') := loadLanguage P lang s in
        if loaded then
          match activeGrammar s' with
          | Some g =>
              match parse P g code with
              | Some rootNode =>
                  let chunks := _visitNode rootNode [] maxChunkSize in
                  if (0 <? length chunks)%nat then (chunks, s')
                  else (_simpleChunk code maxChunkSize, s')
              | None => (_simpleChunk code maxChunkSize, s')
              end
          | None => (_simpleChunk code maxChunkSize, s')
          end
        else (_simpleChunk code maxChunkSize, s')
      else (_simpleChunk code maxChunkSize, s)
  | _ => (_simpleChunk code maxChunkSize, s)
  end.

End ChunkingService.

(* ------------------------------------------------------------------ *)
(** * MemoryService *)

Module MemoryService.

(** A row of the table [code_context]. *)
Record MemRecord : Type := {
  vector : list Q;
  text : jsstring;
  filepath : jsstring;
  id : jsstring
}.

(** The row [init] creates the table with. *)
Definition sentinel : MemRecord :=
  {| vector := repeat 0%Q 384; text := lit "init"; filepath := lit "init";
     id := lit "0" |}.

(** The filters given to [table.delete]: the texts [id = '...'] and
    [filepath = '...'] of the source.  The ids the service writes are the
    sentinel's and those of [uuidv4], which hold no quote, and
    [deleteFileIndex] doubles the quotes of its argument, so each text
    denotes equality with the string it was built from. *)
Inductive Predicate : Type :=
| IdEquals (s : jsstring)
| FilepathEquals (s : jsstring).

Definition holds (p : Predicate) (r : MemRecord) : bool :=
  match p with
  | IdEquals s => JS.eqb (id r) s
  | FilepathEquals s => JS.eqb (filepath r) s
  end.

(** The collaborators of the service.  The embedding pipeline and the store
    may reject; their answer to the k-th request is a parameter. *)
Record Engines : Type := {
  treeSitter : ChunkingService.Parser;
  getEmbedding : nat -> jsstring -> option (list Q);
  uuidv4 : nat -> jsstring;
  storeRejects : nat -> bool;
  dirname : jsstring -> jsstring
}.

(** The fields of the service ([table] is [None] while undefined) and the
    number of requests issued so far to each collaborator. *)
Record State : Type := {
  table : option (list MemRecord);
  chunkingService : ChunkingService.State;
  storeCalls : nat;
  embedCalls : nat;
  uuidCalls : nat
}.

Definition rows (st : State) : list MemRecord :=
  match table st with
  | Some rs => rs
  | None => []
  end.

(** ** Asynchronous methods as state passing computations *)

Definition M (A : Type) : Type := State -> Completion A * State.

Definition ret {A : Type} (a : A) : M A := fun st => (Returned a, st).

Definition throw {A : Type} (e : Error) : M A := fun st => (Thrown e, st).

Definition bind {A B : Type} (m : M A) (k : A -> M B) : M B :=
  fun st =>
    match m st with
    | (Returned a, st') => k a st'
    | (Thrown e, st') => (Thrown e, st')
    end.

(** [try { m } catch (error) { h error }] *)
Definition tryCatch {A : Type} (m : M A) (h : Error -> M A) : M A :=
  fun st =>
    match m st with
    | (Returned a, st') => (Returned a, st')
    | (Thrown e, st') => h e st'
    end.

Declare Scope async_scope.
Delimit Scope async_scope with async.
Notation "x <- m ;; k" := (bind m (fun x => k))
  (at level 100, m at next level, right associativity) : async_scope.
Notation "m ;;; k" := (bind m (fun _ => k))
  (at level 100, right associativity) : async_scope.
Open Scope async_scope.

(** ** Requests to the collaborators *)

(** The state once one more request was issued to a collaborator. *)
Definition embedRequested (st : State) : State :=
  {| table := table st; chunkingService := chunkingService st;
     storeCalls := storeCalls st; embedCalls := S (embedCalls st);
     uuidCalls := uuidCalls st |}.

Definition uuidRequested (st : State) : State :=
  {| table := table st; chunkingService := chunkingService st;
     storeCalls := storeCalls st; embedCalls := embedCalls st;
     uuidCalls := S (uuidCalls st) |}.

(** ... to the store, which holds [rs] afterwards. *)
Definition storeRequested (rs : list MemRecord) (st : State) : State :=
  {| table := Some rs; chunkingService := chunkingService st;
     storeCalls := S (storeCalls st); embedCalls := embedCalls st;
     uuidCalls := uuidCalls st |}.

Definition embed (E : Engines) (chunk : jsstring) : M (list Q) :=
  fun st =>
    match getEmbedding E (embedCalls st) chunk with
    | Some v => (Returned v, embedRequested st)
    | None => (Thrown EmbeddingError, embedRequested st)
    end.

Definition freshId (E : Engines) : M jsstring :=
  fun st => (Returned (uuidv4 E (uuidCalls st)), uuidRequested st).

(** One awaited operation on [this.table]: it counts as a request, rejects
    when the store does, and otherwise answers [fst (op rows)] and leaves
    [snd (op rows)] in the table. *)
Definition storeOp {A : Type} (E : Engines)
  (op : list MemRecord -> A * list MemRecord) : M A :=
  fun st =>
    match table st with
    | None => (Thrown TypeError, st)
    | Some rs =>
        if storeRejects E (storeCalls st)
        then (Thrown StoreError, storeRequested rs st)
        else (Returned (fst (op rs)), storeRequested (snd (op rs)) st)
    end.

Definition tableAdd (E : Engines) (records : list MemRecord) : M unit :=
  storeOp E (fun rs => (tt, rs ++ records)).

Definition tableQuery (E : Engines) : M (list MemRecord) :=
  storeOp E (fun rs => (rs, rs)).

Definition tableDelete (E : Engines) (p : Predicate) : M unit :=
  storeOp E (fun rs => (tt, filter (fun r => negb (holds p r)) rs)).

(** Nearest neighbour search: squared Euclidean distance, ties in table
    order. *)
Fixpoint sqDistance (a b : list Q) : Q :=
  match a, b with
  | x :: a', y :: b' => ((x - y) * (x - y) + sqDistance a' b')%Q
  | _, _ => 0%Q
  end.

Fixpoint insertByDistance (q : list Q) (r : MemRecord) (l : list MemRecord)
  : list MemRecord :=
  match l with
  | [] => [r]
  | r' :: l' =>
      if Qle_bool (sqDistance q (vector r)) (sqDistance q (vector r'))
      then r :: l
      else r' :: insertByDistance q r l'
  end.

Definition nearest (q : list Q) (rs : list MemRecord) : list MemRecord :=
  fold_right (insertByDistance q) [] rs.

Definition tableSearch (E : Engines) (q : list Q) (limit : nat)
  : M (list MemRecord) :=
  storeOp E (fun rs => (firstn limit (nearest q rs), rs)).

(** ** [init] *)

(** [stored] is the table [code_context] found on disk, if any. *)
Definition init (E : Engines) (stored : option (list MemRecord)) : State :=
  {| table := Some (match stored with
                    | Some rs => rs
                    | None => [sentinel]
                    end);
     chunkingService := ChunkingService.init (treeSitter E);
     storeCalls := 0; embedCalls := 0; uuidCalls := 0 |}.

(** ** [addDocument] *)

Definition lineStep (maxSize : Z) (st : list jsstring * jsstring)
  (line : jsstring) : list jsstring * jsstring :=
  let '(chunks, currentChunk) := st in
  if ((Z.of_nat (length currentChunk) + Z.of_nat (length line) >? maxSize)%Z
      && (0 <? length currentChunk)%nat)
  then (chunks ++ [currentChunk], line ++ [LF])
  else (chunks, currentChunk ++ line ++ [LF]).

Definition _simpleChunk (text : jsstring) (maxSize : Z) : list jsstring :=
  let lines := split LF text in
  let '(chunks, currentChunk) := fold_left (lineStep maxSize) lines ([], []) in
  let chunks :=
    if (0 <? length (trim currentChunk))%nat then chunks ++ [currentChunk]
    else chunks in
  if (0 <? length chunks)%nat then chunks else [text].

(** The chunks [addDocument] works on, and the chunking service after. *)
Definition chunksOf (E : Engines) (text : jsstring)
  (languageId : option jsstring) (cs : ChunkingService.State)
  : list jsstring * ChunkingService.State :=
  match languageId with
  | Some ((_ :: _) as lang) =>
      if ChunkingService.isLanguageSupported lang
      then ChunkingService.chunk (treeSitter E) text languageId 500 cs
      else (_simpleChunk text 500, cs)
  | _ => (_simpleChunk text 500, cs)
  end.

(** The chunks the loop below requests an embedding for. *)
Definition toEmbed (chunks : list jsstring) : list jsstring :=
  filter (fun chunk => negb (length (trim chunk) =? 0)%nat) chunks.

(** The loop [for (const chunk of chunks)], from the array [records]. *)
Fixpoint embedChunks (E : Engines) (path : jsstring) (chunks : list jsstring)
  (records : list MemRecord) : M (list MemRecord) :=
  match chunks with
  | [] => ret records
  | chunk :: rest =>
      if (length (trim chunk) =? 0)%nat then embedChunks E path rest records
      else
        v <- embed E chunk ;;
        i <- freshId E ;;
        embedChunks E path rest
          (records ++ [{| vector := v; text := chunk; filepath := path; id := i |}])
  end.

Definition runChunking (E : Engines) (text : jsstring)
  (languageId : option jsstring) : M (list jsstring) :=
  fun st =>
    let '(chunks, cs) := chunksOf E text languageId (chunkingService st) in
    (Returned chunks,
     {| table := table st; chunkingService := cs;
        storeCalls := storeCalls st; embedCalls := embedCalls st;
        uuidCalls := uuidCalls st |}).

(** Returns [chunksCreated]. *)
Definition addDocument (E : Engines) (text path : jsstring)
  (languageId : option jsstring) : M nat :=
  if (length (trim text) =? 0)%nat then ret 0
  else
    chunks <- runChunking E text languageId ;;
    records <- embedChunks E path chunks [] ;;
    (if (0 <? length records)%nat
     then fun st => match table st with
                    | Some _ => tableAdd E records st
                    | None => (Returned tt, st)
                    end
     else ret tt) ;;;
    ret (length records).

(** ** Retrieval and listings *)

Definition search (E : Engines) (query : jsstring) (limit : nat)
  : M (list MemRecord) :=
  queryVector <- embed E query ;;
  fun st =>
    match table st with
    | Some _ => tableSearch E queryVector limit st
    | None => (Returned [], st)
    end.

(** [fileMap.set(k, (fileMap.get(k) || 0) + 1)] on a Map kept in insertion
    order. *)
Fixpoint countUp (k : jsstring) (m : list (jsstring * nat))
  : list (jsstring * nat) :=
  match m with
  | [] => [(k, 1)]
  | (k', n) :: m' =>
      if JS.eqb k k' then (k', S n) :: m' else (k', n) :: countUp k m'
  end.

Definition getAllIndexedFiles (E : Engines) : M (list (jsstring * nat)) :=
  fun st =>
    match table st with
    | None => (Returned [], st)
    | Some _ =>
        tryCatch
          (allRecords <- tableQuery E ;;
           ret (fold_left
                  (fun fileMap record =>
                     if (0 <? length (filepath record))%nat
                        && negb (JS.eqb (filepath record) (lit "init"))
                     then countUp (filepath record) fileMap
                     else fileMap)
                  allRecords []))
          (fun _ => ret []) st
    end.

(** What [getFileChunks] returns for a row. *)
Record FileChunk : Type := {
  chunkId : jsstring;
  chunkText : jsstring;
  chunkFilepath : jsstring
}.

Definition toFileChunk (r : MemRecord) : FileChunk :=
  {| chunkId := id r; chunkText := text r; chunkFilepath := filepath r |}.

Definition getFileChunks (E : Engines) (path : jsstring) : M (list FileChunk) :=
  fun st =>
    match table st with
    | None => (Returned [], st)
    | Some _ =>
        tryCatch
          (allRecords <- tableQuery E ;;
           ret (map toFileChunk
                  (filter (fun r => JS.eqb (filepath r) path) allRecords)))
          (fun _ => ret []) st
    end.

Definition getFileChunksWithVectors (E : Engines) (path : jsstring)
  : M (list MemRecord) :=
  fun st =>
    match table st with
    | None => (Returned [], st)
    | Some _ =>
        tryCatch
          (allRecords <- tableQuery E ;;
           ret (map (fun r => {| id := id r; text := text r;
                                 filepath := filepath r; vector := vector r |})
                  (filter (fun r => JS.eqb (filepath r) path) allRecords)))
          (fun _ => ret []) st
    end.

Definition getIndexedChunkCount (E : Engines) : M nat :=
  fun st =>
    match table st with
    | None => (Returned 0, st)
    | Some _ =>
        tryCatch
          (allRecords <- tableQuery E ;;
           ret (length (filter
                          (fun r => negb (JS.eqb (filepath r) (lit "init")))
                          allRecords)))
          (fun _ => ret 0) st
    end.

(** ** Deletions *)

(** [for (const id of ids) await this.table.delete(`id = '${id}'`)] *)
Fixpoint deleteEach (E : Engines) (ids : list jsstring) : M unit :=
  match ids with
  | [] => ret tt
  | i :: rest => tableDelete E (IdEquals i) ;;; deleteEach E rest
  end.

Definition clearAllIndexes (E : Engines) : M unit :=
  fun st =>
    match table st with
    | None => (Returned tt, st)
    | Some _ =>
        tryCatch
          (allRecords <- tableQuery E ;;
           let idsToDelete :=
             map id (filter
                       (fun r => negb (JS.eqb (filepath r) (lit "init")))
                       allRecords) in
           if (0 <? length idsToDelete)%nat then deleteEach E idsToDelete
           else ret tt)
          (fun error => throw error) st
    end.

Definition deleteFileIndex (E : Engines) (path : jsstring) : M unit :=
  fun st =>
    match table st with
    | None => (Returned tt, st)
    | Some _ =>
        tryCatch (tableDelete E (FilepathEquals path))
          (fun error => throw error) st
    end.

Definition deleteFolderIndex (E : Engines) (folderPath : jsstring) : M nat :=
  fun st =>
    match table st with
    | None => (Returned 0, st)
    | Some _ =>
        tryCatch
          (allRecords <- tableQuery E ;;
           let filesToDelete :=
             filter (fun r => JS.eqb (dirname E (filepath r)) folderPath)
               allRecords in
           deleteEach E (map id filesToDelete) ;;;
           ret (length filesToDelete))
          (fun error => throw error) st
    end.

End MemoryService.

(* ------------------------------------------------------------------ *)
(** * FolderIndexer *)

Module FolderIndexer.

Record IndexingOptions : Type := {
  maxFileSize : Z;
  excludePatterns : list jsstring;
  includeExtensions : list jsstring;
  maxFiles : Z
}.

(** [Partial<IndexingOptions>]: [None] is a key the object does not have. *)
Record PartialOptions : Type := {
  maxFileSize' : option Z;
  excludePatterns' : option (list jsstring);
  includeExtensions' : option (list jsstring);
  maxFiles' : option Z
}.

Definition noOptions : PartialOptions :=
  {| maxFileSize' := None; excludePatterns' := None;
     includeExtensions' := None; maxFiles' := None |}.

Definition DEFAULT_OPTIONS : IndexingOptions :=
  {| maxFileSize := 1 * 1024 * 1024;
     excludePatterns :=
       [ lit "**/node_modules/**"; lit "**/dist/**"; lit "**/build/**";
         lit "**/.git/**"; lit "**/.vscode/**"; lit "**/coverage/**";
         lit "**/*.min.js"; lit "**/*.bundle.js"; lit "**/*.map" ];
     includeExtensions :=
       [ lit ".ts"; lit ".tsx"; lit ".js"; lit ".jsx";
         lit ".py"; lit ".java"; lit ".c"; lit ".cpp"; lit ".h";
         lit ".go"; lit ".rs"; lit ".rb"; lit ".php";
         lit ".cs"; lit ".swift"; lit ".kt" ];
     maxFiles := 500 |}.

Definition orElse {A : Type} (o : option A) (d : A) : A :=
  match o with
  | Some a => a
  | None => d
  end.

(** The object spread [{ ...base, ...over }]. *)
Definition spread (base : IndexingOptions) (over : PartialOptions)
  : IndexingOptions :=
  {| maxFileSize := orElse (maxFileSize' over) (maxFileSize base);
     excludePatterns := orElse (excludePatterns' over) (excludePatterns base);
     includeExtensions := orElse (includeExtensions' over) (includeExtensions base);
     maxFiles := orElse (maxFiles' over) (maxFiles base) |}.

(** What the indexer sees of the editor and of the file system.  The four
    settings of [agentMemory.indexing] are declared with defaults, so
    [config.get] answers a value for each. *)
Record Workspace : Type := {
  settings : IndexingOptions;
  (* vscode.workspace.findFiles(new RelativePattern(base, pattern)), as fsPaths *)
  findFiles : jsstring -> jsstring -> list jsstring;
  (* (await fs.promises.stat(p)).size; None: stat rejected *)
  stat : jsstring -> option Z;
  (* path.relative(from, to) *)
  relative : jsstring -> jsstring -> jsstring;
  (* new RegExp(source).test(s); None: the constructor threw *)
  regExpTest : jsstring -> jsstring -> option bool
}.

Definition userOptions (W : Workspace) : PartialOptions :=
  {| maxFileSize' := Some (maxFileSize (settings W));
     maxFiles' := Some (maxFiles (settings W));
     excludePatterns' := Some (excludePatterns (settings W));
     includeExtensions' := Some (includeExtensions (settings W)) |}.

(** [s.replace(/\*\*/g, '.*')] *)
Fixpoint replaceStarStar (s : jsstring) : jsstring :=
  match s with
  | a :: ((b :: s') as t) =>
      if N.eqb a STAR && N.eqb b STAR then lit ".*" ++ replaceStarStar s'
      else a :: replaceStarStar t
  | _ => s
  end.

(** [s.replace(/\*/g, '[^/]*')] *)
Fixpoint replaceStar (s : jsstring) : jsstring :=
  match s with
  | [] => []
  | a :: s' =>
      if N.eqb a STAR then lit "[^/]*" ++ replaceStar s'
      else a :: replaceStar s'
  end.

Definition normalizePattern (pattern : jsstring) : jsstring :=
  replaceStar (replaceStarStar pattern).

Definition matchesPattern (W : Workspace) (filePath basePath pattern : jsstring)
  : Completion bool :=
  let relativePath := relative W basePath filePath in
  match regExpTest W (normalizePattern pattern) relativePath with
  | Some b => Returned b
  | None => Thrown RegExpSyntaxError
  end.

(** [excludeGlobs.some(glob => matchesPattern(filePath, folderPath, glob))]:
    stops at the first pattern that matches. *)
Fixpoint shouldExclude (W : Workspace) (folderPath filePath : jsstring)
  (excludeGlobs : list jsstring) : Completion bool :=
  match excludeGlobs with
  | [] => Returned false
  | glob :: rest =>
      match matchesPattern W filePath folderPath glob with
      | Thrown e => Thrown e
      | Returned true => Returned true
      | Returned false => shouldExclude W folderPath filePath rest
      end
  end.

(** The loop over [foundFiles]; [files] is the array filled so far. *)
Fixpoint scanFound (W : Workspace) (folderPath : jsstring)
  (opts : IndexingOptions) (foundFiles : list jsstring) (files : list jsstring)
  : Completion (list jsstring) :=
  match foundFiles with
  | [] => Returned files
  | filePath :: rest =>
      match shouldExclude W folderPath filePath (excludePatterns opts) with
      | Thrown e => Thrown e
      | Returned true => scanFound W folderPath opts rest files
      | Returned false =>
          match stat W filePath with
          | None => scanFound W folderPath opts rest files
          | Some size =>
              if (size >? maxFileSize opts)%Z
              then scanFound W folderPath opts rest files
              else
                let files := files ++ [filePath] in
                if (Z.of_nat (length files) >=? maxFiles opts)%Z
                then Returned files
                else scanFound W folderPath opts rest files
          end
      end
  end.

(** The loop over [opts.includeExtensions]. *)
Fixpoint scanExtensions (W : Workspace) (folderPath : jsstring)
  (opts : IndexingOptions) (exts : list jsstring) (files : list jsstring)
  : Completion (list jsstring) :=
  match exts with
  | [] => Returned files
  | ext :: rest =>
      let foundFiles := findFiles W folderPath (lit "**/*" ++ ext) in
      match scanFound W folderPath opts foundFiles files with
      | Thrown e => Thrown e
      | Returned files =>
          if (Z.of_nat (length files) >=? maxFiles opts)%Z
          then Returned files
          else scanExtensions W folderPath opts rest files
      end
  end.

(** The bound the two loops keep: [maxFiles], and one file when [maxFiles]
    is below one, since the test comes after the push. *)
Definition budget (opts : IndexingOptions) : Z := Z.max 1 (maxFiles opts).

Definition effectiveOptions (W : Workspace) (options : PartialOptions)
  : IndexingOptions :=
  spread (spread DEFAULT_OPTIONS (userOptions W)) options.

Definition getFilesToIndex (W : Workspace) (folderPath : jsstring)
  (options : PartialOptions) : Completion (list jsstring) :=
  let opts := effectiveOptions W options in
  scanExtensions W folderPath opts (includeExtensions opts) [].

(** The three messages of [validateIndexingOperation], with the values
    their templates interpolate; [estimatedMB] is the megabyte estimate
    before [toFixed(1)]. *)
Inductive Message : Type :=
| NoFilesFound
| TooManyFiles (count : nat) (maximum : Z)
| ReadyToIndex (count : nat) (estimatedMB : Q).

Record Validation : Type := {
  valid : bool;
  message : Message;
  fileCount : nat
}.

Definition sampleSize (W : Workspace) (files : list jsstring) : Z :=
  fold_left
    (fun totalSize file =>
       match stat W file with
       | Some size => (totalSize + size)%Z
       | None => totalSize
       end)
    (firstn 100 files) 0%Z.

Definition validateIndexingOperation (W : Workspace) (folderPath : jsstring)
  (options : PartialOptions) : Completion Validation :=
  match getFilesToIndex W folderPath options with
  | Thrown e => Thrown e
  | Returned files =>
      let opts := spread DEFAULT_OPTIONS options in
      if (length files =? 0)%nat
      then Returned {| valid := false; message := NoFilesFound; fileCount := 0 |}
      else if (Z.of_nat (length files) >? maxFiles opts)%Z
      then Returned {| valid := false;
                       message := TooManyFiles (length files) (maxFiles opts);
                       fileCount := length files |}
      else
        let totalSize := sampleSize W files in
        let estimatedTotalSize :=
          ((inject_Z totalSize / inject_Z (Z.of_nat (Nat.min (length files) 100)))
           * inject_Z (Z.of_nat (length files)))%Q in
        let estimatedMB := (estimatedTotalSize / inject_Z (1024 * 1024))%Q in
        Returned {| valid := true;
                    message := ReadyToIndex (length files) estimatedMB;
                    fileCount := length files |}
  end.

(** The files that qualify, with no budget on their number: found for an
    included extension, matched by no exclude pattern, and of a known size
    of at most [maxFileSize]. *)
Definition qualifies (W : Workspace) (folderPath : jsstring)
  (opts : IndexingOptions) (filePath : jsstring) : bool :=
  match shouldExclude W folderPath filePath (excludePatterns opts) with
  | Returned false =>
      match stat W filePath with
      | Some size => (size <=? maxFileSize opts)%Z
      | None => false
      end
  | _ => false
  end.

Definition qualifyingFiles (W : Workspace) (folderPath : jsstring)
  (options : PartialOptions) : list jsstring :=
  let opts := effectiveOptions W options in
  flat_map
    (fun ext =>
       filter (qualifies W folderPath opts)
         (findFiles W folderPath (lit "**/*" ++ ext)))
    (includeExtensions opts).

End FolderIndexer.

(* ------------------------------------------------------------------ *)
(** * The host the examples run on *)

(** [path.dirname] and [path.relative] of a POSIX host, and a RegExp engine
    for the sources the default exclude patterns translate to. *)
Module Host.

Definition isSlash (c : codeUnit) : bool := N.eqb c SLASH.

Fixpoint dropWhile (p : codeUnit -> bool) (s : jsstring) : jsstring :=
  match s with
  | [] => []
  | c :: s' => if p c then dropWhile p s' else s
  end.

(** [path.posix.dirname]: scanning from the end and stopping before index
    0, skip the trailing slashes, then the last component; [end] is the
    index of the slash met next. *)
Definition posixDirname (path : jsstring) : jsstring :=
  match path with
  | [] => lit "."
  | c0 :: rest =>
      let hasRoot := isSlash c0 in
      let upToEnd :=
        dropWhile (fun c => negb (isSlash c)) (dropWhile isSlash (rev rest)) in
      match upToEnd with
      | [] => if hasRoot then lit "/" else lit "."
      | _ :: _ =>
          if hasRoot && (length upToEnd =? 1)%nat then lit "//"
          else firstn (length upToEnd) path
      end
  end.

Fixpoint stripPrefix (p s : jsstring) : option jsstring :=
  match p, s with
  | [], _ => Some s
  | a :: p', b :: s' => if N.eqb a b then stripPrefix p' s' else None
  | _ :: _, [] => None
  end.

Definition startsWith (p s : jsstring) : bool :=
  match stripPrefix p s with
  | Some _ => true
  | None => false
  end.

Definition endsWith (p s : jsstring) : bool := startsWith (rev p) (rev s).

(** [path.relative(from, to)] for a file [to] below the folder [from]. *)
Definition relativeBelow (from to : jsstring) : jsstring :=
  match stripPrefix (from ++ [SLASH]) to with
  | Some r => r
  | None => to
  end.

(** Regular expressions made of literal characters, [.], [[^/]] and
    [[^/]*]. *)
Inductive Item : Type :=
| Lit (c : codeUnit)
| AnyChar
| NotSlash
| NotSlashStar.

Definition isLineTerminator (c : codeUnit) : bool :=
  existsb (N.eqb c) [10; 13; 8232; 8233]%N.

(** Characters with a meaning of their own in a RegExp source, apart from
    the dot. *)
Definition isSyntaxCharacter (c : codeUnit) : bool :=
  existsb (N.eqb c) [36; 40; 41; 42; 43; 63; 91; 92; 93; 94; 123; 124; 125]%N.

Fixpoint parseRegExp (fuel : nat) (source : jsstring) : option (list Item) :=
  match fuel with
  | O => None
  | S fuel' =>
      match source with
      | [] => Some []
      | c :: rest =>
          match stripPrefix (lit "[^/]*") source, stripPrefix (lit "[^/]") source with
          | Some rest', _ =>
              option_map (cons NotSlashStar) (parseRegExp fuel' rest')
          | None, Some rest' =>
              option_map (cons NotSlash) (parseRegExp fuel' rest')
          | None, None =>
              if isSyntaxCharacter c then None
              else option_map (cons (if N.eqb c 46 then AnyChar else Lit c))
                     (parseRegExp fuel' rest)
          end
      end
  end.

Fixpoint matchHere (re : list Item) (s : jsstring) : bool :=
  match re with
  | [] => true
  | Lit c :: re' =>
      match s with
      | x :: s' => N.eqb x c && matchHere re' s'
      | [] => false
      end
  | AnyChar :: re' =>
      match s with
      | x :: s' => negb (isLineTerminator x) && matchHere re' s'
      | [] => false
      end
  | NotSlash :: re' =>
      match s with
      | x :: s' => negb (isSlash x) && matchHere re' s'
      | [] => false
      end
  | NotSlashStar :: re' =>
      (fix star (s : jsstring) : bool :=
         matchHere re' s
         || match s with
            | x :: s' => negb (isSlash x) && star s'
            | [] => false
            end) s
  end.

Fixpoint matchAnywhere (re : list Item) (s : jsstring) : bool :=
  matchHere re s
  || match s with
     | _ :: s' => matchAnywhere re s'
     | [] => false
     end.

(** [new RegExp(source).test(s)] on that fragment; other sources are
    answered as a syntax error. *)
Definition regExpTest (source s : jsstring) : option bool :=
  option_map (fun re => matchAnywhere re s)
    (parseRegExp (S (length source)) source).

End Host.

(* ------------------------------------------------------------------ *)
(** * Example engines, stores and workspaces *)

Module Examples.

(** A toy grammar: every line of the code is a function declaration. *)
Definition lineParser : ChunkingService.Parser :=
  {| ChunkingService.initOk := true;
     ChunkingService.languageLoad := fun _ => true;
     ChunkingService.parse := fun _ code =>
       Some (ChunkingService.mkNode (lit "program") code
               (map (fun l => ChunkingService.mkNode
                                (lit "function_declaration") l [])
                  (split LF code))) |}.

(** A vector of dimension 384 made from the length of the text. *)
Definition lengthEmbedding (chunk : jsstring) : list Q :=
  inject_Z (Z.of_nat (length chunk)) :: repeat 0%Q 383.

Definition engines : MemoryService.Engines :=
  {| MemoryService.treeSitter := lineParser;
     MemoryService.getEmbedding := fun _ chunk => Some (lengthEmbedding chunk);
     MemoryService.uuidv4 := fun k => lit "uuid-" ++ repeat 49%N (S k);
     MemoryService.storeRejects := fun _ => false;
     MemoryService.dirname := Host.posixDirname |}.

(** The same, with an embedding pipeline that rejects its second request. *)
Definition enginesRejectingSecond : MemoryService.Engines :=
  {| MemoryService.treeSitter := lineParser;
     MemoryService.getEmbedding := fun k chunk =>
       if (k =? 1)%nat then None else Some (lengthEmbedding chunk);
     MemoryService.uuidv4 := fun k => lit "uuid-" ++ repeat 49%N (S k);
     MemoryService.storeRejects := fun _ => false;
     MemoryService.dirname := Host.posixDirname |}.

(** The service on a new database. *)
Definition fresh : MemoryService.State := MemoryService.init engines None.

Definition twoFunctions : jsstring :=
  lit "function a(){}" ++ [LF] ++ lit "function b(){}".

Definition row (i path : string) : MemoryService.MemRecord :=
  {| MemoryService.vector := lengthEmbedding (lit i);
     MemoryService.text := lit "chunk";
     MemoryService.filepath := lit path;
     MemoryService.id := lit i |}.

(** A table with the sentinel, two chunks of a file of [/w/src], one chunk
    of a file of [/w/src/sub], and one chunk of a user file named [init]. *)
Definition indexedRows : list MemoryService.MemRecord :=
  [ MemoryService.sentinel;
    row "a1" "/w/src/a.ts"; row "a2" "/w/src/a.ts";
    row "b1" "/w/src/sub/b.ts"; row "u1" "init" ].

Definition indexed : MemoryService.State :=
  MemoryService.init engines (Some indexedRows).

(** A folder [/w] with five files and their sizes. *)
Definition disk : list (jsstring * Z) :=
  [ (lit "/w/src/a.ts", 100%Z);
    (lit "/w/src/b.ts", 200%Z);
    (lit "/w/src/node_modules/x.ts", 50%Z);
    (lit "/w/src/big.ts", 2000000%Z);
    (lit "/w/src/c.js", 10%Z) ].

(** The files below [base] that the pattern [**/*ext] selects. *)
Definition findOnDisk (base pattern : jsstring) : list jsstring :=
  filter (fun p => Host.startsWith (base ++ [SLASH]) p
                   && Host.endsWith (skipn 4 pattern) p)
    (map fst disk).

Definition workspace : FolderIndexer.Workspace :=
  {| FolderIndexer.settings := FolderIndexer.DEFAULT_OPTIONS;
     FolderIndexer.findFiles := findOnDisk;
     FolderIndexer.stat := fun p => ChunkingService.lookup p disk;
     FolderIndexer.relative := Host.relativeBelow;
     FolderIndexer.regExpTest := Host.regExpTest |}.

Definition atMost (n : Z) : FolderIndexer.PartialOptions :=
  {| FolderIndexer.maxFileSize' := None;
     FolderIndexer.excludePatterns' := None;
     FolderIndexer.includeExtensions' := None;
     FolderIndexer.maxFiles' := Some n |}.

End Examples.

(* ------------------------------------------------------------------ *)
(** * Syntax trees *)

Module SyntaxTree.

Import ChunkingService.

(** [within d n]: [d] is [n] or a node below it. *)
Inductive within (d : Node) : Node -> Prop :=
| within_self : within d d
| within_child (ty tx : jsstring) (kids : list Node) (c : Node) :
    In c kids -> within d c -> within d (mkNode ty tx kids).

(** The chunks of one node: what [_visitNode] pushes for it when it does
    not descend. *)
Definition emittedWhole (maxSize : Z) (d : Node) : Prop :=
  smallBlock maxSize d \/ (children d = [] /\ blank (text d) = false).

End SyntaxTree.

(* ------------------------------------------------------------------ *)
(** * Chunk sizes and the grammar cache *)

Module ChunkingInvariants.

Import ChunkingService.

(** What the loop of [_simpleChunk] keeps true of a chunk, the lines of the
    text being [allLines]: it is not empty, and it is one of the lines with
    its line break or it is at most [maxSize + 1] long. *)
Definition boundedChunk (maxSize : Z) (allLines : list jsstring)
  (c : jsstring) : Prop :=
  c <> []
  /\ ((exists line, In line allLines /\ c = line ++ [LF])
      \/ (Z.of_nat (length c) <= maxSize + 1)%Z).

(** Every cached language is one of [LANGUAGE_CONFIG], cached with the
    grammar of its wasm file. *)
Definition wellCached (s : State) : Prop :=
  forall languageId g,
    lookup languageId (loadedLanguages s) = Some g ->
    lookup languageId LANGUAGE_CONFIG = Some g.

End ChunkingInvariants.

(* ------------------------------------------------------------------ *)
(** * What a call of addDocument sends and what the listings count *)

Module Indexing.

Import MemoryService.

(** The chunks a call of [addDocument] sends to the embedding service:
    none for a blank text, and otherwise the chunks that are not blank. *)
Definition sent (E : Engines) (text : jsstring)
  (languageId : option jsstring) (st : State) : list jsstring :=
  if blank text then []
  else toEmbed (fst (chunksOf E text languageId (chunkingService st))).

(** The rows of a file. *)
Definition rowsOf (path : jsstring) (rs : list MemRecord) : list MemRecord :=
  filter (fun r => JS.eqb (filepath r) path) rs.

(** The rows [getAllIndexedFiles] counts: those with a filepath that is
    neither empty nor [init]. *)
Definition listed (r : MemRecord) : bool :=
  (0 <? length (filepath r))%nat && negb (JS.eqb (filepath r) (lit "init")).

(** The rows [getIndexedChunkCount] counts. *)
Definition counted (r : MemRecord) : bool :=
  negb (JS.eqb (filepath r) (lit "init")).

(** [fileMap.get(p) || 0] on the Map of [getAllIndexedFiles]. *)
Definition countOf (p : jsstring) (fileMap : list (jsstring * nat)) : nat :=
  match ChunkingService.lookup p fileMap with
  | Some n => n
  | None => 0
  end.

(** The loop of [getAllIndexedFiles] over the rows, from a Map [fileMap]. *)
Definition countRows (rs : list MemRecord) (fileMap : list (jsstring * nat))
  : list (jsstring * nat) :=
  fold_left
    (fun fileMap record =>
       if (0 <? length (filepath record))%nat
          && negb (JS.eqb (filepath record) (lit "init"))
       then countUp (filepath record) fileMap
       else fileMap)
    rs fileMap.

End Indexing.

(* ------------------------------------------------------------------ *)
(** * MemoryViewProvider *)

Module MemoryViewProvider.

(** [FolderGroup]; a file is the pair of its path and its chunk count, as
    [getAllIndexedFiles] lists it. *)
Record FolderGroup : Type := {
  folderPath : jsstring;
  files : list (jsstring * nat);
  totalChunks : nat
}.

(** The body of the loop of [getChildren] over the indexed files, on the
    Map [folderMap] kept in insertion order. *)
Fixpoint addToFolder (dir : jsstring) (file : jsstring * nat)
  (folderMap : list FolderGroup) : list FolderGroup :=
  match folderMap with
  | [] => [{| folderPath := dir; files := [] ++ [file];
              totalChunks := 0 + snd file |}]
  | group :: rest =>
      if JS.eqb dir (folderPath group)
      then {| folderPath := folderPath group;
              files := files group ++ [file];
              totalChunks := totalChunks group + snd file |} :: rest
      else group :: addToFolder dir file rest
  end.

Definition groupByFolder (dirname : jsstring -> jsstring)
  (indexed : list (jsstring * nat)) : list FolderGroup :=
  fold_left (fun folderMap file => addToFolder (dirname (fst file)) file folderMap)
    indexed [].

(** The root level of [getChildren]: one folder item per group.  The items
    are then put in the order of their labels by [localeCompare], which is
    left out. *)
Definition rootFolders (E : MemoryService.Engines)
  : MemoryService.M (list FolderGroup) :=
  MemoryService.bind (MemoryService.getAllIndexedFiles E)
    (fun indexed =>
       MemoryService.ret (groupByFolder (MemoryService.dirname E) indexed)).

End MemoryViewProvider.

(* ------------------------------------------------------------------ *)
(** * Folders of the tree view *)

Module Folders.

Import MemoryViewProvider.

(** [folderMap.get(dir)] *)
Fixpoint findFolder (dir : jsstring) (folderMap : list FolderGroup)
  : option FolderGroup :=
  match folderMap with
  | [] => None
  | group :: rest =>
      if JS.eqb dir (folderPath group) then Some group else findFolder dir rest
  end.

(** The sum of the chunk counts of some listed files. *)
Definition chunksIn (listed : list (jsstring * nat)) : nat :=
  list_sum (map snd listed).

(** The listed files of a directory. *)
Definition filesIn (dirname : jsstring -> jsstring) (dir : jsstring)
  (listed : list (jsstring * nat)) : list (jsstring * nat) :=
  filter (fun f => JS.eqb (dirname (fst f)) dir) listed.

End Folders.

(* ------------------------------------------------------------------ *)
(** * The commands of the extension *)

Module Extension.

(** The table [languageMap] of the commands and tools that index files. *)
Definition languageMap : list (jsstring * jsstring) :=
  [ (lit ".ts", lit "typescript");
    (lit ".tsx", lit "typescriptreact");
    (lit ".js", lit "javascript");
    (lit ".jsx", lit "javascriptreact");
    (lit ".py", lit "python");
    (lit ".c", lit "c");
    (lit ".cpp", lit "cpp");
    (lit ".h", lit "c");
    (lit ".java", lit "java");
    (lit ".go", lit "go");
    (lit ".rs", lit "rust");
    (lit ".rb", lit "ruby");
    (lit ".php", lit "php");
    (lit ".cs", lit "csharp");
    (lit ".swift", lit "swift");
    (lit ".kt", lit "kotlin") ].

(** [languageMap[ext] || "plaintext"].  [ext] comes from [path.extname],
    which answers the empty string or a string that starts with a dot, so
    that no property inherited from [Object.prototype] is looked up. *)
Definition languageFor (ext : jsstring) : jsstring :=
  match ChunkingService.lookup ext languageMap with
  | Some languageId => languageId
  | None => lit "plaintext"
  end.

(** What the commands see of the editor: the content of a file decoded as
    UTF-8 ([None]: [readFile] rejected), [path.extname], and the
    cancellation token as read at the start of the i-th iteration. *)
Record Editor : Type := {
  readFile : jsstring -> option jsstring;
  extname : jsstring -> jsstring;
  isCancellationRequested : nat -> bool
}.

(** The counters [indexed], [failed] and [totalChunks] of the folder
    command. *)
Record Tally : Type := {
  indexed : nat;
  failed : nat;
  totalChunks : nat
}.

(** The loop [for (let i = 0; i < files.length; i++)] of the folder command,
    from iteration [i] on. *)
Fixpoint indexFiles (E : MemoryService.Engines) (H : Editor) (i : nat)
  (files : list jsstring) (t : Tally) (st : MemoryService.State)
  : Tally * MemoryService.State :=
  match files with
  | [] => (t, st)
  | file :: rest =>
      if isCancellationRequested H i then (t, st)
      else
        match readFile H file with
        | None =>
            indexFiles E H (S i) rest
              {| indexed := indexed t; failed := S (failed t);
                 totalChunks := totalChunks t |} st
        | Some text =>
            match MemoryService.addDocument E text file
                    (Some (languageFor (extname H file))) st with
            | (Returned chunksCreated, st') =>
                indexFiles E H (S i) rest
                  {| indexed := S (indexed t); failed := failed t;
                     totalChunks := totalChunks t + chunksCreated |} st'
            | (Thrown _, st') =>
                indexFiles E H (S i) rest
                  {| indexed := indexed t; failed := S (failed t);
                     totalChunks := totalChunks t |} st'
            end
        end
  end.

(** The answer to the confirmation dialog. *)
Inductive Answer : Type :=
| YesIndexFolder
| ConfigureOptions
| Dismissed.

(** The command [agent-memory.indexFolder] once the folder is chosen;
    [None] when it returns before the loop.  The scan of the validation and
    the scan before the loop see the same workspace [W]. *)
Definition indexFolder (W : FolderIndexer.Workspace)
  (E : MemoryService.Engines) (H : Editor) (answer : Answer)
  (folderPath : jsstring) : MemoryService.M (option Tally) :=
  fun st =>
    match folderPath with
    | [] => (Returned None, st)
    | _ :: _ =>
        match FolderIndexer.validateIndexingOperation W folderPath
                FolderIndexer.noOptions with
        | Thrown e => (Thrown e, st)
        | Returned validation =>
            if negb (FolderIndexer.valid validation) then (Returned None, st)
            else
              match answer with
              | YesIndexFolder =>
                  match FolderIndexer.getFilesToIndex W folderPath
                          FolderIndexer.noOptions with
                  | Thrown e => (Thrown e, st)
                  | Returned files =>
                      let '(t, st') :=
                        indexFiles E H 0 files
                          {| indexed := 0; failed := 0; totalChunks := 0 |} st in
                      (Returned (Some t), st')
                  end
              | _ => (Returned None, st)
              end
        end
    end.

(** The command [agent-memory.indexFile] on the active editor: the pair of
    [chunkCount] and [totalCount] of its message. *)
Definition indexFile (E : MemoryService.Engines)
  (text filepath languageId : jsstring) : MemoryService.M (nat * nat) :=
  MemoryService.bind
    (MemoryService.addDocument E text filepath (Some languageId))
    (fun chunkCount =>
       MemoryService.bind (MemoryService.getIndexedChunkCount E)
         (fun totalCount => MemoryService.ret (chunkCount, totalCount))).

(** [files.reduce((sum, f) => sum + f.count, 0)] of the tool that lists the
    indexed files. *)
Definition sumOfCounts (files : list (jsstring * nat)) : nat :=
  fold_left (fun sum f => sum + snd f) files 0.

End Extension.

(* ------------------------------------------------------------------ *)
(** * Scenarios for the commands and the tree view *)

Module Scenarios.

(** The content of the two small files of the folder [/w]. *)
Definition contents : list (jsstring * jsstring) :=
  [ (lit "/w/src/a.ts", Examples.twoFunctions);
    (lit "/w/src/b.ts", lit "const b = 1;") ].

(** An editor over the folder [/w]: the two small files can be read, and
    nobody cancels. *)
Definition editor : Extension.Editor :=
  {| Extension.readFile := fun p => ChunkingService.lookup p contents;
     Extension.extname := fun p =>
       if Host.endsWith (lit ".ts") p then lit ".ts" else [];
     Extension.isCancellationRequested := fun _ => false |}.

(** The same, the user cancelling during the first iteration. *)
Definition cancellingEditor : Extension.Editor :=
  {| Extension.readFile := Extension.readFile editor;
     Extension.extname := Extension.extname editor;
     Extension.isCancellationRequested := fun i => (1 <=? i)%nat |}.

Definition threeFiles : list jsstring :=
  [lit "/w/src/a.ts"; lit "/w/src/missing.ts"; lit "/w/src/b.ts"].

Definition noTally : Extension.Tally :=
  {| Extension.indexed := 0; Extension.failed := 0;
     Extension.totalChunks := 0 |}.

(** A document of two functions, indexed once and then once more. *)
Definition indexedOnce : MemoryService.State :=
  snd (MemoryService.addDocument Examples.engines Examples.twoFunctions
         (lit "/w/x.ts") (Some (lit "typescript")) Examples.indexed).

Definition indexedTwice : MemoryService.State :=
  snd (MemoryService.addDocument Examples.engines Examples.twoFunctions
         (lit "/w/x.ts") (Some (lit "typescript")) indexedOnce).

(** The two folders the tree view shows for the table of
    [Examples.indexed]. *)
Definition srcFolder : MemoryViewProvider.FolderGroup :=
  {| MemoryViewProvider.folderPath := lit "/w/src";
     MemoryViewProvider.files := [(lit "/w/src/a.ts", 2)];
     MemoryViewProvider.totalChunks := 2 |}.

Definition subFolder : MemoryViewProvider.FolderGroup :=
  {| MemoryViewProvider.folderPath := lit "/w/src/sub";
     MemoryViewProvider.files := [(lit "/w/src/sub/b.ts", 1)];
     MemoryViewProvider.totalChunks := 1 |}.

(** A folder [/big] with 501 small TypeScript files, in a workspace whose
    setting [agentMemory.maxFiles] is 600. *)
Definition manyFiles : list jsstring :=
  map (fun k => lit "/big/f" ++ [N.of_nat (1000 + k)] ++ lit ".ts")
    (seq 0 501).

Definition bigWorkspace : FolderIndexer.Workspace :=
  {| FolderIndexer.settings :=
       {| FolderIndexer.maxFileSize :=
            FolderIndexer.maxFileSize FolderIndexer.DEFAULT_OPTIONS;
          FolderIndexer.excludePatterns :=
            FolderIndexer.excludePatterns FolderIndexer.DEFAULT_OPTIONS;
          FolderIndexer.includeExtensions :=
            FolderIndexer.includeExtensions FolderIndexer.DEFAULT_OPTIONS;
          FolderIndexer.maxFiles := 600 |};
     FolderIndexer.findFiles := fun _ pattern =>
       if JS.eqb pattern (lit "**/*.ts") then manyFiles else [];
     FolderIndexer.stat := fun _ => Some 10%Z;
     FolderIndexer.relative := Host.relativeBelow;
     FolderIndexer.regExpTest := Host.regExpTest |}.

End Scenarios.
(* ------------------------------------------------------------------ *)
(** * Properties of strings *)

Lemma eqb_eq (a b : jsstring) : JS.eqb a b = true <-> a = b.
Proof.
  revert b; induction a as [|x a IH]; intros [|y b]; simpl;
    try (split; [discriminate | congruence]); try tauto.
  rewrite andb_true_iff, N.eqb_eq, IH.
  split; [intros [-> ->]; reflexivity | intros H; inversion H; auto].
Qed.

Lemma eqb_refl (a : jsstring) : JS.eqb a a = true.
Proof. apply eqb_eq; reflexivity. Qed.

Lemma eqb_neq (a b : jsstring) : JS.eqb a b = false <-> a <> b.
Proof.
  rewrite <- eqb_eq. destruct (JS.eqb a b); split; congruence.
Qed.

Lemma trimStart_blank (w s : jsstring) :
  blank w = true -> trimStart (w ++ s) = trimStart s.
Proof.
  induction w as [|c w IH]; simpl; [reflexivity|].
  intros H; apply andb_true_iff in H as [Hc Hw].
  rewrite Hc; auto.
Qed.

Lemma trimStart_nil_blank (s : jsstring) :
  trimStart s = [] <-> blank s = true.
Proof.
  induction s as [|c s IH]; simpl; [tauto|].
  destruct (isWhiteSpace c); simpl; [exact IH|].
  split; discriminate.
Qed.

Lemma blank_rev (s : jsstring) : blank (rev s) = blank s.
Proof.
  unfold blank. induction s as [|c s IH]; simpl; [reflexivity|].
  rewrite forallb_app, IH; simpl. rewrite andb_true_r, andb_comm; reflexivity.
Qed.

Lemma blank_app (a b : jsstring) : blank (a ++ b) = blank a && blank b.
Proof. apply forallb_app. Qed.

Lemma trimEnd_blank (s w : jsstring) :
  blank w = true -> trimEnd (s ++ w) = trimEnd s.
Proof.
  intros H. unfold trimEnd. rewrite rev_app_distr, trimStart_blank; auto.
  rewrite blank_rev; exact H.
Qed.

Lemma trimEnd_nil_blank (s : jsstring) : trimEnd s = [] <-> blank s = true.
Proof.
  unfold trimEnd. rewrite <- (blank_rev s), <- trimStart_nil_blank.
  split; intros H.
  - apply (f_equal (@rev _)) in H. rewrite rev_involutive in H. exact H.
  - rewrite H; reflexivity.
Qed.

Lemma trimStart_suffix (s : jsstring) :
  exists w, blank w = true /\ s = w ++ trimStart s.
Proof.
  induction s as [|c s [w [Hw Hs]]]; simpl; [exists []; auto|].
  destruct (isWhiteSpace c) eqn:Hc.
  - exists (c :: w); simpl. rewrite Hc, Hw. split; [reflexivity | congruence].
  - exists []; auto.
Qed.

(** [s.trim()] is empty exactly when [s] is empty or white space only. *)
Lemma trim_nil_blank (s : jsstring) : trim s = [] <-> blank s = true.
Proof.
  unfold trim. rewrite trimEnd_nil_blank.
  destruct (trimStart_suffix s) as [w [Hw Hs]].
  rewrite Hs at 2. rewrite blank_app, Hw; simpl. tauto.
Qed.

Lemma trim_length_blank (s : jsstring) :
  (length (trim s) =? 0)%nat = blank s.
Proof.
  destruct (blank s) eqn:Hb.
  - apply trim_nil_blank in Hb. rewrite Hb; reflexivity.
  - destruct (trim s) eqn:Ht; [|reflexivity].
    apply trim_nil_blank in Ht. congruence.
Qed.

Lemma trim_length_pos (s : jsstring) :
  (0 <? length (trim s))%nat = negb (blank s).
Proof.
  rewrite <- trim_length_blank. destruct (trim s); reflexivity.
Qed.

Lemma nonWhiteSpace_app (a b : jsstring) :
  nonWhiteSpace (a ++ b) = nonWhiteSpace a ++ nonWhiteSpace b.
Proof. apply filter_app. Qed.

Lemma nonWhiteSpace_blank (w : jsstring) :
  blank w = true -> nonWhiteSpace w = [].
Proof.
  induction w as [|c w IH]; simpl; [reflexivity|].
  intros H; apply andb_true_iff in H as [Hc Hw].
  rewrite Hc; simpl; auto.
Qed.

(** Joining the pieces of [split] with the separator gives the string
    back. *)
Lemma split_terminated (sep : codeUnit) (s : jsstring) :
  concat (map (fun l => l ++ [sep]) (split sep s)) = s ++ [sep].
Proof.
  induction s as [|c s IH]; simpl; [reflexivity|].
  destruct (N.eqb c sep) eqn:Hc.
  - apply N.eqb_eq in Hc; subst c. simpl. rewrite IH; reflexivity.
  - destruct (split sep s) as [|l ls]; simpl in *.
    + destruct s; discriminate.
    + rewrite IH; reflexivity.
Qed.

(* ------------------------------------------------------------------ *)
(** * The line based chunker *)

Section LineChunker.

Variable maxSize : Z.

(** The chunks pushed so far followed by the buffer are the lines read so
    far, each with its line break. *)
Lemma lineStep_accumulates (lines : list jsstring) :
  forall chunks currentChunk chunks' currentChunk',
    fold_left (ChunkingService.lineStep maxSize) lines (chunks, currentChunk)
      = (chunks', currentChunk') ->
    concat chunks' ++ currentChunk'
      = concat chunks ++ currentChunk ++ concat (map (fun l => l ++ [LF]) lines).
Proof.
  induction lines as [|line lines IH]; simpl; intros chunks cur chunks' cur' H.
  - inversion H; subst. rewrite app_nil_r; reflexivity.
  - destruct (_ && _) in H; apply IH in H; rewrite H.
    + rewrite concat_app; simpl. rewrite app_nil_r, <- !app_assoc. reflexivity.
    + rewrite <- !app_assoc. reflexivity.
Qed.

(** Either nothing was pushed and the single chunk is the text, or the
    chunks are the text and one line break, short of a blank tail. *)
Lemma simpleChunk_shape (text : jsstring) :
  ChunkingService._simpleChunk text maxSize = [text]
  \/ exists w, blank w = true
       /\ concat (ChunkingService._simpleChunk text maxSize) ++ w = text ++ [LF].
Proof.
  unfold ChunkingService._simpleChunk.
  destruct (fold_left _ _ _) as [chunks cur] eqn:Hfold.
  apply lineStep_accumulates in Hfold. simpl in Hfold.
  rewrite split_terminated in Hfold.
  rewrite trim_length_pos.
  destruct (blank cur) eqn:Hcur; simpl.
  - destruct chunks as [|c chunks]; simpl; [left; reflexivity|].
    right. exists cur. split; [exact Hcur | exact Hfold].
  - right. exists []. split; [reflexivity|].
    assert (Hlen : (0 <? length (chunks ++ [cur]))%nat = true)
      by (rewrite length_app; simpl; apply Nat.ltb_lt; lia).
    rewrite Hlen, concat_app; simpl.
    rewrite !app_nil_r. exact Hfold.
Qed.

End LineChunker.

(** C3. Concatenating the chunks of the line based fallback chunker gives
    the input text back up to trailing white space, and every code unit that
    is not white space is kept, in order; the copy of the chunker in
    MemoryService computes the same chunks as the one in ChunkingService. *)
Theorem simpleChunk_keeps_content (text : jsstring) (maxSize : Z) :
  let chunks := ChunkingService._simpleChunk text maxSize in
  trimEnd (concat chunks) = trimEnd text
  /\ nonWhiteSpace (concat chunks) = nonWhiteSpace text
  /\ MemoryService._simpleChunk text maxSize = chunks.
Proof.
  cbv zeta.
  assert (Hlf : blank [LF] = true) by reflexivity.
  rewrite <- and_assoc. split; [|reflexivity].
  destruct (simpleChunk_shape maxSize text) as [-> | [w [Hw H]]].
  - simpl. rewrite app_nil_r. auto.
  - split.
    + rewrite <- (trimEnd_blank _ w Hw), H. apply trimEnd_blank, Hlf.
    + apply (f_equal nonWhiteSpace) in H.
      rewrite !nonWhiteSpace_app, (nonWhiteSpace_blank w Hw) in H.
      rewrite (nonWhiteSpace_blank _ Hlf), !app_nil_r in H. exact H.
Qed.

(* ------------------------------------------------------------------ *)
(** * The structural chunker *)

Section StructuralChunker.

Import ChunkingService.

Variable maxSize : Z.

Lemma visitNode_smallBlock (n : Node) (chunks : list jsstring) :
  smallBlock maxSize n -> _visitNode n chunks maxSize = chunks ++ [text n].
Proof.
  destruct n as [ty content kids]. unfold smallBlock, isBlock; cbn [_visitNode type text].
  intros [Hb Hlen]. apply Z.leb_le in Hlen. rewrite Hb, Hlen. reflexivity.
Qed.

(** The recursion of [_visitNode] into the children is the loop
    [visitChildren]. *)
Lemma visitNode_descends (ty content : jsstring) (k : Node) (kids : list Node)
  (chunks : list jsstring) :
  includes blockTypes ty && (Z.of_nat (length content) <=? maxSize)%Z = false ->
  _visitNode (mkNode ty content (k :: kids)) chunks maxSize
    = visitChildren (k :: kids) chunks maxSize.
Proof.
  intros H. cbn [_visitNode]. rewrite H. unfold visitChildren.
  cbn [fold_left]. generalize (_visitNode k chunks maxSize) as acc.
  induction kids as [|c kids IH]; intros acc;
    [reflexivity | exact (IH (_visitNode c acc maxSize))].
Qed.

Lemma visitChildren_smallBlocks (siblings : list Node) :
  Forall (smallBlock maxSize) siblings ->
  forall chunks,
    visitChildren siblings chunks maxSize = chunks ++ map text siblings.
Proof.
  unfold visitChildren.
  induction 1 as [|n siblings Hn _ IH]; intros chunks; simpl.
  - rewrite app_nil_r; reflexivity.
  - rewrite (visitNode_smallBlock n chunks Hn), IH, <- app_assoc. reflexivity.
Qed.

End StructuralChunker.

(** C4. A node of a block type (function declaration, class declaration,
    method definition) whose text is at most [maxSize] long adds exactly one
    chunk, its full text, whatever its children are; and a parent that is
    not emitted whole and whose children are all such blocks adds one chunk
    per child, in order, so that sibling blocks are never merged. *)
Theorem visitNode_block_is_one_chunk (maxSize : Z)
  (node : ChunkingService.Node) (chunks : list jsstring) :
  ChunkingService.isBlock node = true ->
  (Z.of_nat (length (ChunkingService.text node)) <= maxSize)%Z ->
  ChunkingService._visitNode node chunks maxSize
    = chunks ++ [ChunkingService.text node]
  /\ (forall kids,
        ChunkingService._visitNode
          (ChunkingService.mkNode (ChunkingService.type node)
             (ChunkingService.text node) kids) chunks maxSize
        = chunks ++ [ChunkingService.text node])
  /\ (forall ty content siblings,
        includes ChunkingService.blockTypes ty
          && (Z.of_nat (length content) <=? maxSize)%Z = false ->
        Forall (ChunkingService.smallBlock maxSize) siblings ->
        ChunkingService._visitNode
          (ChunkingService.mkNode ty content (node :: siblings)) chunks maxSize
        = chunks ++ ChunkingService.text node
                    :: map ChunkingService.text siblings).
Proof.
  intros Hb Hlen.
  assert (Hn : ChunkingService.smallBlock maxSize node) by (split; assumption).
  split; [apply visitNode_smallBlock; exact Hn|].
  split.
  - intros kids. apply (visitNode_smallBlock maxSize (ChunkingService.mkNode _ _ kids)).
    destruct node; split; assumption.
  - intros ty content siblings Hparent Hsib.
    rewrite visitNode_descends by exact Hparent.
    apply (visitChildren_smallBlocks maxSize (node :: siblings)).
    constructor; assumption.
Qed.

(* ------------------------------------------------------------------ *)
(** * addDocument *)

Section AddDocument.

Import MemoryService.

Variable E : Engines.

(** The embedding loop issues no request to the store. *)
Lemma embedChunks_frame (path : jsstring) (chunks : list jsstring) :
  forall records st,
    table (snd (embedChunks E path chunks records st)) = table st
    /\ storeCalls (snd (embedChunks E path chunks records st)) = storeCalls st.
Proof.
  induction chunks as [|chunk rest IH]; intros records st; simpl; [auto|].
  destruct (length (trim chunk) =? 0)%nat; [apply IH|].
  unfold bind, embed, freshId.
  destruct (getEmbedding E (embedCalls st) chunk) as [v|]; simpl; [|auto].
  match goal with |- context [embedChunks E path rest ?r ?s] =>
    exact (IH r s) end.
Qed.

(** When the embedding of one of the chunks is rejected, the loop throws. *)
Lemma embedChunks_rejected (path : jsstring) (chunks : list jsstring) :
  forall records st,
    (exists i chunk,
        nth_error (toEmbed chunks) i = Some chunk
        /\ getEmbedding E (embedCalls st + i) chunk = None) ->
    fst (embedChunks E path chunks records st) = Thrown EmbeddingError.
Proof.
  induction chunks as [|chunk rest IH]; intros records st [i [c [Hi Hc]]].
  - destruct i; discriminate.
  - simpl in *. destruct (length (trim chunk) =? 0)%nat; simpl in Hi.
    + apply IH. eauto.
    + unfold bind at 1, embed.
      destruct (getEmbedding E (embedCalls st) chunk) as [v|] eqn:Hv;
        [|reflexivity].
      destruct i as [|i]; simpl in Hi.
      * inversion Hi; subst c. rewrite Nat.add_0_r in Hc. congruence.
      * unfold bind at 1, freshId. apply IH. exists i, c. split; [exact Hi|].
        simpl. rewrite <- Hc. f_equal. lia.
Qed.

End AddDocument.

(** C1. When the embedding of one of the chunks of a document is rejected,
    [addDocument] throws that error, and the table and the number of
    requests to the store are what they were before the call: nothing was
    inserted. *)
Theorem addDocument_embedding_rejected (E : MemoryService.Engines)
  (text path : jsstring) (languageId : option jsstring)
  (st : MemoryService.State) :
  blank text = false ->
  (exists i chunk,
      nth_error
        (MemoryService.toEmbed
           (fst (MemoryService.chunksOf E text languageId
                   (MemoryService.chunkingService st)))) i = Some chunk
      /\ MemoryService.getEmbedding E (MemoryService.embedCalls st + i) chunk
         = None) ->
  fst (MemoryService.addDocument E text path languageId st)
    = Thrown EmbeddingError
  /\ MemoryService.table (snd (MemoryService.addDocument E text path languageId st))
     = MemoryService.table st
  /\ MemoryService.storeCalls
       (snd (MemoryService.addDocument E text path languageId st))
     = MemoryService.storeCalls st.
Proof.
  intros Htext Hrej.
  assert (Hrun : exists st',
             MemoryService.addDocument E text path languageId st
               = (Thrown EmbeddingError, st')
             /\ MemoryService.table st' = MemoryService.table st
             /\ MemoryService.storeCalls st' = MemoryService.storeCalls st).
  { unfold MemoryService.addDocument. rewrite trim_length_blank, Htext.
    unfold MemoryService.bind at 1, MemoryService.runChunking.
    destruct (MemoryService.chunksOf E text languageId
                (MemoryService.chunkingService st)) as [chunks cs].
    simpl fst in Hrej. unfold MemoryService.bind at 1.
    match goal with |- context [MemoryService.embedChunks E path chunks [] ?s] =>
      pose proof (embedChunks_rejected E path chunks [] s Hrej) as Hthrown;
      pose proof (embedChunks_frame E path chunks [] s) as [Htable Hcalls];
      destruct (MemoryService.embedChunks E path chunks [] s) as [[records|e] st']
    end; simpl in Hthrown; [discriminate|].
    inversion Hthrown; subst e. exists st'. auto. }
  destruct Hrun as [st' [-> [Htable Hcalls]]]. auto.
Qed.

(** C9. On an empty or white space only text, [addDocument] returns
    [chunksCreated = 0] and leaves the whole state as it was: the table,
    and the number of requests issued to the store and to the embedding
    service. *)
Theorem addDocument_blank_text (E : MemoryService.Engines)
  (text path : jsstring) (languageId : option jsstring)
  (st : MemoryService.State) :
  blank text = true ->
  MemoryService.addDocument E text path languageId st = (Returned 0, st).
Proof.
  intros Htext. unfold MemoryService.addDocument.
  rewrite trim_length_blank, Htext. reflexivity.
Qed.

(* ------------------------------------------------------------------ *)
(** * Listings and deletions *)

Lemma filter_all {A : Type} (l : list A) : filter (fun _ => true) l = l.
Proof. induction l as [|x l IH]; simpl; congruence. Qed.

Lemma filter_twice {A : Type} (f g : A -> bool) (l : list A) :
  filter f (filter g l) = filter (fun x => g x && f x) l.
Proof.
  induction l as [|x l IH]; simpl; [reflexivity|].
  destruct (g x); simpl; [destruct (f x)|]; congruence.
Qed.

Lemma includes_In (a : list jsstring) (x : jsstring) :
  includes a x = true <-> In x a.
Proof.
  unfold includes. rewrite existsb_exists. split.
  - intros [y [Hy Heq]]. apply eqb_eq in Heq. congruence.
  - intros H. exists x. split; [exact H | apply eqb_refl].
Qed.

Section Store.

Import MemoryService.

Variable E : Engines.

(** Rows with pairwise distinct ids are told apart by their id. *)
Lemma distinct_ids_inj (rs : list MemRecord) :
  NoDup (map id rs) ->
  forall r r', In r rs -> In r' rs -> id r = id r' -> r = r'.
Proof.
  induction rs as [|x rs IH]; simpl; intros Hnd r r' Hr Hr' Heq; [tauto|].
  inversion Hnd as [|? ? Hx Hrs]; subst.
  destruct Hr as [-> | Hr], Hr' as [-> | Hr']; auto.
  - exfalso. apply Hx. rewrite Heq. apply in_map, Hr'.
  - exfalso. apply Hx. rewrite <- Heq. apply in_map, Hr.
Qed.

(** Deleting by id the rows a test selects deletes those rows only. *)
Lemma selected_ids (sel : MemRecord -> bool) (rs : list MemRecord) :
  NoDup (map id rs) ->
  forall r, In r rs -> includes (map id (filter sel rs)) (id r) = sel r.
Proof.
  intros Hnd r Hr. destruct (sel r) eqn:Hsel.
  - apply includes_In, in_map, filter_In. auto.
  - destruct (includes _ _) eqn:Hin; [|reflexivity].
    apply includes_In, in_map_iff in Hin as [r' [Heq Hr']].
    apply filter_In in Hr' as [Hr' Hsel'].
    rewrite (distinct_ids_inj rs Hnd r r' Hr Hr' (eq_sym Heq)) in Hsel.
    congruence.
Qed.

Lemma tryCatch_rethrow {A : Type} (m : M A) (st : State) :
  tryCatch m (fun error => throw error) st = m st.
Proof. unfold tryCatch, throw. destruct (m st) as [[a|e] st']; reflexivity. Qed.

Lemma rows_storeRequested (rs : list MemRecord) (st : State) :
  rows (storeRequested rs st) = rs.
Proof. reflexivity. Qed.

(** After the deletions by id have all succeeded, the rows left are those
    whose id is none of the ids. *)
Lemma deleteEach_returned (ids : list jsstring) :
  forall st st',
    deleteEach E ids st = (Returned tt, st') ->
    rows st' = filter (fun r => negb (includes ids (id r))) (rows st).
Proof.
  induction ids as [|i ids IH]; simpl; intros st st' H.
  - inversion H; subst. symmetry; apply filter_all.
  - unfold bind, tableDelete, storeOp, rows in *.
    destruct (table st) as [rs|]; [|discriminate].
    destruct (storeRejects E (storeCalls st)); [discriminate|].
    apply IH in H. simpl in H. rewrite H, filter_twice.
    apply filter_ext. intros r. rewrite negb_orb. reflexivity.
Qed.

Lemma deleteEach_reliable (ids : list jsstring) :
  (forall k, storeRejects E k = false) ->
  forall st, table st <> None ->
    exists st', deleteEach E ids st = (Returned tt, st').
Proof.
  intros Hok. induction ids as [|i ids IH]; simpl; intros st Ht.
  - exists st; reflexivity.
  - unfold bind, tableDelete, storeOp.
    destruct (table st) as [rs|]; [|congruence].
    rewrite Hok. apply IH. discriminate.
Qed.

Lemma guarded_deleteEach (ids : list jsstring) :
  (if (0 <? length ids)%nat then deleteEach E ids else ret tt) = deleteEach E ids.
Proof. destruct ids; reflexivity. Qed.

(** The first request of a deletion is the query of all rows. *)
Lemma clearAllIndexes_run (st : State) (rs : list MemRecord) :
  table st = Some rs ->
  clearAllIndexes E st
    = if storeRejects E (storeCalls st)
      then (Thrown StoreError, storeRequested rs st)
      else deleteEach E
             (map id (filter (fun r => negb (JS.eqb (filepath r) (lit "init"))) rs))
             (storeRequested rs st).
Proof.
  intros Ht. unfold clearAllIndexes. rewrite Ht, tryCatch_rethrow.
  unfold bind, tableQuery, storeOp. rewrite Ht.
  destruct (storeRejects E (storeCalls st)); cbn [fst snd]; [reflexivity|].
  rewrite guarded_deleteEach. reflexivity.
Qed.

Lemma deleteFolderIndex_run (folderPath : jsstring) (st : State)
  (rs : list MemRecord) :
  table st = Some rs ->
  let filesToDelete :=
    filter (fun r => JS.eqb (dirname E (filepath r)) folderPath) rs in
  deleteFolderIndex E folderPath st
    = if storeRejects E (storeCalls st)
      then (Thrown StoreError, storeRequested rs st)
      else match deleteEach E (map id filesToDelete) (storeRequested rs st) with
           | (Returned _, st') => (Returned (length filesToDelete), st')
           | (Thrown e, st') => (Thrown e, st')
           end.
Proof.
  intros Ht. cbv zeta. unfold deleteFolderIndex. rewrite Ht, tryCatch_rethrow.
  unfold bind, tableQuery, storeOp, ret. rewrite Ht.
  destruct (storeRejects E (storeCalls st)); reflexivity.
Qed.

(** A listing of the rows of a file, when the query succeeds. *)
Lemma getFileChunks_exact (path : jsstring) (st : State) :
  storeRejects E (storeCalls st) = false ->
  fst (getFileChunks E path st)
    = Returned (map toFileChunk
                  (filter (fun r => JS.eqb (filepath r) path) (rows st))).
Proof.
  intros Hok. unfold getFileChunks, rows.
  destruct (table st) as [rs|] eqn:Ht; [|reflexivity].
  unfold tryCatch, bind, tableQuery, storeOp. rewrite Ht, Hok. reflexivity.
Qed.

Lemma getFileChunksWithVectors_exact (path : jsstring) (st : State) :
  storeRejects E (storeCalls st) = false ->
  fst (getFileChunksWithVectors E path st)
    = Returned (filter (fun r => JS.eqb (filepath r) path) (rows st)).
Proof.
  intros Hok. unfold getFileChunksWithVectors, rows.
  destruct (table st) as [rs|] eqn:Ht; [|reflexivity].
  unfold tryCatch, bind, tableQuery, storeOp. rewrite Ht, Hok.
  cbn [fst snd ret]. f_equal.
  induction (filter _ rs) as [|[v t p i] l IH]; simpl; congruence.
Qed.

(** The listings that leave the sentinel out test the filepath. *)
Lemma getIndexedChunkCount_skips_init (st : State) :
  storeRejects E (storeCalls st) = false ->
  fst (getIndexedChunkCount E st)
    = Returned (length (filter
                          (fun r => negb (JS.eqb (filepath r) (lit "init")))
                          (rows st))).
Proof.
  intros Hok. unfold getIndexedChunkCount, rows.
  destruct (table st) as [rs|] eqn:Ht; [|reflexivity].
  unfold tryCatch, bind, tableQuery, storeOp. rewrite Ht, Hok. reflexivity.
Qed.

(** A search on the table [init] has just created answers the sentinel,
    whatever the query, when at least one row is asked for. *)
Lemma search_new_table (query : jsstring) (limit : nat) (v : list Q) :
  getEmbedding E 0 query = Some v ->
  storeRejects E 0 = false ->
  fst (search E query (S limit) (init E None)) = Returned [sentinel].
Proof.
  intros Hv Hok. unfold search, bind, embed, init. cbn [embedCalls].
  rewrite Hv. unfold tableSearch, storeOp, embedRequested.
  cbn [table storeCalls]. rewrite Hok.
  cbn [fst nearest fold_right insertByDistance firstn]. rewrite firstn_nil.
  reflexivity.
Qed.

End Store.

Lemma dropWhile_all (p : codeUnit -> bool) (a b : jsstring) :
  forallb p a = true -> Host.dropWhile p (a ++ b) = Host.dropWhile p b.
Proof.
  induction a as [|c a IH]; simpl; [reflexivity|].
  intros H; apply andb_true_iff in H as [Hc Ha]. rewrite Hc; auto.
Qed.

(** What [path.posix.dirname] cuts off is the last component and the slash
    before it. *)
Lemma posixDirname_last_component (c0 : codeUnit) (dir file : jsstring) :
  file <> [] -> ~ In SLASH file ->
  Host.posixDirname ((c0 :: dir) ++ [SLASH] ++ file)
    = if Host.isSlash c0 && (length (c0 :: dir) =? 1)%nat then lit "//"
      else c0 :: dir.
Proof.
  intros Hne Hslash. unfold Host.posixDirname. cbn [app].
  assert (Hfile : forallb (fun c => negb (Host.isSlash c)) (rev file) = true).
  { apply forallb_forall. intros c Hc. apply in_rev in Hc.
    unfold Host.isSlash. destruct (N.eqb_spec c SLASH); [subst; tauto | reflexivity]. }
  assert (Hrev : rev (dir ++ SLASH :: file) = rev file ++ SLASH :: rev dir).
  { rewrite rev_app_distr. simpl. rewrite <- app_assoc. reflexivity. }
  rewrite Hrev.
  assert (Hskip : Host.dropWhile Host.isSlash (rev file ++ SLASH :: rev dir)
                  = rev file ++ SLASH :: rev dir).
  { destruct (rev file) as [|c f] eqn:Hf.
    - apply (f_equal (@rev _)) in Hf. rewrite rev_involutive in Hf. tauto.
    - simpl in *. apply andb_true_iff in Hfile as [Hc _].
      apply negb_true_iff in Hc. rewrite Hc. reflexivity. }
  rewrite Hskip, (dropWhile_all _ _ _ Hfile). cbn [Host.dropWhile].
  change (Host.isSlash SLASH) with true. cbn [negb].
  assert (Hlen : length (SLASH :: rev dir) = length (c0 :: dir))
    by (simpl; rewrite length_rev; reflexivity).
  rewrite Hlen.
  destruct (Host.isSlash c0 && _); [reflexivity|].
  change (c0 :: dir ++ SLASH :: file) with ((c0 :: dir) ++ SLASH :: file).
  rewrite firstn_app, firstn_all, Nat.sub_diag. simpl. rewrite app_nil_r. reflexivity.
Qed.

(** A file in a subfolder of [folder] does not have [folder] as its
    directory. *)
Lemma posixDirname_subfolder (folder sub file : jsstring) :
  file <> [] -> ~ In SLASH file ->
  Host.posixDirname (folder ++ [SLASH] ++ sub ++ [SLASH] ++ file) <> folder.
Proof.
  intros Hne Hslash.
  destruct (folder ++ [SLASH] ++ sub) as [|c0 dir] eqn:Hdir.
  - destruct folder; discriminate.
  - replace (folder ++ [SLASH] ++ sub ++ [SLASH] ++ file)
      with ((c0 :: dir) ++ [SLASH] ++ file)
      by (rewrite <- Hdir, <- !app_assoc; reflexivity).
    rewrite posixDirname_last_component by assumption.
    apply (f_equal (@length _)) in Hdir. rewrite !length_app in Hdir.
    simpl in Hdir.
    destruct (Host.isSlash c0 && _) eqn:Hroot; intros Heq.
    + apply andb_true_iff in Hroot as [_ Hl]. apply Nat.eqb_eq in Hl.
      subst folder. simpl in *. lia.
    + subst folder. simpl in Hdir. lia.
Qed.

(** C10. [clearAllIndexes] selects what it deletes by the test
    [filepath !== 'init'], not by the id of the sentinel: on a table with
    pairwise distinct ids, when it returns the rows left are exactly those
    whose filepath is the string [init], so that a user row with that
    filepath stays and every row with another filepath is gone; and it
    returns whenever the store does not reject. *)
Theorem clearAllIndexes_keeps_init_filepath (E : MemoryService.Engines)
  (st : MemoryService.State) :
  NoDup (map MemoryService.id (MemoryService.rows st)) ->
  (forall st',
      MemoryService.clearAllIndexes E st = (Returned tt, st') ->
      MemoryService.rows st'
        = filter (fun r => JS.eqb (MemoryService.filepath r) (lit "init"))
            (MemoryService.rows st))
  /\ ((forall k, MemoryService.storeRejects E k = false) ->
      exists st', MemoryService.clearAllIndexes E st = (Returned tt, st')).
Proof.
  intros Hnd.
  destruct (MemoryService.table st) as [rs|] eqn:Ht.
  - rewrite (clearAllIndexes_run E st rs Ht).
    unfold MemoryService.rows at 2. rewrite Ht.
    destruct (MemoryService.storeRejects E (MemoryService.storeCalls st))
      eqn:Hrej.
    + split; [discriminate|].
      intros Hok. rewrite Hok in Hrej. discriminate.
    + split.
      * intros st' H. apply deleteEach_returned in H.
        rewrite rows_storeRequested in H. rewrite H.
        apply filter_ext_in. intros r Hr.
        unfold MemoryService.rows in Hnd. rewrite Ht in Hnd.
        rewrite (selected_ids _ rs Hnd r Hr), negb_involutive. reflexivity.
      * intros Hok. apply deleteEach_reliable; [exact Hok | discriminate].
  - unfold MemoryService.clearAllIndexes, MemoryService.rows. rewrite Ht.
    split.
    + intros st' H. inversion H; subst. rewrite Ht. reflexivity.
    + intros _. exists st. reflexivity.
Qed.

(** C8. On a table with pairwise distinct ids, when [deleteFolderIndex]
    returns, the rows left are exactly those whose filepath has another
    directory than [folderPath] (compared as strings), and the number
    returned is the number of rows deleted; in particular, under the
    [dirname] of a POSIX host, the rows of the files of a subfolder of
    [folderPath] are kept.  It returns whenever the store does not
    reject. *)
Theorem deleteFolderIndex_exact_directory (E : MemoryService.Engines)
  (folderPath : jsstring) (st : MemoryService.State) :
  NoDup (map MemoryService.id (MemoryService.rows st)) ->
  (forall n st',
      MemoryService.deleteFolderIndex E folderPath st = (Returned n, st') ->
      MemoryService.rows st'
        = filter
            (fun r => negb (JS.eqb (MemoryService.dirname E
                                      (MemoryService.filepath r)) folderPath))
            (MemoryService.rows st)
      /\ n = length
               (filter
                  (fun r => JS.eqb (MemoryService.dirname E
                                      (MemoryService.filepath r)) folderPath)
                  (MemoryService.rows st))
      /\ ((forall p, MemoryService.dirname E p = Host.posixDirname p) ->
          forall r sub file,
            In r (MemoryService.rows st) ->
            MemoryService.filepath r
              = folderPath ++ [SLASH] ++ sub ++ [SLASH] ++ file ->
            file <> [] -> ~ In SLASH file ->
            In r (MemoryService.rows st')))
  /\ ((forall k, MemoryService.storeRejects E k = false) ->
      exists n st',
        MemoryService.deleteFolderIndex E folderPath st = (Returned n, st')).
Proof.
  intros Hnd.
  destruct (MemoryService.table st) as [rs|] eqn:Ht.
  - rewrite (deleteFolderIndex_run E folderPath st rs Ht).
    unfold MemoryService.rows in Hnd |- *. rewrite Ht in *.
    set (sel := fun r => JS.eqb (MemoryService.dirname E
                                   (MemoryService.filepath r)) folderPath).
    destruct (MemoryService.storeRejects E (MemoryService.storeCalls st))
      eqn:Hrej.
    + split; [discriminate|].
      intros Hok. rewrite Hok in Hrej. discriminate.
    + split.
      * intros n st' H.
        destruct (MemoryService.deleteEach E _ _) as [[[]|e] st1] eqn:Hdel;
          [|discriminate].
        inversion H; subst n st1. clear H.
        apply deleteEach_returned in Hdel.
        rewrite rows_storeRequested in Hdel.
        assert (Hrows : MemoryService.rows st'
                        = filter (fun r => negb (sel r)) rs).
        { rewrite Hdel. apply filter_ext_in. intros r Hr.
          rewrite (selected_ids sel rs Hnd r Hr). reflexivity. }
        unfold MemoryService.rows in Hrows. rewrite Hrows.
        split; [reflexivity|]. split; [reflexivity|].
        intros Hposix r sub file Hr Hpath Hne Hslash.
        apply filter_In. split; [exact Hr|].
        apply negb_true_iff, eqb_neq. subst sel. cbv beta.
        rewrite Hposix, Hpath. apply posixDirname_subfolder; assumption.
      * intros Hok.
        destruct (deleteEach_reliable E (map MemoryService.id (filter sel rs)) Hok
                    (MemoryService.storeRequested rs st)) as [st' Hst'];
          [discriminate|].
        exists (length (filter sel rs)), st'. rewrite Hst'. reflexivity.
  - unfold MemoryService.deleteFolderIndex, MemoryService.rows. rewrite Ht.
    split.
    + intros n st' H. inversion H; subst. rewrite Ht. simpl.
      repeat split; tauto.
    + intros _. exists 0, st. reflexivity.
Qed.

(* ------------------------------------------------------------------ *)
(** * The folder scan *)

(** Turn the tests of the loops, kept as hypotheses, into inequalities. *)
Ltac tests :=
  repeat match goal with
  | H : (_ >? _)%Z = _ |- _ => rewrite Z.gtb_ltb in H
  | H : (_ >=? _)%Z = _ |- _ => rewrite Z.geb_leb in H
  | H : (_ <? _)%Z = true |- _ => apply Z.ltb_lt in H
  | H : (_ <? _)%Z = false |- _ => apply Z.ltb_ge in H
  | H : (_ <=? _)%Z = true |- _ => apply Z.leb_le in H
  | H : (_ <=? _)%Z = false |- _ => apply Z.leb_gt in H
  end.

Section FolderScan.

Import FolderIndexer.

Variable W : Workspace.
Variable folderPath : jsstring.
Variable opts : IndexingOptions.

(** A file is pushed only when it qualifies. *)
Lemma scanFound_qualify (foundFiles : list jsstring) :
  forall files out,
    scanFound W folderPath opts foundFiles files = Returned out ->
    forall f, In f out ->
      In f files \/ (In f foundFiles /\ qualifies W folderPath opts f = true).
Proof.
  induction foundFiles as [|p rest IH]; simpl; intros files out H f Hf.
  - inversion H; subst; auto.
  - unfold qualifies.
    destruct (shouldExclude W folderPath p (excludePatterns opts))
      as [[|]|e] eqn:Hex; [| |discriminate].
    + destruct (IH _ _ H f Hf) as [?|[? ?]]; auto.
    + destruct (stat W p) as [size|] eqn:Hstat.
      * destruct (size >? maxFileSize opts)%Z eqn:Hsize.
        -- destruct (IH _ _ H f Hf) as [?|[? ?]]; auto.
        -- assert (Hq : In f (files ++ [p]) ->
                        In f files \/ (p = f \/ In f rest) /\
                          match shouldExclude W folderPath f (excludePatterns opts) with
                          | Returned false =>
                              match stat W f with
                              | Some size => (size <=? maxFileSize opts)%Z
                              | None => false
                              end
                          | _ => false
                          end = true).
           { intros Hin. apply in_app_or in Hin as [?|[<-|[]]]; auto.
             right. split; [auto|]. rewrite Hex, Hstat.
             apply Z.leb_le. tests. exact Hsize. }
           destruct (Z.of_nat (length (files ++ [p])) >=? maxFiles opts)%Z.
           ++ inversion H; subst. auto.
           ++ destruct (IH _ _ H f Hf) as [?|[? ?]]; auto.
      * destruct (IH _ _ H f Hf) as [?|[? ?]]; auto.
Qed.

Lemma scanFound_budget (foundFiles : list jsstring) :
  forall files out,
    scanFound W folderPath opts foundFiles files = Returned out ->
    (Z.of_nat (length files) < budget opts)%Z ->
    (Z.of_nat (length out) <= budget opts)%Z.
Proof.
  unfold budget.
  induction foundFiles as [|p rest IH]; simpl; intros files out H Hlen.
  - inversion H; subst; lia.
  - destruct (shouldExclude W folderPath p (excludePatterns opts))
      as [[|]|e]; [eauto| |discriminate].
    destruct (stat W p) as [size|]; [|eauto].
    destruct (size >? maxFileSize opts)%Z; [eauto|].
    destruct (Z.of_nat (length (files ++ [p])) >=? maxFiles opts)%Z eqn:Hfull.
    + inversion H; subst. rewrite length_app in *. simpl in *. lia.
    + apply (IH _ _ H). tests. lia.
Qed.

Lemma scanExtensions_qualify (exts : list jsstring) :
  forall files out,
    scanExtensions W folderPath opts exts files = Returned out ->
    forall f, In f out ->
      In f files \/ qualifies W folderPath opts f = true.
Proof.
  induction exts as [|ext rest IH]; simpl; intros files out H f Hf.
  - inversion H; subst; auto.
  - destruct (scanFound W folderPath opts _ files) as [files'|e] eqn:Hscan;
      [|discriminate].
    assert (Hstep : In f files' -> In f files \/ qualifies W folderPath opts f = true).
    { intros Hin. destruct (scanFound_qualify _ _ _ Hscan f Hin) as [?|[_ ?]]; auto. }
    destruct (Z.of_nat (length files') >=? maxFiles opts)%Z.
    + inversion H; subst. auto.
    + destruct (IH _ _ H f Hf); auto.
Qed.

Lemma scanExtensions_budget (exts : list jsstring) :
  forall files out,
    scanExtensions W folderPath opts exts files = Returned out ->
    (Z.of_nat (length files) < budget opts)%Z ->
    (Z.of_nat (length out) <= budget opts)%Z.
Proof.
  induction exts as [|ext rest IH]; simpl; intros files out H Hlen.
  - inversion H; subst; lia.
  - destruct (scanFound W folderPath opts _ files) as [files'|e] eqn:Hscan;
      [|discriminate].
    pose proof (scanFound_budget _ _ _ Hscan Hlen) as Hb.
    destruct (Z.of_nat (length files') >=? maxFiles opts)%Z eqn:Hfull.
    + inversion H; subst. exact Hb.
    + apply (IH _ _ H). tests. unfold budget. lia.
Qed.

(** No exclude pattern matches a file that qualifies. *)
Lemma shouldExclude_false (filePath : jsstring) (globs : list jsstring) :
  shouldExclude W folderPath filePath globs = Returned false ->
  forall glob, In glob globs ->
    matchesPattern W filePath folderPath glob = Returned false.
Proof.
  induction globs as [|g globs IH]; simpl; intros H glob Hin; [tauto|].
  destruct (matchesPattern W filePath folderPath g) as [[|]|e] eqn:Hg;
    try discriminate.
  destruct Hin as [<-|Hin]; auto.
Qed.

End FolderScan.

(** What [getFilesToIndex] returns: at most [maxFiles] files when
    [maxFiles] is at least one, each of a known size of at most
    [maxFileSize] and matched by no exclude pattern. *)
Lemma getFilesToIndex_filters (W : FolderIndexer.Workspace)
  (folderPath : jsstring) (options : FolderIndexer.PartialOptions)
  (files : list jsstring) :
  FolderIndexer.getFilesToIndex W folderPath options = Returned files ->
  let opts := FolderIndexer.effectiveOptions W options in
  (Z.of_nat (length files) <= Z.max 1 (FolderIndexer.maxFiles opts))%Z
  /\ forall f, In f files ->
       (exists size, FolderIndexer.stat W f = Some size
                     /\ (size <= FolderIndexer.maxFileSize opts)%Z)
       /\ forall glob, In glob (FolderIndexer.excludePatterns opts) ->
            FolderIndexer.matchesPattern W f folderPath glob = Returned false.
Proof.
  unfold FolderIndexer.getFilesToIndex. intros H. cbv zeta in *.
  set (opts := FolderIndexer.effectiveOptions W options) in *. split.
  - apply (scanExtensions_budget _ _ _ _ _ _ H). simpl. unfold FolderIndexer.budget. lia.
  - intros f Hf.
    destruct (scanExtensions_qualify _ _ _ _ _ _ H f Hf) as [[]|Hq].
    unfold FolderIndexer.qualifies in Hq. fold opts in Hq.
    destruct (FolderIndexer.shouldExclude W folderPath f _) as [[|]|e] eqn:Hex;
      try discriminate.
    destruct (FolderIndexer.stat W f) as [size|]; [|discriminate].
    split.
    + exists size. split; [reflexivity | apply Z.leb_le, Hq].
    + apply shouldExclude_false, Hex.
Qed.

(** The branch [files.length > opts.maxFiles] of
    [validateIndexingOperation] is never taken when the caller gives a
    [maxFiles] of at least one. *)
Lemma validate_never_too_many (W : FolderIndexer.Workspace)
  (folderPath : jsstring) (options : FolderIndexer.PartialOptions)
  (m : Z) (v : FolderIndexer.Validation) :
  FolderIndexer.maxFiles' options = Some m -> (1 <= m)%Z ->
  FolderIndexer.validateIndexingOperation W folderPath options = Returned v ->
  (Z.of_nat (FolderIndexer.fileCount v) <= m)%Z
  /\ forall count maximum,
       FolderIndexer.message v <> FolderIndexer.TooManyFiles count maximum.
Proof.
  intros Hm Hone. unfold FolderIndexer.validateIndexingOperation.
  destruct (FolderIndexer.getFilesToIndex W folderPath options)
    as [files|e] eqn:Hfiles; [|discriminate].
  apply getFilesToIndex_filters in Hfiles as [Hlen _].
  assert (Hmax : FolderIndexer.maxFiles (FolderIndexer.effectiveOptions W options) = m)
    by (unfold FolderIndexer.effectiveOptions; simpl; rewrite Hm; reflexivity).
  assert (Hmax' : FolderIndexer.maxFiles
                    (FolderIndexer.spread FolderIndexer.DEFAULT_OPTIONS options) = m)
    by (simpl; rewrite Hm; reflexivity).
  rewrite Hmax in Hlen. rewrite Hmax'.
  destruct (length files =? 0)%nat.
  - intros H; injection H as <-; simpl. split; [lia | discriminate].
  - destruct (Z.of_nat (length files) >? m)%Z eqn:Hgt.
    + tests. lia.
    + intros H; injection H as <-; simpl. split; [lia | discriminate].
Qed.

(* ------------------------------------------------------------------ *)
(** * The scan returns a prefix of the qualifying files *)

Section ScanPrefix.

Import FolderIndexer.

Variable W : Workspace.
Variable folderPath : jsstring.
Variable opts : IndexingOptions.

(** The files pushed by one pass over [foundFiles] are the first of those
    that qualify, and some are left out only once the budget is reached. *)
Lemma scanFound_prefix (foundFiles : list jsstring) :
  forall files out,
    scanFound W folderPath opts foundFiles files = Returned out ->
    exists k,
      out = files ++ firstn k (filter (qualifies W folderPath opts) foundFiles)
      /\ (k < length (filter (qualifies W folderPath opts) foundFiles) ->
          (Z.of_nat (length out) >= maxFiles opts)%Z).
Proof.
  induction foundFiles as [|p rest IH]; simpl; intros files out H.
  - inversion H; subst. exists 0. simpl. rewrite app_nil_r. split; [auto | lia].
  - destruct (shouldExclude W folderPath p (excludePatterns opts))
      as [[|]|e] eqn:Hex; [| |discriminate].
    { assert (Hq : qualifies W folderPath opts p = false)
        by (unfold qualifies; rewrite Hex; reflexivity).
      rewrite Hq. apply IH, H. }
    destruct (stat W p) as [size|] eqn:Hstat.
    2:{ assert (Hq : qualifies W folderPath opts p = false)
          by (unfold qualifies; rewrite Hex, Hstat; reflexivity).
        rewrite Hq. apply IH, H. }
    destruct (size >? maxFileSize opts)%Z eqn:Hsize.
    { assert (Hq : qualifies W folderPath opts p = false).
      { unfold qualifies. rewrite Hex, Hstat. apply Z.leb_gt.
        tests. exact Hsize. }
      rewrite Hq. apply IH, H. }
    assert (Hq : qualifies W folderPath opts p = true).
    { unfold qualifies. rewrite Hex, Hstat. apply Z.leb_le.
      tests. exact Hsize. }
    rewrite Hq.
    destruct (Z.of_nat (length (files ++ [p])) >=? maxFiles opts)%Z eqn:Hfull.
    + inversion H; subst. exists 1. simpl. split; [reflexivity|].
      intros _. tests. lia.
    + destruct (IH _ _ H) as [k [Hout Hk]]. exists (S k). simpl. split.
      * rewrite Hout, <- app_assoc. reflexivity.
      * intros Hlt. apply Hk. lia.
Qed.

Lemma scanExtensions_prefix (exts : list jsstring) :
  forall files out,
    scanExtensions W folderPath opts exts files = Returned out ->
    let qualifying :=
      flat_map
        (fun ext => filter (qualifies W folderPath opts)
                      (findFiles W folderPath (lit "**/*" ++ ext))) exts in
    exists k,
      out = files ++ firstn k qualifying
      /\ (k < length qualifying -> (Z.of_nat (length out) >= maxFiles opts)%Z).
Proof.
  induction exts as [|ext rest IH]; cbn [scanExtensions flat_map];
    intros files out H.
  - inversion H; subst. exists 0. simpl. rewrite app_nil_r. split; [auto | lia].
  - destruct (scanFound W folderPath opts _ files) as [files1|e] eqn:Hscan;
      [|discriminate].
    apply scanFound_prefix in Hscan as [k1 [Hfiles1 Hk1]].
    set (Q1 := filter (qualifies W folderPath opts)
                 (findFiles W folderPath (lit "**/*" ++ ext))) in *.
    destruct (Z.of_nat (length files1) >=? maxFiles opts)%Z eqn:Hfull.
    + inversion H; subst out. tests.
      exists (Nat.min k1 (length Q1)). split; [|lia].
      rewrite firstn_app.
      replace (Nat.min k1 (length Q1) - length Q1) with 0 by lia.
      simpl. rewrite app_nil_r, Hfiles1. f_equal.
      destruct (Nat.le_gt_cases k1 (length Q1)).
      * rewrite Nat.min_l by assumption. reflexivity.
      * rewrite Nat.min_r, !firstn_all2 by lia. reflexivity.
    + tests.
      assert (Hall : length Q1 <= k1)
        by (destruct (Nat.le_gt_cases (length Q1) k1); [assumption | lia]).
      rewrite firstn_all2 in Hfiles1 by exact Hall.
      destruct (IH _ _ H) as [k [Hout Hk]].
      exists (length Q1 + k). rewrite firstn_app, firstn_all2 by lia.
      replace (length Q1 + k - length Q1) with k by lia.
      split.
      * rewrite Hout, Hfiles1, <- app_assoc. reflexivity.
      * rewrite length_app. intros Hlt. apply Hk. lia.
Qed.

End ScanPrefix.

(** [getFilesToIndex] returns the first files that qualify, and leaves some
    out only once [maxFiles] is reached. *)
Lemma getFilesToIndex_prefix (W : FolderIndexer.Workspace)
  (folderPath : jsstring) (options : FolderIndexer.PartialOptions)
  (files : list jsstring) :
  FolderIndexer.getFilesToIndex W folderPath options = Returned files ->
  exists k,
    files = firstn k (FolderIndexer.qualifyingFiles W folderPath options)
    /\ (k < length (FolderIndexer.qualifyingFiles W folderPath options) ->
        (Z.of_nat (length files)
         >= FolderIndexer.maxFiles (FolderIndexer.effectiveOptions W options))%Z).
Proof.
  unfold FolderIndexer.getFilesToIndex, FolderIndexer.qualifyingFiles.
  intros H. apply scanExtensions_prefix in H. exact H.
Qed.

(** When more files qualify than a caller-given [maxFiles] of at least one,
    a validation that returns answers [valid = true] and counts [maxFiles]
    files. *)
Lemma validate_over_budget (W : FolderIndexer.Workspace)
  (folderPath : jsstring) (options : FolderIndexer.PartialOptions)
  (m : Z) (v : FolderIndexer.Validation) :
  FolderIndexer.maxFiles' options = Some m -> (1 <= m)%Z ->
  (Z.of_nat (length (FolderIndexer.qualifyingFiles W folderPath options)) > m)%Z ->
  FolderIndexer.validateIndexingOperation W folderPath options = Returned v ->
  FolderIndexer.valid v = true /\ Z.of_nat (FolderIndexer.fileCount v) = m.
Proof.
  intros Hm Hone Hmany. unfold FolderIndexer.validateIndexingOperation.
  destruct (FolderIndexer.getFilesToIndex W folderPath options)
    as [files|e] eqn:Hfiles; [|discriminate].
  pose proof (getFilesToIndex_filters _ _ _ _ Hfiles) as [Hlen _].
  apply getFilesToIndex_prefix in Hfiles as [k [Hpre Hk]].
  assert (Hmax : FolderIndexer.maxFiles (FolderIndexer.effectiveOptions W options) = m)
    by (unfold FolderIndexer.effectiveOptions; simpl; rewrite Hm; reflexivity).
  assert (Hmax' : FolderIndexer.maxFiles
                    (FolderIndexer.spread FolderIndexer.DEFAULT_OPTIONS options) = m)
    by (simpl; rewrite Hm; reflexivity).
  rewrite Hmax in *. rewrite Hmax'.
  assert (Hexact : Z.of_nat (length files) = m).
  { destruct (Nat.le_gt_cases
                (length (FolderIndexer.qualifyingFiles W folderPath options)) k)
      as [Hall|Hcut].
    - rewrite firstn_all2 in Hpre by exact Hall. subst files. lia.
    - specialize (Hk Hcut). lia. }
  destruct (length files =? 0)%nat eqn:Hzero.
  - apply Nat.eqb_eq in Hzero. lia.
  - destruct (Z.of_nat (length files) >? m)%Z eqn:Hgt.
    + tests. lia.
    + intros H; injection H as <-; simpl. auto.
Qed.

(* ------------------------------------------------------------------ *)
(** * The sentinel row in listings *)

(** C6. On a new table, [getFileChunks("init")] and
    [getFileChunksWithVectors("init")] return the sentinel row (filepath
    [init], id [0]): the listing is the rows whose filepath equals the
    argument, the sentinel being one of them. *)
Theorem getFileChunks_init_lists_sentinel :
  fst (MemoryService.getFileChunks Examples.engines (lit "init") Examples.fresh)
    = Returned [MemoryService.toFileChunk MemoryService.sentinel]
  /\ fst (MemoryService.getFileChunksWithVectors Examples.engines (lit "init")
            Examples.fresh)
     = Returned [MemoryService.sentinel].
Proof. split; vm_compute; reflexivity. Qed.

(** C7. On a new table, [search("foo", 3)] returns the sentinel row; and on
    a table with four user rows, a search for five rows has the sentinel
    among its results. *)
Theorem search_returns_sentinel :
  fst (MemoryService.search Examples.engines (lit "foo") 3 Examples.fresh)
    = Returned [MemoryService.sentinel]
  /\ exists results,
       fst (MemoryService.search Examples.engines (lit "foo") 5 Examples.indexed)
         = Returned results
       /\ In MemoryService.sentinel results.
Proof.
  split; [vm_compute; reflexivity|].
  eexists. split; [vm_compute; reflexivity|].
  do 4 right. left. reflexivity.
Qed.

(* ------------------------------------------------------------------ *)
(** * The file budget *)

(** C2. With [maxFiles = 0], [getFilesToIndex] returns one file, which is
    more than [maxFiles] entries: the test [files.length >= maxFiles] comes
    after the push. *)
Theorem getFilesToIndex_exceeds_zero_budget :
  FolderIndexer.getFilesToIndex Examples.workspace (lit "/w") (Examples.atMost 0)
    = Returned [lit "/w/src/a.ts"]
  /\ FolderIndexer.maxFiles
       (FolderIndexer.effectiveOptions Examples.workspace (Examples.atMost 0))
     = 0%Z.
Proof. split; vm_compute; reflexivity. Qed.

(** C5. With [maxFiles = 1] on a folder where three files qualify,
    [validateIndexingOperation] answers [valid = true], the ready message
    and [fileCount = 1]: it counts the list [getFilesToIndex] has already cut
    at [maxFiles], not the files that qualify. *)
Theorem validate_accepts_truncated_list :
  length (FolderIndexer.qualifyingFiles Examples.workspace (lit "/w")
            (Examples.atMost 1)) = 3
  /\ exists estimatedMB,
       FolderIndexer.validateIndexingOperation Examples.workspace (lit "/w")
         (Examples.atMost 1)
       = Returned {| FolderIndexer.valid := true;
                     FolderIndexer.message :=
                       FolderIndexer.ReadyToIndex 1 estimatedMB;
                     FolderIndexer.fileCount := 1 |}.
Proof.
  split; [vm_compute; reflexivity|].
  eexists. vm_compute. reflexivity.
Qed.

(* ------------------------------------------------------------------ *)
(** * Instances *)

Lemma distinct_NoDup (l : list jsstring) : distinct l = true -> NoDup l.
Proof.
  induction l as [|x l IH]; simpl; intros H; constructor;
    apply andb_true_iff in H as [Hx Hl]; auto.
  intros Hin. apply includes_In in Hin. rewrite Hin in Hx. discriminate.
Qed.

Lemma addDocument_embedding_rejected_witness :
  blank Examples.twoFunctions = false
  /\ (exists i chunk,
         nth_error
           (MemoryService.toEmbed
              (fst (MemoryService.chunksOf Examples.enginesRejectingSecond
                      Examples.twoFunctions (Some (lit "typescript"))
                      (MemoryService.chunkingService Examples.fresh)))) i
         = Some chunk
         /\ MemoryService.getEmbedding Examples.enginesRejectingSecond
              (MemoryService.embedCalls Examples.fresh + i) chunk = None)
  /\ (fst (MemoryService.addDocument Examples.enginesRejectingSecond
             Examples.twoFunctions (lit "/w/x.ts") (Some (lit "typescript"))
             Examples.fresh)
      = Thrown EmbeddingError
      /\ MemoryService.table
           (snd (MemoryService.addDocument Examples.enginesRejectingSecond
                   Examples.twoFunctions (lit "/w/x.ts")
                   (Some (lit "typescript")) Examples.fresh))
         = MemoryService.table Examples.fresh
      /\ MemoryService.storeCalls
           (snd (MemoryService.addDocument Examples.enginesRejectingSecond
                   Examples.twoFunctions (lit "/w/x.ts")
                   (Some (lit "typescript")) Examples.fresh))
         = MemoryService.storeCalls Examples.fresh).
Proof.
  assert (H1 : blank Examples.twoFunctions = false) by reflexivity.
  split; [exact H1|]. split.
  - exists 1, (lit "function b(){}"). split; reflexivity.
  - apply (addDocument_embedding_rejected Examples.enginesRejectingSecond
             Examples.twoFunctions (lit "/w/x.ts") (Some (lit "typescript"))
             Examples.fresh H1).
    exists 1, (lit "function b(){}"). split; reflexivity.
Defined.

Lemma addDocument_blank_text_witness :
  blank (lit "  " ++ [LF]) = true
  /\ MemoryService.addDocument Examples.engines (lit "  " ++ [LF])
       (lit "/w/x.ts") (Some (lit "typescript")) Examples.indexed
     = (Returned 0, Examples.indexed).
Proof.
  split; [reflexivity|].
  apply (addDocument_blank_text Examples.engines (lit "  " ++ [LF])
           (lit "/w/x.ts") (Some (lit "typescript")) Examples.indexed).
  reflexivity.
Defined.

Lemma visitNode_block_is_one_chunk_witness :
  ChunkingService.isBlock
    (ChunkingService.mkNode (lit "function_declaration")
       (lit "function foo(){ return 1; }") []) = true
  /\ (Z.of_nat (length (lit "function foo(){ return 1; }")) <= 500)%Z
  /\ ChunkingService._visitNode
       (ChunkingService.mkNode (lit "function_declaration")
          (lit "function foo(){ return 1; }") []) [] 500
     = [lit "function foo(){ return 1; }"].
Proof.
  split; [reflexivity|]. split; [vm_compute; discriminate|].
  apply (visitNode_block_is_one_chunk 500
           (ChunkingService.mkNode (lit "function_declaration")
              (lit "function foo(){ return 1; }") []) []).
  - reflexivity.
  - vm_compute; discriminate.
Defined.

Lemma clearAllIndexes_keeps_init_filepath_witness :
  NoDup (map MemoryService.id (MemoryService.rows Examples.indexed))
  /\ (forall st',
         MemoryService.clearAllIndexes Examples.engines Examples.indexed
           = (Returned tt, st') ->
         MemoryService.rows st'
           = filter (fun r => JS.eqb (MemoryService.filepath r) (lit "init"))
               (MemoryService.rows Examples.indexed))
  /\ exists st',
       MemoryService.clearAllIndexes Examples.engines Examples.indexed
         = (Returned tt, st').
Proof.
  assert (Hnd : NoDup (map MemoryService.id (MemoryService.rows Examples.indexed)))
    by (apply distinct_NoDup; reflexivity).
  split; [exact Hnd|].
  destruct (clearAllIndexes_keeps_init_filepath Examples.engines
              Examples.indexed Hnd) as [Hrows Hreturns].
  split; [exact Hrows|].
  apply Hreturns. intros k. reflexivity.
Defined.

Lemma deleteFolderIndex_exact_directory_witness :
  NoDup (map MemoryService.id (MemoryService.rows Examples.indexed))
  /\ (forall n st',
         MemoryService.deleteFolderIndex Examples.engines (lit "/w/src")
           Examples.indexed = (Returned n, st') ->
         MemoryService.rows st'
           = filter
               (fun r => negb (JS.eqb (Host.posixDirname
                                         (MemoryService.filepath r))
                                 (lit "/w/src")))
               (MemoryService.rows Examples.indexed)
         /\ n = 2
         /\ In (Examples.row "b1" "/w/src/sub/b.ts") (MemoryService.rows st'))
  /\ exists n st',
       MemoryService.deleteFolderIndex Examples.engines (lit "/w/src")
         Examples.indexed = (Returned n, st').
Proof.
  assert (Hnd : NoDup (map MemoryService.id (MemoryService.rows Examples.indexed)))
    by (apply distinct_NoDup; reflexivity).
  split; [exact Hnd|].
  destruct (deleteFolderIndex_exact_directory Examples.engines (lit "/w/src")
              Examples.indexed Hnd) as [Hrows Hreturns].
  split.
  - intros n st' H. destruct (Hrows n st' H) as [Hleft [Hn Hsub]].
    split; [exact Hleft|]. split; [exact Hn|].
    apply (Hsub (fun p => eq_refl) (Examples.row "b1" "/w/src/sub/b.ts")
             (lit "sub") (lit "b.ts")).
    + do 3 right. left. reflexivity.
    + reflexivity.
    + discriminate.
    + simpl. intuition discriminate.
  - apply Hreturns. intros k. reflexivity.
Defined.

(* ------------------------------------------------------------------ *)
(** * More on the line based chunker *)

Section LineChunkSizes.

Variable maxSize : Z.
Variable allLines : list jsstring.

Import ChunkingInvariants.

Lemma lineStep_bounded (lines : list jsstring) :
  Forall (fun line => In line allLines) lines ->
  forall chunks currentChunk chunks' currentChunk',
    fold_left (ChunkingService.lineStep maxSize) lines (chunks, currentChunk)
      = (chunks', currentChunk') ->
    Forall (boundedChunk maxSize allLines) chunks ->
    currentChunk = [] \/ boundedChunk maxSize allLines currentChunk ->
    Forall (boundedChunk maxSize allLines) chunks'
    /\ (currentChunk' = [] \/ boundedChunk maxSize allLines currentChunk').
Proof.
  induction 1 as [|line lines Hline _ IH]; simpl;
    intros chunks cur chunks' cur' H Hchunks Hcur.
  - inversion H; subst; auto.
  - assert (Hfresh : boundedChunk maxSize allLines (line ++ [LF])).
    { split; [destruct line; discriminate|]. left. exists line. auto. }
    destruct ((Z.of_nat (length cur) + Z.of_nat (length line) >? maxSize)%Z)
      eqn:Hover; simpl in H.
    + destruct (0 <? length cur)%nat eqn:Hpos; simpl in H.
      * apply (IH _ _ _ _ H); [|right; exact Hfresh].
        apply Forall_app. split; [exact Hchunks|]. constructor; [|constructor].
        destruct Hcur as [->|Hcur]; [discriminate | exact Hcur].
      * apply (IH _ _ _ _ H Hchunks). right.
        destruct cur; [exact Hfresh | discriminate].
    + apply (IH _ _ _ _ H Hchunks). right.
      split; [destruct cur; [destruct line|]; discriminate|].
      right. rewrite !length_app. simpl.
      rewrite Z.gtb_ltb in Hover. apply Z.ltb_ge in Hover. lia.
Qed.

End LineChunkSizes.

Lemma split_not_nil (sep : codeUnit) (s : jsstring) : split sep s <> [].
Proof.
  destruct s as [|c s]; simpl; [discriminate|].
  destruct (N.eqb c sep); [discriminate|].
  destruct (split sep s); discriminate.
Qed.

(** X1. The line based chunker always returns at least one chunk.  Each
    chunk is a line of the text with its line break, or is not empty and at
    most [maxSize + 1] code units long; the only other case is a blank
    text, returned as it is. *)
Theorem simpleChunk_chunk_sizes (text : jsstring) (maxSize : Z) :
  ChunkingService._simpleChunk text maxSize <> []
  /\ forall c, In c (ChunkingService._simpleChunk text maxSize) ->
       (blank text = true /\ c = text)
       \/ (exists line, In line (split LF text) /\ c = line ++ [LF])
       \/ (c <> [] /\ (Z.of_nat (length c) <= maxSize + 1)%Z).
Proof.
  unfold ChunkingService._simpleChunk.
  destruct (fold_left _ _ _) as [chunks cur] eqn:Hfold.
  pose proof (lineStep_accumulates maxSize _ _ _ _ _ Hfold) as Hacc.
  simpl in Hacc. rewrite split_terminated in Hacc.
  assert (Hall : Forall (fun line => In line (split LF text)) (split LF text))
    by (apply Forall_forall; auto).
  destruct (lineStep_bounded maxSize (split LF text) _ Hall _ _ _ _ Hfold)
    as [Hchunks Hcur]; [constructor | left; reflexivity |].
  rewrite trim_length_pos.
  assert (Hbounded : forall c, ChunkingInvariants.boundedChunk maxSize (split LF text) c ->
            (exists line, In line (split LF text) /\ c = line ++ [LF])
            \/ (c <> [] /\ (Z.of_nat (length c) <= maxSize + 1)%Z)).
  { intros c [Hne [Hl|Hs]]; auto. }
  destruct (blank cur) eqn:Hblank; simpl.
  - destruct chunks as [|c0 chunks]; simpl.
    + split; [discriminate|]. intros c [<-|[]]. left. split; [|reflexivity].
      simpl in Hacc. subst cur. rewrite blank_app in Hblank.
      apply andb_true_iff in Hblank. tauto.
    + split; [discriminate|]. intros c Hc. right. apply Hbounded.
      rewrite Forall_forall in Hchunks. apply Hchunks, Hc.
  - assert (Hlen : (0 <? length (chunks ++ [cur]))%nat = true)
      by (rewrite length_app; simpl; apply Nat.ltb_lt; lia).
    rewrite Hlen. split; [destruct chunks; discriminate|].
    intros c Hc. right. apply Hbounded.
    apply in_app_or in Hc as [Hc|[<-|[]]].
    + rewrite Forall_forall in Hchunks. apply Hchunks, Hc.
    + destruct Hcur as [->|Hcur]; [discriminate | exact Hcur].
Qed.

(* ------------------------------------------------------------------ *)
(** * More on the structural chunker *)

(** Induction on a syntax tree, with the property known of all children. *)
Lemma node_induction (P : ChunkingService.Node -> Prop) :
  (forall ty tx kids, Forall P kids -> P (ChunkingService.mkNode ty tx kids)) ->
  forall n, P n.
Proof.
  intros Hnode. fix IH 1. intros [ty tx kids]. apply Hnode.
  induction kids as [|k kids IHkids]; constructor; [apply IH | exact IHkids].
Qed.

Section VisitNode.

Import ChunkingService.

Variable maxSize : Z.

(** [_visitNode] on any node: emitted whole, or the loop over its children,
    or nothing. *)
Lemma visitNode_cases (ty tx : jsstring) (kids : list Node)
  (chunks : list jsstring) :
  _visitNode (mkNode ty tx kids) chunks maxSize
    = if includes blockTypes ty && (Z.of_nat (length tx) <=? maxSize)%Z
      then chunks ++ [tx]
      else match kids with
           | _ :: _ => visitChildren kids chunks maxSize
           | [] => if (0 <? length (trim tx))%nat then chunks ++ [tx] else chunks
           end.
Proof.
  destruct (includes blockTypes ty && (Z.of_nat (length tx) <=? maxSize)%Z)
    eqn:Hb.
  - cbn [_visitNode]. rewrite Hb. reflexivity.
  - destruct kids as [|k kids].
    + cbn [_visitNode]. rewrite Hb. reflexivity.
    + apply visitNode_descends, Hb.
Qed.

Lemma visitNode_appends_all (n : Node) :
  forall chunks, _visitNode n chunks maxSize = chunks ++ _visitNode n [] maxSize.
Proof.
  induction n as [ty tx kids IH] using node_induction. intros chunks.
  rewrite !visitNode_cases.
  destruct (includes blockTypes ty && _); [reflexivity|].
  destruct kids as [|k kids].
  - destruct (0 <? length (trim tx))%nat; [reflexivity|].
    rewrite app_nil_r; reflexivity.
  - unfold visitChildren. generalize (k :: kids) as l, chunks as acc, IH.
    clear. intros l acc IH. revert acc.
    assert (Hgen : forall acc base,
               fold_left (fun a child => _visitNode child a maxSize) l (base ++ acc)
               = base ++ fold_left (fun a child => _visitNode child a maxSize) l acc).
    { induction IH as [|c l Hc _ IHl]; intros acc base; simpl; [reflexivity|].
      rewrite (Hc (base ++ acc)), (Hc acc), <- IHl, app_assoc. reflexivity. }
    intros acc. rewrite <- (Hgen [] acc), app_nil_r. reflexivity.
Qed.

Lemma visitChildren_cons (k : Node) (kids : list Node) (chunks : list jsstring) :
  visitChildren (k :: kids) chunks maxSize
    = visitChildren kids (chunks ++ _visitNode k [] maxSize) maxSize.
Proof. unfold visitChildren. simpl. rewrite visitNode_appends_all. reflexivity. Qed.

Lemma visitNode_emits_nodes (n : Node) :
  forall c, In c (_visitNode n [] maxSize) ->
    exists d, SyntaxTree.within d n
              /\ SyntaxTree.emittedWhole maxSize d /\ text d = c.
Proof.
  induction n as [ty tx kids IH] using node_induction. intros c.
  rewrite visitNode_cases.
  destruct (includes blockTypes ty && (Z.of_nat (length tx) <=? maxSize)%Z)
    eqn:Hb.
  - intros [<-|[]]. exists (mkNode ty tx kids).
    split; [constructor|]. split; [|reflexivity]. left.
    apply andb_true_iff in Hb as [Hty Hlen]. split; [exact Hty|].
    apply Z.leb_le, Hlen.
  - destruct kids as [|k kids].
    + rewrite trim_length_pos. destruct (blank tx) eqn:Hblank; simpl; [tauto|].
      intros [<-|[]]. exists (mkNode ty tx []).
      split; [constructor|]. split; [|reflexivity]. right. auto.
    + assert (Hkids : forall l acc,
                 Forall (fun k => forall c, In c (_visitNode k [] maxSize) ->
                           exists d, SyntaxTree.within d k
                             /\ SyntaxTree.emittedWhole maxSize d /\ text d = c) l ->
                 In c (visitChildren l acc maxSize) ->
                 In c acc \/ exists k d, In k l /\ SyntaxTree.within d k
                             /\ SyntaxTree.emittedWhole maxSize d /\ text d = c).
      { clear. intros l acc Hl. revert acc.
        induction Hl as [|k l Hk _ IHl]; intros acc Hc; [left; exact Hc|].
        rewrite visitChildren_cons in Hc.
        destruct (IHl _ Hc) as [Hin|[k' [d [Hk' Hd]]]].
        - apply in_app_or in Hin as [Hin|Hin]; [left; exact Hin|].
          right. destruct (Hk c Hin) as [d Hd]. exists k, d. simpl. tauto.
        - right. exists k', d. simpl. tauto. }
      intros Hc. destruct (Hkids _ _ IH Hc) as [[]|[k' [d [Hk' [Hd Hrest]]]]].
      exists d. split; [|exact Hrest].
      apply (SyntaxTree.within_child d ty tx (k :: kids) k' Hk' Hd).
Qed.

End VisitNode.

(** X2. The structural chunker only appends: the chunks collected before a
    visit stay where they are, and what a visit adds does not depend on
    them. *)
Theorem visitNode_only_appends (node : ChunkingService.Node)
  (chunks : list jsstring) (maxSize : Z) :
  ChunkingService._visitNode node chunks maxSize
    = chunks ++ ChunkingService._visitNode node [] maxSize.
Proof. apply visitNode_appends_all. Qed.

(** X3. Every chunk the structural chunker emits is the full text of a node
    of the tree, which is either a block whose text is at most [maxSize]
    long or a childless node whose text is not blank. *)
Theorem visitNode_chunks_are_node_texts (node : ChunkingService.Node)
  (maxSize : Z) (c : jsstring) :
  In c (ChunkingService._visitNode node [] maxSize) ->
  exists d, SyntaxTree.within d node
            /\ SyntaxTree.emittedWhole maxSize d
            /\ ChunkingService.text d = c.
Proof. apply visitNode_emits_nodes. Qed.

(* ------------------------------------------------------------------ *)
(** * The grammar cache *)

Section GrammarCache.

Import ChunkingService ChunkingInvariants.

Variable P : Parser.

Lemma lookup_same {V : Type} (k : jsstring) (v : V) (m : list (jsstring * V)) :
  lookup k ((k, v) :: m) = Some v.
Proof. simpl. rewrite eqb_refl. reflexivity. Qed.

(** What a call of [loadLanguage] leaves: nothing new on a failure; on a
    success the language is cached and active. *)
Lemma loadLanguage_outcome (languageId : jsstring) (s : State) :
  (fst (loadLanguage P languageId s) = false
   /\ snd (loadLanguage P languageId s) = s)
  \/ (exists g,
        loadLanguage P languageId s
          = (true, setLanguage languageId g
                     (loadedLanguages (snd (loadLanguage P languageId s))) s)
        /\ lookup languageId (loadedLanguages (snd (loadLanguage P languageId s)))
           = Some g
        /\ context s = true /\ parser s = true
        /\ (lookup languageId (loadedLanguages s) = Some g
            /\ loadedLanguages (snd (loadLanguage P languageId s))
               = loadedLanguages s
            \/ lookup languageId (loadedLanguages s) = None
               /\ lookup languageId LANGUAGE_CONFIG = Some g
               /\ loadedLanguages (snd (loadLanguage P languageId s))
                  = (languageId, g) :: loadedLanguages s)).
Proof.
  unfold loadLanguage.
  destruct (context s) eqn:Hc; [|left; auto].
  destruct (parser s) eqn:Hp; [|left; auto]. cbn [negb orb].
  destruct (lookup languageId (loadedLanguages s)) as [g|] eqn:Hcache.
  - right. exists g. simpl. auto 10.
  - destruct (lookup languageId LANGUAGE_CONFIG) as [wasmFile|] eqn:Hconf;
      [|left; auto].
    destruct (languageLoad P wasmFile); [|left; auto].
    right. exists wasmFile. cbn [snd fst setLanguage loadedLanguages].
    rewrite lookup_same. auto 10.
Qed.

Lemma loadLanguage_hit (languageId : jsstring) (g : Grammar)
  (cache : list (jsstring * Grammar)) (s : State) :
  lookup languageId cache = Some g ->
  context s = true -> parser s = true ->
  loadLanguage P languageId (setLanguage languageId g cache s)
    = (true, setLanguage languageId g cache s).
Proof.
  intros Hcached Hc Hp. unfold loadLanguage.
  cbn [context parser setLanguage loadedLanguages].
  rewrite Hc, Hp, Hcached. reflexivity.
Qed.

Lemma loadLanguage_again (languageId : jsstring) (s s' : State) :
  loadLanguage P languageId s = (true, s') ->
  loadLanguage P languageId s' = (true, s').
Proof.
  intros H. destruct (loadLanguage_outcome languageId s)
    as [[Hf _]|[g [Hrun [Hcached [Hc [Hp _]]]]]].
  - rewrite H in Hf. discriminate.
  - rewrite H in Hrun, Hcached. cbn [snd] in Hrun, Hcached.
    injection Hrun as Hs'.
    pose proof (loadLanguage_hit languageId g (loadedLanguages s') s
                  Hcached Hc Hp) as Hhit.
    rewrite <- Hs' in Hhit. exact Hhit.
Qed.

Lemma loadLanguage_wellCached (languageId : jsstring) (s : State) :
  wellCached s -> wellCached (snd (loadLanguage P languageId s)).
Proof.
  intros Hs. unfold wellCached in *.
  destruct (loadLanguage_outcome languageId s)
    as [[_ Hsame]|[g [_ [_ [_ [_ [[_ Hsame]|[_ [Hconf Hnew]]]]]]]]].
  - rewrite Hsame. exact Hs.
  - rewrite Hsame. exact Hs.
  - rewrite Hnew. intros l g'. simpl.
    destruct (JS.eqb l languageId) eqn:Heq; [|apply Hs].
    apply eqb_eq in Heq. subst l. intros H; inversion H; subst. exact Hconf.
Qed.

End GrammarCache.

Section Chunk.

Import ChunkingService ChunkingInvariants.

Variable P : Parser.

(** The two ways [chunk] answers: the line chunks, with the state a failed
    or successful load leaves, or the chunks of the tree parsed under the
    grammar a successful load made active. *)
Lemma chunk_outcome (code : jsstring) (languageId : option jsstring)
  (maxChunkSize : Z) (s : State) :
  (fst (chunk P code languageId maxChunkSize s) = _simpleChunk code maxChunkSize
   /\ (snd (chunk P code languageId maxChunkSize s) = s
       \/ exists lang,
            loadLanguage P lang s
              = (true, snd (chunk P code languageId maxChunkSize s))
            /\ languageId = Some lang
            /\ forall g root,
                 activeGrammar (snd (chunk P code languageId maxChunkSize s))
                   = Some g ->
                 parse P g code = Some root ->
                 _visitNode root [] maxChunkSize = []))
  \/ (exists lang g root,
        languageId = Some lang
        /\ loadLanguage P lang s
           = (true, snd (chunk P code languageId maxChunkSize s))
        /\ activeGrammar (snd (chunk P code languageId maxChunkSize s)) = Some g
        /\ parse P g code = Some root
        /\ fst (chunk P code languageId maxChunkSize s)
           = _visitNode root [] maxChunkSize
        /\ _visitNode root [] maxChunkSize <> []).
Proof.
  unfold chunk. destruct languageId as [[|c lang]|]; [left; auto | | left; auto].
  destruct (parser s) eqn:Hp; [|left; auto].
  destruct (loadLanguage P (c :: lang) s) as [[|] s'] eqn:Hload.
  - destruct (activeGrammar s') as [g|] eqn:Hg.
    + destruct (parse P g code) as [root|] eqn:Hroot.
      * destruct (_visitNode root [] maxChunkSize) as [|c0 chunks] eqn:Hvisit;
          cbn [length Nat.ltb Nat.leb fst snd].
        -- left. split; [reflexivity|]. right. exists (c :: lang).
           split; [exact Hload|]. split; [reflexivity|].
           intros g' root' Hg' Hroot'. congruence.
        -- right. exists (c :: lang), g, root. rewrite Hvisit.
           repeat split; auto. discriminate.
      * left. split; [reflexivity|]. right. exists (c :: lang).
        cbn [snd]. split; [exact Hload|]. split; [reflexivity|].
        intros g' root' Hg' Hroot'. congruence.
    + left. split; [reflexivity|]. right. exists (c :: lang).
      cbn [snd]. split; [exact Hload|]. split; [reflexivity|].
      intros g' root' Hg' Hroot'. congruence.
  - left. split; [reflexivity|]. left. cbn [snd].
    destruct (loadLanguage_outcome P (c :: lang) s) as [[_ Hs]|[g [Hrun _]]].
    + rewrite Hload in Hs. exact Hs.
    + rewrite Hload in Hrun. discriminate.
Qed.

Lemma simpleChunk_not_nil (text : jsstring) (maxSize : Z) :
  _simpleChunk text maxSize <> [].
Proof.
  unfold _simpleChunk. destruct (fold_left _ _ _) as [chunks cur].
  destruct (0 <? length (trim cur))%nat.
  - assert (Hlen : (0 <? length (chunks ++ [cur]))%nat = true)
      by (rewrite length_app; simpl; apply Nat.ltb_lt; lia).
    rewrite Hlen. destruct chunks; discriminate.
  - destruct chunks; simpl; discriminate.
Qed.

Lemma loadLanguage_parser (languageId : jsstring) (s : State) :
  parser (snd (loadLanguage P languageId s)) = parser s.
Proof.
  destruct (loadLanguage_outcome P languageId s) as [[_ ->]|[g [-> _]]];
    reflexivity.
Qed.

Lemma chunk_state_loaded (code : jsstring) (c : codeUnit) (lang : jsstring)
  (maxChunkSize : Z) (s s' : State) :
  parser s = true ->
  loadLanguage P (c :: lang) s = (true, s') ->
  snd (chunk P code (Some (c :: lang)) maxChunkSize s) = s'.
Proof.
  intros Hp Hload. unfold chunk. rewrite Hp, Hload.
  destruct (activeGrammar s'); [|reflexivity].
  destruct (parse P _ code); [|reflexivity].
  destruct (0 <? _)%nat; reflexivity.
Qed.

Lemma chunk_again (code : jsstring) (languageId : option jsstring)
  (maxChunkSize : Z) (s : State) :
  chunk P code languageId maxChunkSize
    (snd (chunk P code languageId maxChunkSize s))
  = chunk P code languageId maxChunkSize s.
Proof.
  destruct languageId as [[|c lang]|]; try reflexivity.
  destruct (parser s) eqn:Hp.
  2:{ unfold chunk. rewrite Hp. cbn [snd]. rewrite Hp. reflexivity. }
  destruct (loadLanguage P (c :: lang) s) as [[|] s'] eqn:Hload.
  - match goal with |- context [snd ?t] =>
      assert (Hst : snd t = s')
        by (apply chunk_state_loaded; assumption);
      rewrite Hst
    end.
    assert (Hp' : parser s' = true).
    { rewrite <- Hp, <- (loadLanguage_parser (c :: lang) s), Hload.
      reflexivity. }
    unfold chunk.
    rewrite Hp, Hp', Hload, (loadLanguage_again P _ _ _ Hload). reflexivity.
  - destruct (loadLanguage_outcome P (c :: lang) s) as [[_ Hs]|[g [Hrun _]]].
    + rewrite Hload in Hs. cbn [snd] in Hs. subst s'.
      unfold chunk. rewrite Hp, Hload. cbn [snd]. rewrite Hp, Hload.
      reflexivity.
    + rewrite Hload in Hrun. discriminate.
Qed.

End Chunk.

(** X4. From a cache that holds only configured languages, [loadLanguage]
    leaves such a cache; a failed load changes nothing, and a successful
    one makes the configured grammar of the language the active one, after
    which loading the same language again is a cache hit that changes
    nothing. *)
Theorem loadLanguage_caches_configured (P : ChunkingService.Parser)
  (languageId : jsstring) (s : ChunkingService.State) :
  ChunkingInvariants.wellCached s ->
  ChunkingInvariants.wellCached
    (snd (ChunkingService.loadLanguage P languageId s))
  /\ (fst (ChunkingService.loadLanguage P languageId s) = false ->
      snd (ChunkingService.loadLanguage P languageId s) = s)
  /\ (fst (ChunkingService.loadLanguage P languageId s) = true ->
      ChunkingService.activeGrammar
        (snd (ChunkingService.loadLanguage P languageId s))
      = ChunkingService.lookup languageId ChunkingService.LANGUAGE_CONFIG
      /\ ChunkingService.lookup languageId ChunkingService.LANGUAGE_CONFIG
         <> None
      /\ ChunkingService.currentLanguageId
           (snd (ChunkingService.loadLanguage P languageId s))
         = Some languageId
      /\ ChunkingService.loadLanguage P languageId
           (snd (ChunkingService.loadLanguage P languageId s))
         = (true, snd (ChunkingService.loadLanguage P languageId s))).
Proof.
  intros Hs. split; [apply loadLanguage_wellCached, Hs|].
  pose proof (loadLanguage_wellCached P languageId s Hs) as Hs'.
  destruct (loadLanguage_outcome P languageId s)
    as [[Hf Hsame]|[g [Hrun [Hcached _]]]].
  - split; [auto|]. rewrite Hf. discriminate.
  - split; [rewrite Hrun; discriminate|]. intros _.
    pose proof (Hs' _ _ Hcached) as Hconf.
    split; [|split; [congruence|split]].
    + rewrite Hrun at 1. cbn [snd ChunkingService.activeGrammar
                                ChunkingService.setLanguage]. congruence.
    + rewrite Hrun at 1. reflexivity.
    + apply (loadLanguage_again P languageId s).
      destruct (ChunkingService.loadLanguage P languageId s) as [b s1] eqn:Hl.
      injection Hrun as Hb _. subst b. reflexivity.
Qed.

(** X5. From a cache that holds only configured languages, [chunk] always
    answers at least one chunk: the line chunks of the code, or the chunks
    of the tree parsed under the configured grammar of the language it was
    given. *)
Theorem chunk_never_empty (P : ChunkingService.Parser) (code : jsstring)
  (languageId : option jsstring) (maxChunkSize : Z)
  (s : ChunkingService.State) :
  ChunkingInvariants.wellCached s ->
  fst (ChunkingService.chunk P code languageId maxChunkSize s) <> []
  /\ ChunkingInvariants.wellCached
       (snd (ChunkingService.chunk P code languageId maxChunkSize s))
  /\ (fst (ChunkingService.chunk P code languageId maxChunkSize s)
        = ChunkingService._simpleChunk code maxChunkSize
      \/ exists lang g root,
           languageId = Some lang
           /\ ChunkingService.lookup lang ChunkingService.LANGUAGE_CONFIG
              = Some g
           /\ ChunkingService.parse P g code = Some root
           /\ fst (ChunkingService.chunk P code languageId maxChunkSize s)
              = ChunkingService._visitNode root [] maxChunkSize).
Proof.
  intros Hs.
  destruct (chunk_outcome P code languageId maxChunkSize s)
    as [[Hsimple Hstate]|[lang [g [root [Hlang [Hload [Hg [Hroot [Hfst Hne]]]]]]]]].
  - rewrite Hsimple. split; [apply simpleChunk_not_nil|]. split; [|auto].
    destruct Hstate as [->|[lang [Hload _]]]; [exact Hs|].
    pose proof (loadLanguage_wellCached P lang s Hs) as Hs'.
    rewrite Hload in Hs'. exact Hs'.
  - pose proof (loadLanguage_caches_configured_aux := loadLanguage_wellCached P lang s Hs).
    rewrite Hload in loadLanguage_caches_configured_aux.
    cbn [snd] in loadLanguage_caches_configured_aux.
    rewrite Hfst. split; [exact Hne|]. split; [assumption|].
    right. exists lang, g, root. repeat split; auto.
    destruct (loadLanguage_outcome P lang s) as [[Hf _]|[g' [Hrun [Hcached _]]]].
    + rewrite Hload in Hf. discriminate.
    + rewrite Hload in Hrun, Hcached. cbn [snd] in Hcached.
      injection Hrun as Hs1. rewrite Hs1 in Hg.
      cbn [ChunkingService.activeGrammar ChunkingService.setLanguage] in Hg.
      inversion Hg; subst g'.
      apply loadLanguage_caches_configured_aux, Hcached.
Qed.

(** X6. Chunking the same code for the same language a second time gives
    the same chunks and leaves the chunking service as the first call left
    it. *)
Theorem chunk_repeatable (P : ChunkingService.Parser) (code : jsstring)
  (languageId : option jsstring) (maxChunkSize : Z)
  (s : ChunkingService.State) :
  ChunkingService.chunk P code languageId maxChunkSize
    (snd (ChunkingService.chunk P code languageId maxChunkSize s))
  = ChunkingService.chunk P code languageId maxChunkSize s.
Proof. apply chunk_again. Qed.

(* ------------------------------------------------------------------ *)
(** * What addDocument stores *)

Section AddDocumentStores.

Import MemoryService.

Variable E : Engines.

(** The records of a loop that returns: one per chunk sent to the embedding
    service, in order, under fresh ids. *)
Lemma embedChunks_returned (path : jsstring) (chunks : list jsstring) :
  forall records st out st',
    embedChunks E path chunks records st = (Returned out, st') ->
    exists new,
      out = records ++ new
      /\ map text new = toEmbed chunks
      /\ Forall (fun r => filepath r = path) new
      /\ map id new = map (uuidv4 E) (seq (uuidCalls st) (length new))
      /\ table st' = table st
      /\ storeCalls st' = storeCalls st
      /\ chunkingService st' = chunkingService st
      /\ uuidCalls st' = uuidCalls st + length new.
Proof.
  induction chunks as [|chunk rest IH]; intros records st out st' H.
  - inversion H; subst. exists []. rewrite app_nil_r, Nat.add_0_r.
    repeat split; constructor.
  - cbn [embedChunks toEmbed filter] in *.
    destruct (length (trim chunk) =? 0)%nat; cbn [negb].
    + apply IH, H.
    + unfold bind, embed, freshId in H.
      destruct (getEmbedding E (embedCalls st) chunk) as [v|]; [|discriminate].
      apply IH in H as [new [Hout [Htext [Hpath [Hid [Ht [Hs [Hc Hu]]]]]]]].
      cbn [uuidCalls uuidRequested embedRequested table storeCalls
             chunkingService] in *.
      exists ({| vector := v; text := chunk; filepath := path;
                 id := uuidv4 E (uuidCalls st) |} :: new).
      rewrite Hout, <- app_assoc. cbn [map length seq app text id].
      fold (toEmbed rest). rewrite Htext, Hid, Hu.
      repeat split; auto; lia.
Qed.

(** The loop returns when no embedding is rejected. *)
Lemma embedChunks_returns (path : jsstring) (chunks : list jsstring) :
  (forall k chunk, getEmbedding E k chunk <> None) ->
  forall records st,
    exists out st', embedChunks E path chunks records st = (Returned out, st').
Proof.
  intros Hok. induction chunks as [|chunk rest IH]; intros records st; simpl.
  - eexists _, _. reflexivity.
  - destruct (length (trim chunk) =? 0)%nat; [apply IH|].
    unfold bind, embed, freshId.
    destruct (getEmbedding E (embedCalls st) chunk) as [v|] eqn:Hv;
      [apply IH | destruct (Hok _ _ Hv)].
Qed.

End AddDocumentStores.

Section AddDocumentReturns.

Import MemoryService Indexing.

Variable E : Engines.

Lemma addDocument_returned (text path : jsstring)
  (languageId : option jsstring) (st st' : State) (rs : list MemRecord)
  (n : nat) :
  table st = Some rs ->
  addDocument E text path languageId st = (Returned n, st') ->
  exists new,
    table st' = Some (rs ++ new)
    /\ n = length new
    /\ map MemoryService.text new = sent E text languageId st
    /\ Forall (fun r => filepath r = path) new
    /\ map id new = map (uuidv4 E) (seq (uuidCalls st) n)
    /\ chunkingService st'
       = if blank text then chunkingService st
         else snd (chunksOf E text languageId (chunkingService st)).
Proof.
  intros Ht. unfold addDocument, sent. rewrite trim_length_blank.
  destruct (blank text).
  - intros H; inversion H; subst. exists []. rewrite app_nil_r.
    repeat split; auto.
  - unfold bind at 1, runChunking.
    destruct (chunksOf E text languageId (chunkingService st)) as [chunks cs].
    unfold bind at 1.
    destruct (embedChunks E path chunks [] _) as [[records|e] st1] eqn:Hloop;
      [|discriminate].
    apply embedChunks_returned in Hloop
      as [new [Hout [Htext [Hpath [Hid [Ht1 [_ [Hc1 _]]]]]]]].
    cbn [app table chunkingService uuidCalls fst snd] in *. subst records.
    rewrite Ht in Ht1. unfold bind, ret.
    destruct (0 <? length new)%nat eqn:Hlen.
    + rewrite Ht1. unfold tableAdd, storeOp. rewrite Ht1.
      destruct (storeRejects E (storeCalls st1)); [discriminate|].
      intros H; inversion H; subst. exists new.
      cbn [table chunkingService storeRequested fst snd]. auto 10.
    + intros H; inversion H; subst. exists new.
      destruct new; [|discriminate]. rewrite app_nil_r. auto 10.
Qed.

Lemma addDocument_returns (text path : jsstring)
  (languageId : option jsstring) (st : State) :
  (forall k chunk, getEmbedding E k chunk <> None) ->
  (forall k, storeRejects E k = false) ->
  exists n st', addDocument E text path languageId st = (Returned n, st').
Proof.
  intros Hembed Hstore. unfold addDocument.
  destruct (length (trim text) =? 0)%nat; [eexists _, _; reflexivity|].
  unfold bind at 1, runChunking.
  destruct (chunksOf E text languageId (chunkingService st)) as [chunks cs].
  unfold bind at 1.
  match goal with |- context [embedChunks E path chunks [] ?s] =>
    destruct (embedChunks_returns E path chunks Hembed [] s)
      as [records [st1 ->]]
  end.
  unfold bind, ret.
  destruct (0 <? length records)%nat; [|eexists _, _; reflexivity].
  destruct (table st1) eqn:Ht1; [|eexists _, _; reflexivity].
  unfold tableAdd, storeOp. rewrite Ht1, Hstore. eexists _, _. reflexivity.
Qed.

(** The chunks of a text do not depend on what an earlier chunking of the
    same text left in the chunking service. *)
Lemma chunksOf_again (text : jsstring) (languageId : option jsstring)
  (cs : ChunkingService.State) :
  chunksOf E text languageId (snd (chunksOf E text languageId cs))
    = chunksOf E text languageId cs.
Proof.
  unfold chunksOf. destruct languageId as [[|c lang]|]; try reflexivity.
  destruct (ChunkingService.isLanguageSupported (c :: lang)); [|reflexivity].
  apply chunk_again.
Qed.

End AddDocumentReturns.

(** X7. On a defined table, a call of [addDocument] that returns has
    appended one row per chunk sent to the embedding service, in order, with
    the text of the chunk, the filepath given and the next ids of the
    generator, and [chunksCreated] is their number; the rows that were
    there are untouched.  The call returns whenever no embedding and no
    store request is rejected. *)
Theorem addDocument_appends_rows (E : MemoryService.Engines)
  (text path : jsstring) (languageId : option jsstring)
  (st : MemoryService.State) (rs : list MemoryService.MemRecord) :
  MemoryService.table st = Some rs ->
  (forall n st',
      MemoryService.addDocument E text path languageId st = (Returned n, st') ->
      exists new,
        MemoryService.table st' = Some (rs ++ new)
        /\ n = length new
        /\ map MemoryService.text new = Indexing.sent E text languageId st
        /\ Forall (fun r => MemoryService.filepath r = path) new
        /\ map MemoryService.id new
           = map (MemoryService.uuidv4 E)
               (seq (MemoryService.uuidCalls st) n))
  /\ ((forall k chunk, MemoryService.getEmbedding E k chunk <> None) ->
      (forall k, MemoryService.storeRejects E k = false) ->
      exists n st',
        MemoryService.addDocument E text path languageId st = (Returned n, st')).
Proof.
  intros Ht. split.
  - intros n st' H.
    destruct (addDocument_returned E text path languageId st st' rs n Ht H)
      as [new Hnew].
    exists new. tauto.
  - apply addDocument_returns.
Qed.

(** X8. No upsert: when [addDocument] is called twice with the same text,
    filepath and language and both calls return, they report the same
    number of chunks and the file has that many rows more after each. *)
Theorem addDocument_twice_doubles (E : MemoryService.Engines)
  (text path : jsstring) (languageId : option jsstring)
  (st st1 st2 : MemoryService.State) (rs : list MemoryService.MemRecord)
  (n m : nat) :
  MemoryService.table st = Some rs ->
  MemoryService.addDocument E text path languageId st = (Returned n, st1) ->
  MemoryService.addDocument E text path languageId st1 = (Returned m, st2) ->
  m = n
  /\ length (Indexing.rowsOf path (MemoryService.rows st1))
     = length (Indexing.rowsOf path rs) + n
  /\ length (Indexing.rowsOf path (MemoryService.rows st2))
     = length (Indexing.rowsOf path rs) + 2 * n.
Proof.
  intros Ht H1 H2.
  destruct (addDocument_returned E _ _ _ _ _ _ _ Ht H1)
    as [new1 [Ht1 [Hn [Htext1 [Hpath1 [_ Hcs1]]]]]].
  destruct (addDocument_returned E _ _ _ _ _ _ _ Ht1 H2)
    as [new2 [Ht2 [Hm [Htext2 [Hpath2 _]]]]].
  assert (Hsame : Indexing.sent E text languageId st1
                  = Indexing.sent E text languageId st).
  { unfold Indexing.sent. rewrite Hcs1.
    destruct (blank text); [reflexivity|]. rewrite chunksOf_again. reflexivity. }
  assert (Hlen : length new2 = length new1).
  { rewrite <- (length_map MemoryService.text new2),
      <- (length_map MemoryService.text new1), Htext1, Htext2, Hsame.
    reflexivity. }
  assert (Hall : forall new, Forall (fun r => MemoryService.filepath r = path) new ->
                   Indexing.rowsOf path new = new).
  { intros new Hnew. unfold Indexing.rowsOf.
    induction Hnew as [|r new Hr _ IH]; simpl; [reflexivity|].
    rewrite Hr, eqb_refl, IH. reflexivity. }
  unfold MemoryService.rows. rewrite Ht1, Ht2.
  unfold Indexing.rowsOf in *. rewrite !filter_app, !length_app.
  rewrite (Hall _ Hpath1), (Hall _ Hpath2). lia.
Qed.

(* ------------------------------------------------------------------ *)
(** * The listings *)

Section Listings.

Import MemoryService Indexing.

Lemma lookup_countUp (p k : jsstring) (m : list (jsstring * nat)) :
  ChunkingService.lookup p (countUp k m)
    = if JS.eqb p k then Some (S (countOf p m))
      else ChunkingService.lookup p m.
Proof.
  unfold countOf. induction m as [|[k' n] m IH]; simpl.
  - destruct (JS.eqb p k); reflexivity.
  - destruct (JS.eqb k k') eqn:Hk; simpl.
    + apply eqb_eq in Hk. subst k'.
      destruct (JS.eqb p k); reflexivity.
    + destruct (JS.eqb p k') eqn:Hp; [|exact IH].
      destruct (JS.eqb p k) eqn:Hpk; [|reflexivity].
      apply eqb_eq in Hp, Hpk. subst. rewrite eqb_refl in Hk. discriminate.
Qed.

Lemma keys_countUp (k : jsstring) (m : list (jsstring * nat)) :
  NoDup (map fst m) ->
  NoDup (map fst (countUp k m))
  /\ forall p, In p (map fst (countUp k m)) <-> p = k \/ In p (map fst m).
Proof.
  induction m as [|[k' n] m IH]; simpl; intros Hnd.
  - split; [apply NoDup_cons; [intros [] | apply NoDup_nil]|].
    intros p; split; intros [H|[]]; left; congruence.
  - inversion Hnd as [|? ? Hk' Hm]; subst.
    destruct (JS.eqb k k') eqn:Hk; simpl.
    + apply eqb_eq in Hk. subst k'. split; [exact Hnd|]. intros p.
      simpl. intuition congruence.
    + destruct (IH Hm) as [Hnd' Hkeys]. apply eqb_neq in Hk. split.
      * constructor; [|exact Hnd']. rewrite Hkeys. simpl in Hk'.
        intuition congruence.
      * intros p. rewrite Hkeys. simpl. intuition congruence.
Qed.

Lemma sum_countUp (k : jsstring) (m : list (jsstring * nat)) (base : nat) :
  fold_left (fun sum f => sum + snd f) (countUp k m) base
    = S (fold_left (fun sum f => sum + snd f) m base).
Proof.
  revert base. induction m as [|[k' n] m IH]; intros base; simpl.
  - lia.
  - destruct (JS.eqb k k'); simpl; [|apply IH].
    replace (base + S n) with (S (base + n)) by lia.
    generalize (base + n). clear. induction m as [|f m IH]; intros b; simpl;
      [reflexivity | apply IH].
Qed.

Lemma countRows_cons (r : MemRecord) (rs : list MemRecord)
  (fileMap : list (jsstring * nat)) :
  countRows (r :: rs) fileMap
    = countRows rs (if listed r then countUp (filepath r) fileMap else fileMap).
Proof. reflexivity. Qed.

Lemma countRows_lookup (rs : list MemRecord) :
  forall fileMap p,
    countOf p (countRows rs fileMap)
      = countOf p fileMap + length (filter listed (rowsOf p rs)).
Proof.
  induction rs as [|r rs IH]; intros fileMap p.
  - simpl. lia.
  - rewrite countRows_cons, IH. unfold rowsOf. cbn [filter].
    fold (rowsOf p rs).
    destruct (listed r) eqn:Hr.
    + unfold countOf at 1. rewrite lookup_countUp.
      destruct (JS.eqb (filepath r) p) eqn:Hp.
      * apply eqb_eq in Hp. subst p. rewrite eqb_refl. cbn [filter].
        rewrite Hr. simpl. lia.
      * destruct (JS.eqb p (filepath r)) eqn:Hp'; [|reflexivity].
        apply eqb_eq in Hp'. subst p. rewrite eqb_refl in Hp. discriminate.
    + destruct (JS.eqb (filepath r) p); [|reflexivity].
      cbn [filter]. rewrite Hr. reflexivity.
Qed.

Lemma countRows_keys (rs : list MemRecord) :
  forall fileMap,
    NoDup (map fst fileMap) ->
    NoDup (map fst (countRows rs fileMap))
    /\ forall p, In p (map fst (countRows rs fileMap))
         <-> In p (map fst fileMap)
             \/ exists r, In r rs /\ listed r = true /\ filepath r = p.
Proof.
  induction rs as [|r rs IH]; intros fileMap Hnd.
  - split; [exact Hnd|]. intros p. split; [auto|].
    intros [H|[r [[] _]]]. exact H.
  - rewrite countRows_cons. destruct (listed r) eqn:Hr.
    + destruct (keys_countUp (filepath r) fileMap Hnd) as [Hnd' Hkeys].
      destruct (IH _ Hnd') as [Hnd'' Hkeys']. split; [exact Hnd''|].
      intros p. rewrite Hkeys', Hkeys. split.
      * intros [[->|H]|[r' [Hin Hr']]]; [right; exists r; simpl; auto | auto |].
        right. exists r'. simpl. tauto.
      * intros [H|[r' [[<-|Hin] [Hl <-]]]]; [auto | auto |].
        right. exists r'. auto.
    + destruct (IH _ Hnd) as [Hnd' Hkeys]. split; [exact Hnd'|].
      intros p. rewrite Hkeys. split.
      * intros [H|[r' [Hin Hr']]]; [auto|]. right. exists r'. simpl. tauto.
      * intros [H|[r' [[<-|Hin] [Hl Hp]]]]; [auto | congruence |].
        right. exists r'. auto.
Qed.

Lemma countRows_sum (rs : list MemRecord) :
  forall fileMap base,
    fold_left (fun sum f => sum + snd f) (countRows rs fileMap) base
      = fold_left (fun sum f => sum + snd f) fileMap base
        + length (filter listed rs).
Proof.
  induction rs as [|r rs IH]; intros fileMap base.
  - simpl. lia.
  - rewrite countRows_cons, IH. cbn [filter].
    destruct (listed r); simpl; [|lia].
    rewrite sum_countUp. lia.
Qed.

Lemma lookup_In (p : jsstring) (n : nat) (m : list (jsstring * nat)) :
  NoDup (map fst m) ->
  (In (p, n) m <-> ChunkingService.lookup p m = Some n).
Proof.
  induction m as [|[k v] m IH]; simpl; intros Hnd.
  - split; [tauto | discriminate].
  - inversion Hnd as [|? ? Hk Hm]; subst.
    destruct (JS.eqb p k) eqn:Hp.
    + apply eqb_eq in Hp. subst k. split.
      * intros [H|H]; [congruence|].
        exfalso. apply Hk. apply (in_map fst) in H. exact H.
      * intros H; left; congruence.
    + apply eqb_neq in Hp. rewrite <- (IH Hm). split.
      * intros [H|H]; [congruence | exact H].
      * auto.
Qed.

Variable E : Engines.

Lemma getAllIndexedFiles_run (st : State) :
  getAllIndexedFiles E st
    = match table st with
      | None => (Returned [], st)
      | Some rs =>
          if storeRejects E (storeCalls st)
          then (Returned [], storeRequested rs st)
          else (Returned (countRows rs []), storeRequested rs st)
      end.
Proof.
  unfold getAllIndexedFiles. destruct (table st) as [rs|] eqn:Ht; [|reflexivity].
  unfold tryCatch, bind, tableQuery, storeOp, ret. rewrite Ht.
  destruct (storeRejects E (storeCalls st)); reflexivity.
Qed.

Lemma getIndexedChunkCount_run (st : State) :
  getIndexedChunkCount E st
    = match table st with
      | None => (Returned 0, st)
      | Some rs =>
          if storeRejects E (storeCalls st)
          then (Returned 0, storeRequested rs st)
          else (Returned (length (filter counted rs)), storeRequested rs st)
      end.
Proof.
  unfold getIndexedChunkCount. destruct (table st) as [rs|] eqn:Ht; [|reflexivity].
  unfold tryCatch, bind, tableQuery, storeOp, ret. rewrite Ht.
  destruct (storeRejects E (storeCalls st)); reflexivity.
Qed.

Lemma getFileChunks_run (path : jsstring) (st : State) :
  getFileChunks E path st
    = match table st with
      | None => (Returned [], st)
      | Some rs =>
          if storeRejects E (storeCalls st)
          then (Returned [], storeRequested rs st)
          else (Returned (map toFileChunk (rowsOf path rs)), storeRequested rs st)
      end.
Proof.
  unfold getFileChunks. destruct (table st) as [rs|] eqn:Ht; [|reflexivity].
  unfold tryCatch, bind, tableQuery, storeOp, ret. rewrite Ht.
  destruct (storeRejects E (storeCalls st)); reflexivity.
Qed.

Lemma getFileChunksWithVectors_run (path : jsstring) (st : State) :
  getFileChunksWithVectors E path st
    = match table st with
      | None => (Returned [], st)
      | Some rs =>
          if storeRejects E (storeCalls st)
          then (Returned [], storeRequested rs st)
          else (Returned (rowsOf path rs), storeRequested rs st)
      end.
Proof.
  unfold getFileChunksWithVectors.
  destruct (table st) as [rs|] eqn:Ht; [|reflexivity].
  unfold tryCatch, bind, tableQuery, storeOp, ret. rewrite Ht.
  destruct (storeRejects E (storeCalls st)); [reflexivity|].
  cbn [fst snd]. do 2 f_equal. unfold rowsOf.
  induction (filter _ rs) as [|[v t p i] l IH]; simpl; congruence.
Qed.

End Listings.

Lemma listed_spec (r : MemoryService.MemRecord) :
  Indexing.listed r = true
  <-> MemoryService.filepath r <> [] /\ MemoryService.filepath r <> lit "init".
Proof.
  unfold Indexing.listed. rewrite andb_true_iff, negb_true_iff, eqb_neq.
  destruct (MemoryService.filepath r); simpl; split; intros [H1 H2];
    split; auto; try discriminate; try congruence.
Qed.

(** X9. The four listings never throw and never change the rows: when the
    query is rejected they answer the empty list, or zero for the count. *)
Theorem listings_degrade_to_empty (E : MemoryService.Engines)
  (path : jsstring) (st : MemoryService.State) :
  (exists files,
      fst (MemoryService.getAllIndexedFiles E st) = Returned files
      /\ (MemoryService.storeRejects E (MemoryService.storeCalls st) = true ->
          files = [])
      /\ MemoryService.rows (snd (MemoryService.getAllIndexedFiles E st))
         = MemoryService.rows st)
  /\ (exists chunks,
        fst (MemoryService.getFileChunks E path st) = Returned chunks
        /\ (MemoryService.storeRejects E (MemoryService.storeCalls st) = true ->
            chunks = [])
        /\ MemoryService.rows (snd (MemoryService.getFileChunks E path st))
           = MemoryService.rows st)
  /\ (exists chunks,
        fst (MemoryService.getFileChunksWithVectors E path st) = Returned chunks
        /\ (MemoryService.storeRejects E (MemoryService.storeCalls st) = true ->
            chunks = [])
        /\ MemoryService.rows
             (snd (MemoryService.getFileChunksWithVectors E path st))
           = MemoryService.rows st)
  /\ (exists count,
        fst (MemoryService.getIndexedChunkCount E st) = Returned count
        /\ (MemoryService.storeRejects E (MemoryService.storeCalls st) = true ->
            count = 0)
        /\ MemoryService.rows (snd (MemoryService.getIndexedChunkCount E st))
           = MemoryService.rows st).
Proof.
  rewrite getAllIndexedFiles_run, getFileChunks_run,
    getFileChunksWithVectors_run, getIndexedChunkCount_run.
  unfold MemoryService.rows.
  destruct (MemoryService.table st) as [rs|] eqn:Ht.
  - destruct (MemoryService.storeRejects E (MemoryService.storeCalls st));
      cbn [fst snd MemoryService.table MemoryService.storeRequested];
      repeat split; eexists; repeat split; try reflexivity; discriminate.
  - cbn [fst snd]. rewrite Ht.
    repeat split; eexists; repeat split; reflexivity.
Qed.

(** X10. When its query is not rejected, [getAllIndexedFiles] lists each
    filepath once, and a pair of a path and a count is listed exactly when
    the path is neither empty nor [init] and the count is the number of
    rows of that filepath, which is not zero. *)
Theorem getAllIndexedFiles_counts_rows (E : MemoryService.Engines)
  (st : MemoryService.State) :
  MemoryService.storeRejects E (MemoryService.storeCalls st) = false ->
  exists files,
    fst (MemoryService.getAllIndexedFiles E st) = Returned files
    /\ NoDup (map fst files)
    /\ forall p n,
         In (p, n) files
         <-> p <> [] /\ p <> lit "init"
             /\ n = length (Indexing.rowsOf p (MemoryService.rows st))
             /\ 0 < n.
Proof.
  intros Hok. rewrite getAllIndexedFiles_run. unfold MemoryService.rows.
  destruct (MemoryService.table st) as [rs|].
  2:{ exists []. split; [reflexivity|]. split; [constructor|].
      intros p n. split; [intros []|].
      intros [_ [_ [-> Hpos]]]. simpl in Hpos. lia. }
  rewrite Hok. exists (Indexing.countRows rs []). cbn [fst].
  destruct (countRows_keys rs [] (NoDup_nil _)) as [Hnd Hkeys].
  split; [reflexivity|]. split; [exact Hnd|]. intros p n.
  assert (Hfull : forall r, In r rs -> MemoryService.filepath r = p ->
            Indexing.listed r = true ->
            filter Indexing.listed (Indexing.rowsOf p rs) = Indexing.rowsOf p rs
            /\ 0 < length (Indexing.rowsOf p rs)).
  { intros r Hr Hp Hl. split.
    - unfold Indexing.rowsOf. rewrite filter_twice. apply filter_ext.
      intros r'. destruct (JS.eqb (MemoryService.filepath r') p) eqn:Hp';
        [|reflexivity].
      apply eqb_eq in Hp'. simpl. apply listed_spec. apply listed_spec in Hl.
      rewrite Hp'. rewrite Hp in Hl. exact Hl.
    - assert (Hin : In r (Indexing.rowsOf p rs)).
      { apply filter_In. split; [exact Hr|]. apply eqb_eq, Hp. }
      destruct (Indexing.rowsOf p rs); [destruct Hin | simpl; lia]. }
  pose proof (countRows_lookup rs [] p) as Hcount. simpl in Hcount.
  split.
  - intros Hin.
    assert (Hkey : In p (map fst (Indexing.countRows rs [])))
      by (apply (in_map fst) in Hin; exact Hin).
    apply Hkeys in Hkey as [[]|[r [Hr [Hl Hp]]]].
    apply (lookup_In p n _ Hnd) in Hin.
    unfold Indexing.countOf in Hcount. rewrite Hin in Hcount.
    destruct (Hfull r Hr Hp Hl) as [Hsame Hpos]. rewrite Hsame in Hcount.
    apply listed_spec in Hl. rewrite Hp in Hl. subst n. tauto.
  - intros [Hne [Hinit [Hn Hpos]]].
    assert (Hex : exists r, In r (Indexing.rowsOf p rs)).
    { destruct (Indexing.rowsOf p rs) as [|r l]; [simpl in Hn; lia|].
      exists r. left. reflexivity. }
    destruct Hex as [r Hr].
    apply filter_In in Hr as [Hr Hp]. apply eqb_eq in Hp.
    assert (Hl : Indexing.listed r = true)
      by (apply listed_spec; rewrite Hp; auto).
    assert (Hkey : In p (map fst (Indexing.countRows rs [])))
      by (apply Hkeys; right; exists r; auto).
    apply in_map_iff in Hkey as [[p' n'] [Hp' Hin]]. simpl in Hp'. subst p'.
    pose proof Hin as Hlook. apply (lookup_In p n' _ Hnd) in Hlook.
    unfold Indexing.countOf in Hcount. rewrite Hlook in Hcount.
    destruct (Hfull r Hr Hp Hl) as [Hsame _]. rewrite Hsame in Hcount.
    rewrite Hn, <- Hcount. exact Hin.
Qed.

(** X11. When no row has an empty filepath and the queries are not
    rejected, the total the tool that lists the indexed files reports, the
    sum of the counts of [getAllIndexedFiles], is the count of
    [getIndexedChunkCount]. *)
Theorem listed_counts_sum_to_chunk_count (E : MemoryService.Engines)
  (st : MemoryService.State) :
  MemoryService.storeRejects E (MemoryService.storeCalls st) = false ->
  (forall r, In r (MemoryService.rows st) -> MemoryService.filepath r <> []) ->
  exists files count,
    fst (MemoryService.getAllIndexedFiles E st) = Returned files
    /\ fst (MemoryService.getIndexedChunkCount E st) = Returned count
    /\ Extension.sumOfCounts files = count.
Proof.
  intros Hok Hpaths.
  rewrite getAllIndexedFiles_run, getIndexedChunkCount_run.
  unfold MemoryService.rows in Hpaths.
  destruct (MemoryService.table st) as [rs|];
    [|exists [], 0; repeat split; reflexivity].
  rewrite Hok. eexists _, _. split; [reflexivity|]. split; [reflexivity|].
  unfold Extension.sumOfCounts. rewrite countRows_sum. simpl.
  f_equal. apply filter_ext_in. intros r Hr.
  unfold Indexing.listed, Indexing.counted.
  destruct (MemoryService.filepath r) eqn:Hp; [|reflexivity].
  destruct (Hpaths r Hr Hp).
Qed.

(* ------------------------------------------------------------------ *)
(** * Deletions that fail part of the way *)

(** The rows kept of a table with distinct ids have distinct ids. *)
Lemma kept_ids_distinct (keep : MemoryService.MemRecord -> bool)
  (rs : list MemoryService.MemRecord) :
  NoDup (map MemoryService.id rs) ->
  NoDup (map MemoryService.id (filter keep rs)).
Proof.
  induction rs as [|r rs IH]; simpl; intros Hnd; [constructor|].
  inversion Hnd as [|? ? Hr Hrs]; subst.
  destruct (keep r); simpl; [|auto].
  constructor; [|auto]. intros Hin. apply Hr.
  apply in_map_iff in Hin as [r' [Hid Hin]].
  apply filter_In in Hin as [Hin _].
  rewrite <- Hid. apply in_map, Hin.
Qed.

Section PartialDeletions.

Import MemoryService.

Variable E : Engines.

(** Whatever its outcome, a run of deletions by id has deleted the rows of
    the first ids, and throws nothing but the error of the store. *)
Lemma deleteEach_any (ids : list jsstring) :
  forall st c st',
    deleteEach E ids st = (c, st') ->
    (exists k, rows st'
               = filter (fun r => negb (includes (firstn k ids) (id r))) (rows st))
    /\ (table st <> None ->
        table st' <> None /\ (c = Returned tt \/ c = Thrown StoreError)).
Proof.
  induction ids as [|i ids IH]; simpl; intros st c st' H.
  - inversion H; subst. split; [|auto]. exists 0. simpl.
    symmetry; apply filter_all.
  - unfold bind, tableDelete, storeOp in H. unfold rows at 2.
    destruct (table st) as [rs|] eqn:Ht.
    + destruct (storeRejects E (storeCalls st)).
      * inversion H; subst. split.
        -- exists 0. simpl. symmetry; apply filter_all.
        -- intros _. split; [discriminate | auto].
      * cbn [fst snd] in H. apply IH in H as [[k Hk] Hc].
        rewrite rows_storeRequested in Hk. split.
        -- exists (S k). rewrite Hk, filter_twice. apply filter_ext.
           intros r. simpl. rewrite negb_orb. reflexivity.
        -- intros _. apply Hc. discriminate.
    + inversion H; subst. split; [|congruence].
      exists 0. unfold rows. rewrite Ht. reflexivity.
Qed.

Lemma includes_firstn (k : nat) (ids : list jsstring) (x : jsstring) :
  includes (firstn k ids) x = true -> includes ids x = true.
Proof.
  rewrite !includes_In. revert k. induction ids as [|i ids IH]; intros [|k];
    simpl; try tauto.
  intros [H|H]; eauto.
Qed.

(** The rows a deletion by selection leaves, whatever its outcome: those it
    does not select all stay, and no row is added. *)
Lemma selected_deletion_any (sel : MemRecord -> bool) (rs : list MemRecord)
  (st : State) (c : Completion unit) (st' : State) :
  NoDup (map id rs) ->
  deleteEach E (map id (filter sel rs)) (storeRequested rs st) = (c, st') ->
  (forall r, In r (rows st') -> In r rs)
  /\ (forall r, In r rs -> sel r = false -> In r (rows st'))
  /\ NoDup (map id (rows st'))
  /\ (c = Returned tt \/ c = Thrown StoreError).
Proof.
  intros Hnd H. apply deleteEach_any in H as [[k Hk] Hc].
  rewrite rows_storeRequested in Hk. rewrite Hk.
  split; [intros r Hr; apply filter_In in Hr; tauto|].
  split; [|split; [apply kept_ids_distinct, Hnd | apply Hc; discriminate]].
  intros r Hr Hsel. apply filter_In. split; [exact Hr|].
  apply negb_true_iff.
  destruct (includes (firstn k _) (id r)) eqn:Hin; [|reflexivity].
  apply includes_firstn in Hin.
  rewrite (selected_ids sel rs Hnd r Hr) in Hin. congruence.
Qed.

End PartialDeletions.

(** X12. Whatever the outcome of [clearAllIndexes], a success or the error
    of the store after some of the deletions, on a table with pairwise
    distinct ids every row whose filepath is [init] is still there, no row
    was added and the ids are still distinct. *)
Theorem clearAllIndexes_any_outcome (E : MemoryService.Engines)
  (st st' : MemoryService.State) (c : Completion unit) :
  NoDup (map MemoryService.id (MemoryService.rows st)) ->
  MemoryService.clearAllIndexes E st = (c, st') ->
  (c = Returned tt \/ c = Thrown StoreError)
  /\ (forall r, In r (MemoryService.rows st') -> In r (MemoryService.rows st))
  /\ (forall r, In r (MemoryService.rows st) ->
        MemoryService.filepath r = lit "init" -> In r (MemoryService.rows st'))
  /\ NoDup (map MemoryService.id (MemoryService.rows st')).
Proof.
  intros Hnd. destruct (MemoryService.table st) as [rs|] eqn:Ht.
  - rewrite (clearAllIndexes_run E st rs Ht).
    unfold MemoryService.rows in Hnd |- *. rewrite Ht in *.
    destruct (MemoryService.storeRejects E (MemoryService.storeCalls st)).
    + intros H; inversion H; subst. simpl. auto.
    + intros H.
      destruct (selected_deletion_any E _ rs st c st' Hnd H)
        as [Hsub [Hkeep [Hnd' Hc]]].
      split; [exact Hc|]. split; [exact Hsub|]. split; [|exact Hnd'].
      intros r Hr Hinit. apply (Hkeep r Hr). rewrite Hinit. reflexivity.
  - unfold MemoryService.clearAllIndexes. rewrite Ht.
    intros H; inversion H; subst. auto.
Qed.

(** X13. Whatever the outcome of [deleteFolderIndex], on a table with
    pairwise distinct ids every row whose filepath has another directory
    than [folderPath] is still there, no row was added and the ids are
    still distinct. *)
Theorem deleteFolderIndex_any_outcome (E : MemoryService.Engines)
  (folderPath : jsstring) (st st' : MemoryService.State)
  (c : Completion nat) :
  NoDup (map MemoryService.id (MemoryService.rows st)) ->
  MemoryService.deleteFolderIndex E folderPath st = (c, st') ->
  (forall r, In r (MemoryService.rows st') -> In r (MemoryService.rows st))
  /\ (forall r, In r (MemoryService.rows st) ->
        MemoryService.dirname E (MemoryService.filepath r) <> folderPath ->
        In r (MemoryService.rows st'))
  /\ NoDup (map MemoryService.id (MemoryService.rows st')).
Proof.
  intros Hnd. destruct (MemoryService.table st) as [rs|] eqn:Ht.
  - rewrite (deleteFolderIndex_run E folderPath st rs Ht).
    unfold MemoryService.rows in Hnd |- *. rewrite Ht in *.
    destruct (MemoryService.storeRejects E (MemoryService.storeCalls st)).
    + intros H; inversion H; subst. simpl. auto.
    + destruct (MemoryService.deleteEach E _ _) as [c1 st1] eqn:Hdel.
      destruct (selected_deletion_any E _ rs st c1 st1 Hnd Hdel)
        as [Hsub [Hkeep [Hnd' _]]].
      intros H.
      assert (Hst : st' = st1) by (destruct c1; inversion H; reflexivity).
      subst st'. split; [exact Hsub|]. split; [|exact Hnd'].
      intros r Hr Hdir. apply (Hkeep r Hr). apply eqb_neq, Hdir.
  - unfold MemoryService.deleteFolderIndex. rewrite Ht.
    intros H; inversion H; subst. auto.
Qed.

(** X14. After a [deleteFileIndex] that returns, the rows left are those of
    the other filepaths, and both listings of the chunks of the file are
    empty. *)
Theorem deleteFileIndex_then_no_chunks (E : MemoryService.Engines)
  (path : jsstring) (st st' : MemoryService.State) :
  MemoryService.deleteFileIndex E path st = (Returned tt, st') ->
  MemoryService.rows st'
    = filter (fun r => negb (JS.eqb (MemoryService.filepath r) path))
        (MemoryService.rows st)
  /\ fst (MemoryService.getFileChunks E path st') = Returned []
  /\ fst (MemoryService.getFileChunksWithVectors E path st') = Returned [].
Proof.
  unfold MemoryService.deleteFileIndex. intros H.
  assert (Hrows : MemoryService.rows st'
                  = filter (fun r => negb (JS.eqb (MemoryService.filepath r) path))
                      (MemoryService.rows st)).
  { unfold MemoryService.rows.
    destruct (MemoryService.table st) as [rs|] eqn:Ht.
    - rewrite tryCatch_rethrow in H.
      unfold MemoryService.tableDelete, MemoryService.storeOp in H.
      rewrite Ht in H.
      destruct (MemoryService.storeRejects E _); inversion H; subst.
      reflexivity.
    - inversion H; subst. rewrite Ht. reflexivity. }
  split; [exact Hrows|].
  assert (Hnone : Indexing.rowsOf path (MemoryService.rows st') = []).
  { rewrite Hrows. unfold Indexing.rowsOf. rewrite filter_twice.
    generalize (MemoryService.rows st). clear.
    induction l as [|r l IH]; simpl; [reflexivity|].
    destruct (JS.eqb (MemoryService.filepath r) path); simpl; exact IH. }
  rewrite getFileChunks_run, getFileChunksWithVectors_run.
  unfold MemoryService.rows in Hnone.
  destruct (MemoryService.table st'); [|auto].
  destruct (MemoryService.storeRejects E _); [auto|].
  cbn [fst]. rewrite Hnone. auto.
Qed.

(* ------------------------------------------------------------------ *)
(** * search *)

Section Search.

Import MemoryService.

Lemma insertByDistance_In (q : list Q) (x r : MemRecord) (l : list MemRecord) :
  In r (insertByDistance q x l) <-> r = x \/ In r l.
Proof.
  induction l as [|y l IH]; simpl; [intuition congruence|].
  destruct (Qle_bool _ _); simpl; [intuition congruence|].
  rewrite IH. intuition congruence.
Qed.

Lemma nearest_In (q : list Q) (r : MemRecord) (rs : list MemRecord) :
  In r (nearest q rs) <-> In r rs.
Proof.
  unfold nearest. induction rs as [|x rs IH]; simpl; [tauto|].
  rewrite insertByDistance_In, IH. intuition congruence.
Qed.

Lemma firstn_subset {A : Type} (k : nat) (l : list A) (x : A) :
  In x (firstn k l) -> In x l.
Proof.
  revert k. induction l as [|y l IH]; intros [|k]; simpl; try tauto.
  intros [H|H]; eauto.
Qed.

End Search.

(** X15. [search] asks for the embedding of the query first: when it is
    rejected the call throws that error without a request to the store.
    In every outcome the table is left as it was, and the results of a call
    that returns are at most [limit] rows of the table. *)
Theorem search_outcomes (E : MemoryService.Engines) (query : jsstring)
  (limit : nat) (st st' : MemoryService.State)
  (c : Completion (list MemoryService.MemRecord)) :
  MemoryService.search E query limit st = (c, st') ->
  MemoryService.table st' = MemoryService.table st
  /\ (MemoryService.getEmbedding E (MemoryService.embedCalls st) query = None ->
      c = Thrown EmbeddingError
      /\ MemoryService.storeCalls st' = MemoryService.storeCalls st)
  /\ (forall results, c = Returned results ->
        length results <= limit
        /\ forall r, In r results -> In r (MemoryService.rows st)).
Proof.
  unfold MemoryService.search, MemoryService.bind, MemoryService.embed.
  destruct (MemoryService.getEmbedding E (MemoryService.embedCalls st) query)
    as [v|].
  - cbn [MemoryService.table MemoryService.embedRequested].
    unfold MemoryService.tableSearch, MemoryService.storeOp, MemoryService.rows.
    cbn [MemoryService.table MemoryService.embedRequested
           MemoryService.storeCalls].
    destruct (MemoryService.table st) as [rs|] eqn:Ht.
    + destruct (MemoryService.storeRejects E (MemoryService.storeCalls st));
        intros H; inversion H; subst; cbn [MemoryService.table
          MemoryService.storeRequested fst snd];
        (split; [reflexivity|]); (split; [discriminate|]);
        intros results Hres; inversion Hres; subst.
      split; [apply firstn_le_length|].
      intros r Hr. apply firstn_subset in Hr. apply nearest_In in Hr. exact Hr.
    + intros H; inversion H; subst. cbn [MemoryService.table].
      split; [exact Ht|]. split; [discriminate|].
      intros results Hres; inversion Hres; subst. simpl. split; [lia | tauto].
  - intros H; inversion H; subst. cbn [MemoryService.table
      MemoryService.embedRequested MemoryService.storeCalls].
    split; [reflexivity|]. split; [auto|]. discriminate.
Qed.

(* ------------------------------------------------------------------ *)
(** * The command that indexes the active file *)

Lemma counted_of_one_file (path : jsstring)
  (new : list MemoryService.MemRecord) :
  Forall (fun r => MemoryService.filepath r = path) new ->
  length (filter Indexing.counted new)
    = if JS.eqb path (lit "init") then 0 else length new.
Proof.
  unfold Indexing.counted.
  induction 1 as [|r new Hr _ IH]; cbn [filter length].
  - destruct (JS.eqb path (lit "init")); reflexivity.
  - rewrite Hr. destruct (JS.eqb path (lit "init")); cbn [negb length];
      [exact IH|].
    rewrite IH. reflexivity.
Qed.

(** X16. With a store that does not reject, the total the command
    [agent-memory.indexFile] reports after indexing a file is the number of
    rows counted before plus the chunks just created, except for a file
    whose path is [init]: its chunks are not counted. *)
Theorem indexFile_reports_total (E : MemoryService.Engines)
  (text path languageId : jsstring) (st st' : MemoryService.State)
  (rs : list MemoryService.MemRecord) (chunkCount totalCount : nat) :
  MemoryService.table st = Some rs ->
  (forall k, MemoryService.storeRejects E k = false) ->
  Extension.indexFile E text path languageId st
    = (Returned (chunkCount, totalCount), st') ->
  totalCount
    = length (filter Indexing.counted rs)
      + (if JS.eqb path (lit "init") then 0 else chunkCount).
Proof.
  intros Ht Hok. unfold Extension.indexFile, MemoryService.bind.
  destruct (MemoryService.addDocument E text path (Some languageId) st)
    as [[n|e] st1] eqn:Hadd; [|discriminate].
  destruct (addDocument_returned E _ _ _ _ _ _ _ Ht Hadd)
    as [new [Ht1 [Hn [_ [Hpath _]]]]].
  rewrite getIndexedChunkCount_run, Ht1, Hok. unfold MemoryService.ret.
  intros H; inversion H; subst. rewrite filter_app, length_app.
  rewrite (counted_of_one_file path new Hpath). reflexivity.
Qed.

(* ------------------------------------------------------------------ *)
(** * Distinct ids *)

Lemma NoDup_append {A : Type} (a b : list A) :
  NoDup a -> NoDup b -> (forall x, In x a -> ~ In x b) -> NoDup (a ++ b).
Proof.
  induction a as [|x a IH]; simpl; intros Ha Hb Hdisj; [exact Hb|].
  inversion Ha as [|? ? Hx Ha']; subst. constructor.
  - intros Hin. apply in_app_or in Hin as [Hin|Hin]; [tauto|].
    apply (Hdisj x); auto.
  - apply IH; auto.
Qed.

Lemma NoDup_map_injective {A B : Type} (f : A -> B) (l : list A) :
  (forall x y, f x = f y -> x = y) -> NoDup l -> NoDup (map f l).
Proof.
  intros Hinj. induction 1 as [|x l Hx _ IH]; simpl; constructor; [|exact IH].
  intros Hin. apply in_map_iff in Hin as [y [Hy Hin]].
  apply Hinj in Hy. subst y. tauto.
Qed.

Section DistinctIds.

Import MemoryService.

Variable E : Engines.

Lemma embedChunks_uuid_mono (path : jsstring) (chunks : list jsstring) :
  forall records st,
    uuidCalls st <= uuidCalls (snd (embedChunks E path chunks records st)).
Proof.
  induction chunks as [|chunk rest IH]; intros records st; simpl; [lia|].
  destruct (length (trim chunk) =? 0)%nat; [apply IH|].
  unfold bind, embed, freshId.
  destruct (getEmbedding E (embedCalls st) chunk) as [v|]; simpl; [|lia].
  match goal with |- context [embedChunks E path rest ?r ?s] =>
    pose proof (IH r s) as Hle end.
  simpl in Hle. lia.
Qed.

(** What a call leaves in the table, in every outcome. *)
Lemma addDocument_any (text path : jsstring) (languageId : option jsstring)
  (st st' : State) (rs : list MemRecord) (c : Completion nat) :
  table st = Some rs ->
  addDocument E text path languageId st = (c, st') ->
  uuidCalls st <= uuidCalls st'
  /\ (table st' = Some rs
      \/ exists new,
           table st' = Some (rs ++ new)
           /\ map id new = map (uuidv4 E) (seq (uuidCalls st) (length new))
           /\ uuidCalls st + length new <= uuidCalls st').
Proof.
  intros Ht. unfold addDocument.
  destruct (length (trim text) =? 0)%nat.
  - intros H; inversion H; subst. auto.
  - unfold bind at 1, runChunking.
    destruct (chunksOf E text languageId (chunkingService st)) as [chunks cs].
    unfold bind at 1.
    match goal with |- context [embedChunks E path chunks [] ?s] =>
      pose proof (embedChunks_uuid_mono path chunks [] s) as Hmono;
      pose proof (embedChunks_frame E path chunks [] s) as [Hframe _];
      destruct (embedChunks E path chunks [] s) as [[records|e] st1] eqn:Hloop
    end; cbn [snd table uuidCalls] in Hmono, Hframe.
    + apply embedChunks_returned in Hloop
        as [new [Hout [_ [_ [Hid [_ [_ [_ Hu]]]]]]]].
      cbn [app uuidCalls] in *. subst records. rewrite Ht in Hframe.
      unfold bind, ret.
      destruct (0 <? length new)%nat.
      * rewrite Hframe. unfold tableAdd, storeOp. rewrite Hframe.
        destruct (storeRejects E (storeCalls st1)); intros H; inversion H;
          subst; cbn [table uuidCalls storeRequested fst snd];
          (split; [lia|]); [left; reflexivity|].
        right. exists new. split; [reflexivity|]. split; [exact Hid | lia].
      * intros H; inversion H; subst. split; [lia|]. left. exact Hframe.
    + intros H; inversion H; subst. rewrite Ht in Hframe. auto.
Qed.

End DistinctIds.

(** X17. With an id generator that never repeats an id and whose ids to
    come are not in the table, [addDocument] keeps the ids of the table
    pairwise distinct, in every outcome, and the ids still to come are not
    in the table it leaves. *)
Theorem addDocument_keeps_ids_distinct (E : MemoryService.Engines)
  (text path : jsstring) (languageId : option jsstring)
  (st st' : MemoryService.State) (rs : list MemoryService.MemRecord)
  (c : Completion nat) :
  MemoryService.table st = Some rs ->
  NoDup (map MemoryService.id rs) ->
  (forall i j, MemoryService.uuidv4 E i = MemoryService.uuidv4 E j -> i = j) ->
  (forall k, MemoryService.uuidCalls st <= k ->
     ~ In (MemoryService.uuidv4 E k) (map MemoryService.id rs)) ->
  MemoryService.addDocument E text path languageId st = (c, st') ->
  NoDup (map MemoryService.id (MemoryService.rows st'))
  /\ forall k, MemoryService.uuidCalls st' <= k ->
       ~ In (MemoryService.uuidv4 E k)
           (map MemoryService.id (MemoryService.rows st')).
Proof.
  intros Ht Hnd Hinj Hfresh H.
  destruct (addDocument_any E _ _ _ _ _ _ _ Ht H)
    as [Hmono [Ht'|[new [Ht' [Hid Hu]]]]];
    unfold MemoryService.rows; rewrite Ht'.
  - split; [exact Hnd|]. intros k Hk. apply Hfresh. lia.
  - rewrite map_app, Hid. split.
    + apply NoDup_append; [exact Hnd | |].
      * apply NoDup_map_injective; [exact Hinj | apply seq_NoDup].
      * intros x Hx Hin. apply in_map_iff in Hin as [k [<- Hk]].
        apply in_seq in Hk. apply (Hfresh k); [lia | exact Hx].
    + intros k Hk Hin. apply in_app_or in Hin as [Hin|Hin].
      * apply (Hfresh k); [lia | exact Hin].
      * apply in_map_iff in Hin as [j [Hj Hin]]. apply in_seq in Hin.
        apply Hinj in Hj. lia.
Qed.

(* ------------------------------------------------------------------ *)
(** * More on the folder scan *)

(** The scan returns the first files that qualify: all of them, or as many
    as [maxFiles]. *)
Lemma getFilesToIndex_exact_prefix (W : FolderIndexer.Workspace)
  (folderPath : jsstring) (options : FolderIndexer.PartialOptions)
  (files : list jsstring) :
  FolderIndexer.getFilesToIndex W folderPath options = Returned files ->
  (exists k,
      files = firstn k (FolderIndexer.qualifyingFiles W folderPath options))
  /\ ((Z.of_nat (length (FolderIndexer.qualifyingFiles W folderPath options))
       < FolderIndexer.maxFiles (FolderIndexer.effectiveOptions W options))%Z ->
      files = FolderIndexer.qualifyingFiles W folderPath options)
  /\ ((1 <= FolderIndexer.maxFiles (FolderIndexer.effectiveOptions W options)
       <= Z.of_nat (length (FolderIndexer.qualifyingFiles W folderPath options)))%Z ->
      Z.of_nat (length files)
      = FolderIndexer.maxFiles (FolderIndexer.effectiveOptions W options)).
Proof.
  intros H.
  pose proof (getFilesToIndex_filters _ _ _ _ H) as [Hlen _].
  destruct (getFilesToIndex_prefix _ _ _ _ H) as [k [Hpre Hk]].
  cbv zeta in Hlen.
  set (Q := FolderIndexer.qualifyingFiles W folderPath options) in *.
  set (m := FolderIndexer.maxFiles (FolderIndexer.effectiveOptions W options)) in *.
  assert (Hfiles : length files = Nat.min k (length Q))
    by (rewrite Hpre; apply length_firstn).
  split; [exists k; exact Hpre|]. split.
  - intros Hfew. destruct (Nat.le_gt_cases (length Q) k) as [Hall|Hcut].
    + rewrite Hpre. apply firstn_all2, Hall.
    + specialize (Hk Hcut). lia.
  - intros [Hone Hmany]. destruct (Nat.le_gt_cases (length Q) k) as [Hall|Hcut].
    + lia.
    + specialize (Hk Hcut). lia.
Qed.

(** X18. The list [getFilesToIndex] returns is made of the first files that
    qualify, in the order of the scan: all of them when fewer than
    [maxFiles] qualify, and exactly [maxFiles] of them when at least
    [maxFiles] qualify and [maxFiles] is at least one. *)
Theorem getFilesToIndex_first_qualifying (W : FolderIndexer.Workspace)
  (folderPath : jsstring) (options : FolderIndexer.PartialOptions)
  (files : list jsstring) :
  FolderIndexer.getFilesToIndex W folderPath options = Returned files ->
  (exists k,
      files = firstn k (FolderIndexer.qualifyingFiles W folderPath options))
  /\ ((Z.of_nat (length (FolderIndexer.qualifyingFiles W folderPath options))
       < FolderIndexer.maxFiles (FolderIndexer.effectiveOptions W options))%Z ->
      files = FolderIndexer.qualifyingFiles W folderPath options)
  /\ ((1 <= FolderIndexer.maxFiles (FolderIndexer.effectiveOptions W options)
       <= Z.of_nat (length (FolderIndexer.qualifyingFiles W folderPath options)))%Z ->
      Z.of_nat (length files)
      = FolderIndexer.maxFiles (FolderIndexer.effectiveOptions W options)).
Proof. apply getFilesToIndex_exact_prefix. Qed.

(** X19. When the caller gives no [maxFiles], the validation compares the
    list with the default of 500 and not with the setting the scan used:
    with a setting above 500 and more than 500 files that qualify, a
    validation that returns is a refusal with the too many files
    message. *)
Theorem validate_compares_with_default (W : FolderIndexer.Workspace)
  (folderPath : jsstring) (options : FolderIndexer.PartialOptions)
  (v : FolderIndexer.Validation) :
  FolderIndexer.maxFiles' options = None ->
  (500 < FolderIndexer.maxFiles (FolderIndexer.settings W))%Z ->
  (500 < Z.of_nat (length (FolderIndexer.qualifyingFiles W folderPath options)))%Z ->
  FolderIndexer.validateIndexingOperation W folderPath options = Returned v ->
  FolderIndexer.valid v = false
  /\ FolderIndexer.message v
     = FolderIndexer.TooManyFiles (FolderIndexer.fileCount v) 500
  /\ (500 < Z.of_nat (FolderIndexer.fileCount v))%Z.
Proof.
  intros Hnone Hsetting Hmany. unfold FolderIndexer.validateIndexingOperation.
  destruct (FolderIndexer.getFilesToIndex W folderPath options)
    as [files|e] eqn:Hfiles; [|discriminate].
  destruct (getFilesToIndex_exact_prefix _ _ _ _ Hfiles)
    as [[k Hpre] [Hfew Hexact]].
  assert (Hmax : FolderIndexer.maxFiles (FolderIndexer.effectiveOptions W options)
                 = FolderIndexer.maxFiles (FolderIndexer.settings W))
    by (unfold FolderIndexer.effectiveOptions; simpl; rewrite Hnone; reflexivity).
  assert (Hmax' : FolderIndexer.maxFiles
                    (FolderIndexer.spread FolderIndexer.DEFAULT_OPTIONS options)
                  = 500%Z)
    by (simpl; rewrite Hnone; reflexivity).
  rewrite Hmax in *. rewrite Hmax'.
  assert (Hlen : (500 < Z.of_nat (length files))%Z).
  { destruct (Z.lt_ge_cases
                (Z.of_nat (length (FolderIndexer.qualifyingFiles W folderPath options)))
                (FolderIndexer.maxFiles (FolderIndexer.settings W))) as [Hlt|Hge].
    - rewrite (Hfew Hlt). exact Hmany.
    - rewrite Hexact; lia. }
  destruct (length files =? 0)%nat eqn:Hzero.
  - apply Nat.eqb_eq in Hzero. lia.
  - destruct (Z.of_nat (length files) >? 500)%Z eqn:Hgt.
    + intros H; injection H as <-. simpl. auto.
    + tests. lia.
Qed.

(* ------------------------------------------------------------------ *)
(** * The translation of a glob *)

Section Normalize.

Import FolderIndexer.

Lemma replaceStar_no_leading_star (s b : jsstring) :
  replaceStar s <> STAR :: b.
Proof.
  destruct s as [|c s]; simpl; [discriminate|].
  destruct (N.eqb c STAR) eqn:Hc; [discriminate|].
  intros H; inversion H; subst. rewrite N.eqb_refl in Hc. discriminate.
Qed.

(** In what [replace(/\*/g, '[^/]*')] returns, a star only comes after a
    closing bracket. *)
Lemma replaceStar_star_after_bracket (s : jsstring) :
  forall a x b, replaceStar s = a ++ x :: STAR :: b -> x = 93%N.
Proof.
  induction s as [|c s IH]; intros a x b H; simpl in H.
  - destruct a; discriminate.
  - destruct (N.eqb c STAR) eqn:Hc.
    + simpl in H.
      destruct a as [|a1 [|a2 [|a3 [|a4 [|a5 a]]]]]; simpl in H;
        try (inversion H; subst; discriminate).
      * inversion H; subst. reflexivity.
      * inversion H; subst.
        match goal with Hr : replaceStar s = _ |- _ =>
          destruct (replaceStar_no_leading_star _ _ Hr) end.
      * inversion H; subst. eapply IH; eassumption.
    + destruct a as [|a1 a]; simpl in H; inversion H; subst.
      * match goal with Hr : replaceStar s = _ |- _ =>
          destruct (replaceStar_no_leading_star _ _ Hr) end.
      * eapply IH; eassumption.
Qed.

Lemma replaceStar_closes_class (s : jsstring) :
  forall a x b,
    replaceStar s = a ++ x :: STAR :: b ->
    exists a', a ++ [x] = a' ++ lit "[^/]".
Proof.
  induction s as [|c s IH]; intros a x b H; simpl in H.
  - destruct a; discriminate.
  - destruct (N.eqb c STAR) eqn:Hc.
    + simpl in H.
      destruct a as [|a1 [|a2 [|a3 [|a4 [|a5 a]]]]]; simpl in H;
        try (inversion H; subst; discriminate).
      * inversion H; subst. exists []. reflexivity.
      * inversion H; subst.
        match goal with Hr : replaceStar s = _ |- _ =>
          destruct (replaceStar_no_leading_star _ _ Hr) end.
      * inversion H; subst.
        match goal with Hr : replaceStar s = _ |- _ =>
          destruct (IH _ _ _ Hr) as [a' Ha'] end.
        exists (91 :: 94 :: 47 :: 93 :: 42 :: a')%N. simpl. rewrite Ha'.
        reflexivity.
    + destruct a as [|a1 a]; simpl in H; inversion H; subst.
      * match goal with Hr : replaceStar s = _ |- _ =>
          destruct (replaceStar_no_leading_star _ _ Hr) end.
      * match goal with Hr : replaceStar s = _ |- _ =>
          destruct (IH _ _ _ Hr) as [a' Ha'] end.
        exists (a1 :: a'). simpl. rewrite Ha'. reflexivity.
Qed.

Lemma replaceStarStar_cons (a b : codeUnit) (s : jsstring) :
  replaceStarStar (a :: b :: s)
    = if N.eqb a STAR && N.eqb b STAR then lit ".*" ++ replaceStarStar s
      else a :: replaceStarStar (b :: s).
Proof. reflexivity. Qed.

Lemma replaceStarStar_no_star (s : jsstring) :
  ~ In STAR s -> replaceStarStar s = s.
Proof.
  induction s as [|a s IH]; intros Hs; [reflexivity|].
  destruct s as [|b s]; [reflexivity|].
  rewrite replaceStarStar_cons.
  destruct (N.eqb_spec a STAR) as [->|Ha]; [destruct Hs; left; reflexivity|].
  cbn [andb]. rewrite IH; [reflexivity|]. intros Hin. apply Hs. right. exact Hin.
Qed.

Lemma replaceStar_no_star (s : jsstring) :
  ~ In STAR s -> replaceStar s = s.
Proof.
  induction s as [|a s IH]; intros Hs; [reflexivity|].
  cbn [replaceStar].
  destruct (N.eqb_spec a STAR) as [->|Ha]; [destruct Hs; left; reflexivity|].
  rewrite IH; [reflexivity|]. intros Hin. apply Hs. right. exact Hin.
Qed.

End Normalize.

(** X20. The regular expression a glob is translated to never holds the
    two characters [.*]: every star of the translation closes a [[^/]*],
    also where the glob had [**].  A glob without a star is used as the
    regular expression as it is. *)
Theorem normalizePattern_has_no_dot_star (pattern : jsstring) :
  (forall a b, FolderIndexer.normalizePattern pattern <> a ++ lit ".*" ++ b)
  /\ (forall a x b,
        FolderIndexer.normalizePattern pattern = a ++ x :: STAR :: b ->
        exists a', a ++ [x] = a' ++ lit "[^/]")
  /\ (~ In STAR pattern -> FolderIndexer.normalizePattern pattern = pattern).
Proof.
  unfold FolderIndexer.normalizePattern. split; [|split].
  - intros a b H. apply replaceStar_star_after_bracket in H. discriminate.
  - apply replaceStar_closes_class.
  - intros Hs. rewrite (replaceStarStar_no_star pattern Hs).
    apply replaceStar_no_star, Hs.
Qed.

(* ------------------------------------------------------------------ *)
(** * The folder command *)

Section FolderCommand.

Import MemoryService Extension.

Variable E : Engines.
Variable H : Editor.

(** A call that throws leaves the table as it was. *)
Lemma addDocument_thrown (text path : jsstring) (languageId : option jsstring)
  (st st' : State) (e : Error) :
  addDocument E text path languageId st = (Thrown e, st') ->
  table st' = table st.
Proof.
  unfold addDocument.
  destruct (length (trim text) =? 0)%nat; [discriminate|].
  unfold bind at 1, runChunking.
  destruct (chunksOf E text languageId (chunkingService st)) as [chunks cs].
  unfold bind at 1.
  match goal with |- context [embedChunks E path chunks [] ?s] =>
    pose proof (embedChunks_frame E path chunks [] s) as [Hframe _];
    destruct (embedChunks E path chunks [] s) as [[records|e1] st1]
  end; cbn [snd table] in Hframe.
  - unfold bind, ret.
    destruct (0 <? length records)%nat; [|discriminate].
    destruct (table st1) as [rs|] eqn:Ht1; [|discriminate].
    unfold tableAdd, storeOp. rewrite Ht1.
    destruct (storeRejects E (storeCalls st1)); [|discriminate].
    intros Hr; inversion Hr; subst. cbn [table storeRequested]. congruence.
  - intros Hr; inversion Hr; subst. exact Hframe.
Qed.

(** Each file the loop reaches is counted once, as indexed or as failed. *)
Lemma indexFiles_counts (files : list jsstring) :
  forall i t st,
    indexed (fst (indexFiles E H i files t st))
      + failed (fst (indexFiles E H i files t st))
    <= indexed t + failed t + length files
    /\ ((forall j, j < length files -> isCancellationRequested H (i + j) = false) ->
        indexed (fst (indexFiles E H i files t st))
          + failed (fst (indexFiles E H i files t st))
        = indexed t + failed t + length files).
Proof.
  induction files as [|file rest IH]; intros i t st; cbn [indexFiles length].
  - simpl. split; intros; lia.
  - assert (Hlater : (forall j, j < S (length rest) ->
                        isCancellationRequested H (i + j) = false) ->
                     forall j, j < length rest ->
                        isCancellationRequested H (S i + j) = false).
    { intros Hall j Hj. replace (S i + j) with (i + S j) by lia.
      apply Hall. lia. }
    destruct (isCancellationRequested H i) eqn:Hcancel.
    + simpl. split; [lia|]. intros Hall.
      specialize (Hall 0 ltac:(lia)). rewrite Nat.add_0_r in Hall. congruence.
    + destruct (readFile H file) as [text|].
      * destruct (addDocument E text file _ st) as [[n|e] st1];
          match goal with |- context [indexFiles E H (S i) rest ?t1 ?s1] =>
            destruct (IH (S i) t1 s1) as [Hle Heq] end;
          cbn [indexed failed] in *; split; [lia | | lia |];
          intros Hall; specialize (Heq (Hlater Hall)); lia.
      * match goal with |- context [indexFiles E H (S i) rest ?t1 ?s1] =>
          destruct (IH (S i) t1 s1) as [Hle Heq] end.
        cbn [indexed failed] in *. split; [lia|].
        intros Hall; specialize (Heq (Hlater Hall)); lia.
Qed.

(** The rows grow by the chunks counted, and by nothing else. *)
Lemma indexFiles_rows (files : list jsstring) :
  forall i t st rs,
    table st = Some rs ->
    exists new,
      table (snd (indexFiles E H i files t st)) = Some (rs ++ new)
      /\ totalChunks (fst (indexFiles E H i files t st))
         = totalChunks t + length new.
Proof.
  induction files as [|file rest IH]; intros i t st rs Ht; cbn [indexFiles].
  - exists []. rewrite app_nil_r. simpl. auto.
  - destruct (isCancellationRequested H i).
    { exists []. rewrite app_nil_r. simpl. auto. }
    destruct (readFile H file) as [text|].
    2:{ match goal with |- context [indexFiles E H (S i) rest ?t1 st] =>
          destruct (IH (S i) t1 st rs Ht) as [new [Ht' Htotal]] end.
        exists new. split; [exact Ht' | exact Htotal]. }
    destruct (addDocument E text file _ st) as [[n|e] st1] eqn:Hadd.
    + destruct (addDocument_returned E _ _ _ _ _ _ _ Ht Hadd)
        as [new1 [Ht1 [Hn _]]].
      match goal with |- context [indexFiles E H (S i) rest ?t1 st1] =>
        destruct (IH (S i) t1 st1 _ Ht1) as [new [Ht' Htotal]] end.
      exists (new1 ++ new). rewrite Ht', Htotal, app_assoc, length_app.
      cbn [totalChunks]. split; [reflexivity | lia].
    + apply addDocument_thrown in Hadd. rewrite Ht in Hadd.
      match goal with |- context [indexFiles E H (S i) rest ?t1 st1] =>
        destruct (IH (S i) t1 st1 rs Hadd) as [new [Ht' Htotal]] end.
      exists new. split; [exact Ht' | exact Htotal].
Qed.

(** Once the cancellation is seen at an iteration, the files from there on
    are not reached. *)
Lemma indexFiles_cancelled (files : list jsstring) :
  forall k i t st,
    isCancellationRequested H (i + k) = true ->
    indexFiles E H i files t st = indexFiles E H i (firstn k files) t st.
Proof.
  induction files as [|file rest IH]; intros k i t st Hcancel.
  - rewrite firstn_nil. reflexivity.
  - destruct k as [|k]; cbn [indexFiles firstn].
    + rewrite Nat.add_0_r in Hcancel. rewrite Hcancel. reflexivity.
    + assert (Hnext : isCancellationRequested H (S i + k) = true)
        by (rewrite <- Hcancel; f_equal; lia).
      destruct (isCancellationRequested H i); [reflexivity|].
      destruct (readFile H file) as [text|]; [|apply IH, Hnext].
      destruct (addDocument E text file _ st) as [[n|e] st1];
        apply IH, Hnext.
Qed.

End FolderCommand.

(** X21. The loop of the folder command counts every file it reaches once,
    as indexed or as failed, a failure not stopping it: without a
    cancellation the two counters add up to the number of files.  On a
    defined table the rows that were there stay, and the rows added are as
    many as [totalChunks]: a failed file adds none. *)
Theorem indexFiles_tallies (E : MemoryService.Engines) (H : Extension.Editor)
  (files : list jsstring) (st : MemoryService.State)
  (rs : list MemoryService.MemRecord) :
  MemoryService.table st = Some rs ->
  let start := {| Extension.indexed := 0; Extension.failed := 0;
                  Extension.totalChunks := 0 |} in
  let tally := fst (Extension.indexFiles E H 0 files start st) in
  Extension.indexed tally + Extension.failed tally <= length files
  /\ ((forall i, i < length files ->
         Extension.isCancellationRequested H i = false) ->
      Extension.indexed tally + Extension.failed tally = length files)
  /\ exists new,
       MemoryService.table (snd (Extension.indexFiles E H 0 files start st))
         = Some (rs ++ new)
       /\ length new = Extension.totalChunks tally.
Proof.
  intros Ht start tally. subst tally.
  destruct (indexFiles_counts E H files 0 start st) as [Hle Heq].
  destruct (indexFiles_rows E H files 0 start st rs Ht) as [new [Ht' Htotal]].
  simpl in Hle, Heq, Htotal. repeat split; auto.
  exists new. split; [exact Ht' | lia].
Qed.

(** X22. When the cancellation is seen at the start of iteration [k], the
    loop of the folder command ends as if the list stopped there: the first
    [k] files keep what indexing them did, and no later file is read. *)
Theorem indexFiles_stops_at_cancellation (E : MemoryService.Engines)
  (H : Extension.Editor) (files : list jsstring) (k : nat)
  (t : Extension.Tally) (st : MemoryService.State) :
  Extension.isCancellationRequested H k = true ->
  Extension.indexFiles E H 0 files t st
    = Extension.indexFiles E H 0 (firstn k files) t st.
Proof. intros Hk. apply indexFiles_cancelled. exact Hk. Qed.

(** X23. The command [agent-memory.indexFolder] validates with the default
    options whatever the settings are, so that a run that reaches the loop
    was confirmed by the user and handles at most 500 files, the folder
    being the same at the scan of the validation and at the scan of the
    loop. *)
Theorem indexFolder_handles_at_most_500 (W : FolderIndexer.Workspace)
  (E : MemoryService.Engines) (H : Extension.Editor)
  (answer : Extension.Answer) (folderPath : jsstring)
  (st st' : MemoryService.State) (t : Extension.Tally) :
  Extension.indexFolder W E H answer folderPath st = (Returned (Some t), st') ->
  answer = Extension.YesIndexFolder
  /\ Extension.indexed t + Extension.failed t <= 500.
Proof.
  unfold Extension.indexFolder.
  destruct folderPath as [|c folderPath]; [discriminate|].
  unfold FolderIndexer.validateIndexingOperation.
  destruct (FolderIndexer.getFilesToIndex W (c :: folderPath)
              FolderIndexer.noOptions) as [files|e]; [|discriminate].
  change (FolderIndexer.maxFiles
            (FolderIndexer.spread FolderIndexer.DEFAULT_OPTIONS
               FolderIndexer.noOptions)) with 500%Z.
  destruct (length files =? 0)%nat; [discriminate|].
  destruct (Z.of_nat (length files) >? 500)%Z eqn:Hmany; [discriminate|].
  cbn [FolderIndexer.valid negb].
  destruct answer; try discriminate.
  destruct (Extension.indexFiles E H 0 files _ st) as [t1 st1] eqn:Hloop.
  intros Hr; inversion Hr; subst. split; [reflexivity|].
  match type of Hloop with Extension.indexFiles E H 0 files ?start st = _ =>
    destruct (indexFiles_counts E H files 0 start st) as [Hle _] end.
  rewrite Hloop in Hle. simpl in Hle. tests. lia.
Qed.

(* ------------------------------------------------------------------ *)
(** * The languages of the files *)

Lemma lookup_cases {V : Type} (k : jsstring) (m : list (jsstring * V)) :
  (exists v, ChunkingService.lookup k m = Some v /\ In (k, v) m)
  \/ (ChunkingService.lookup k m = None /\ ~ In k (map fst m)).
Proof.
  induction m as [|[k' v] m IH]; simpl; [right; tauto|].
  destruct (JS.eqb k k') eqn:Hk.
  - apply eqb_eq in Hk. subst k'. left. exists v. auto.
  - apply eqb_neq in Hk. destruct IH as [[v' [Hl Hin]]|[Hl Hin]].
    + left. exists v'. auto.
    + right. split; [exact Hl|]. intros [H|H]; [congruence | tauto].
Qed.

(** X24. The language the commands choose for a file has a grammar exactly
    when the extension of the file is one of [.ts], [.tsx], [.py], [.c],
    [.cpp] and [.h]; every other file, also among the extensions indexed by
    default, goes to the line based chunker.  The language [bash] is never
    chosen. *)
Theorem languageFor_supported (ext : jsstring) :
  (ChunkingService.isLanguageSupported (Extension.languageFor ext) = true
   <-> In ext [lit ".ts"; lit ".tsx"; lit ".py"; lit ".c"; lit ".cpp";
               lit ".h"])
  /\ Extension.languageFor ext <> lit "bash".
Proof.
  unfold Extension.languageFor.
  destruct (lookup_cases ext Extension.languageMap) as [[v [-> Hin]]|[-> Hin]].
  - unfold Extension.languageMap in Hin. simpl in Hin.
    repeat (destruct Hin as [Hin|Hin];
            [injection Hin as <- <-;
             (split; [|discriminate]);
             first
               [ split; [intros _; simpl; auto 10 | intros _; reflexivity]
               | split; [discriminate|];
                 intros Hf; simpl in Hf;
                 repeat (destruct Hf as [Hf|Hf]; [discriminate|]);
                 destruct Hf ]
            |]).
    destruct Hin.
  - split; [|discriminate]. split; [discriminate|].
    intros Hf. exfalso. apply Hin.
    unfold Extension.languageMap. simpl in Hf |- *. intuition auto.
Qed.

(* ------------------------------------------------------------------ *)
(** * The folders of the tree view *)

Lemma eqb_sym (a b : jsstring) : JS.eqb a b = JS.eqb b a.
Proof.
  destruct (JS.eqb a b) eqn:Hab; symmetry.
  - apply eqb_eq in Hab. subst. apply eqb_refl.
  - apply eqb_neq. apply eqb_neq in Hab. congruence.
Qed.

Section TreeView.

Import MemoryViewProvider Folders.

Variable dirname : jsstring -> jsstring.

Lemma findFolder_addToFolder (d' d : jsstring) (file : jsstring * nat)
  (m : list FolderGroup) :
  findFolder d' (addToFolder d file m)
    = if JS.eqb d' d
      then Some match findFolder d m with
                | Some g => {| folderPath := folderPath g;
                               files := files g ++ [file];
                               totalChunks := totalChunks g + snd file |}
                | None => {| folderPath := d; files := [file];
                             totalChunks := snd file |}
                end
      else findFolder d' m.
Proof.
  induction m as [|g m IH]; simpl.
  - destruct (JS.eqb d' d); reflexivity.
  - destruct (JS.eqb d (folderPath g)) eqn:Hd; simpl.
    + apply eqb_eq in Hd. rewrite <- Hd.
      destruct (JS.eqb d' d); reflexivity.
    + destruct (JS.eqb d' (folderPath g)) eqn:Hd'; [|exact IH].
      destruct (JS.eqb d' d) eqn:Hdd; [|reflexivity].
      apply eqb_eq in Hd', Hdd. subst. rewrite eqb_refl in Hd. discriminate.
Qed.

Lemma folders_addToFolder (d : jsstring) (file : jsstring * nat)
  (m : list FolderGroup) :
  NoDup (map folderPath m) ->
  NoDup (map folderPath (addToFolder d file m))
  /\ forall p, In p (map folderPath (addToFolder d file m))
       <-> p = d \/ In p (map folderPath m).
Proof.
  induction m as [|g m IH]; simpl; intros Hnd.
  - split; [apply NoDup_cons; [intros [] | apply NoDup_nil]|].
    intros p; split; intros [Hp|[]]; left; congruence.
  - inversion Hnd as [|? ? Hg Hm]; subst.
    destruct (JS.eqb d (folderPath g)) eqn:Hd; simpl.
    + apply eqb_eq in Hd. split; [exact Hnd|]. intros p.
      intuition congruence.
    + destruct (IH Hm) as [Hnd' Hkeys]. apply eqb_neq in Hd. split.
      * constructor; [|exact Hnd']. rewrite Hkeys. intuition congruence.
      * intros p. rewrite Hkeys. intuition congruence.
Qed.

Lemma findFolder_In (g : FolderGroup) (m : list FolderGroup) :
  NoDup (map folderPath m) ->
  (In g m <-> findFolder (folderPath g) m = Some g).
Proof.
  induction m as [|g' m IH]; simpl; intros Hnd.
  - split; [tauto | discriminate].
  - inversion Hnd as [|? ? Hg' Hm]; subst.
    destruct (JS.eqb (folderPath g) (folderPath g')) eqn:Hp.
    + apply eqb_eq in Hp. split.
      * intros [->|Hin]; [reflexivity|].
        exfalso. apply Hg'. rewrite <- Hp. apply in_map, Hin.
      * intros Hs; left; congruence.
    + apply eqb_neq in Hp. rewrite <- (IH Hm). split.
      * intros [->|Hin]; [congruence | exact Hin].
      * auto.
Qed.

(** The Map after the loop over the listed files: the group of a directory
    holds the listed files of that directory, in order, and the sum of
    their counts. *)
Lemma groupByFolder_find (listed : list (jsstring * nat)) :
  forall m d,
    findFolder d
      (fold_left (fun folderMap file =>
                    addToFolder (dirname (fst file)) file folderMap) listed m)
    = match filesIn dirname d listed, findFolder d m with
      | [], found => found
      | f :: l, Some g =>
          Some {| folderPath := folderPath g;
                  files := files g ++ f :: l;
                  totalChunks := totalChunks g + chunksIn (f :: l) |}
      | f :: l, None =>
          Some {| folderPath := d; files := f :: l;
                  totalChunks := chunksIn (f :: l) |}
      end.
Proof.
  unfold filesIn, chunksIn.
  induction listed as [|file listed IH]; intros m d; cbn [fold_left filter].
  - destruct (findFolder d m); reflexivity.
  - rewrite IH, findFolder_addToFolder. rewrite (eqb_sym d).
    destruct (JS.eqb (dirname (fst file)) d) eqn:Hd.
    + apply eqb_eq in Hd. rewrite Hd.
      destruct (filter _ listed) as [|f l];
        destruct (findFolder d m) as [g|]; cbn [folderPath files totalChunks];
        f_equal; f_equal; try (rewrite <- app_assoc; reflexivity);
        try reflexivity; simpl; lia.
    + reflexivity.
Qed.

Lemma groupByFolder_folders (listed : list (jsstring * nat)) :
  forall m,
    NoDup (map folderPath m) ->
    NoDup (map folderPath
             (fold_left (fun folderMap file =>
                           addToFolder (dirname (fst file)) file folderMap)
                listed m)).
Proof.
  induction listed as [|file listed IH]; intros m Hnd; simpl; [exact Hnd|].
  apply IH. apply folders_addToFolder, Hnd.
Qed.

End TreeView.

Section TreeViewRows.

Import MemoryService Indexing MemoryViewProvider Folders.

Lemma chunksIn_countUp (P : jsstring -> bool) (k : jsstring)
  (m : list (jsstring * nat)) :
  chunksIn (filter (fun f => P (fst f)) (countUp k m))
    = chunksIn (filter (fun f => P (fst f)) m) + (if P k then 1 else 0).
Proof.
  unfold chunksIn. induction m as [|[k' n] m IH]; simpl.
  - destruct (P k); simpl; lia.
  - destruct (JS.eqb k k') eqn:Hk; simpl.
    + apply eqb_eq in Hk. subst k'. destruct (P k); simpl; lia.
    + destruct (P k'); simpl; rewrite IH; lia.
Qed.

Lemma chunksIn_countRows (P : jsstring -> bool) (rs : list MemRecord) :
  forall m,
    chunksIn (filter (fun f => P (fst f)) (countRows rs m))
      = chunksIn (filter (fun f => P (fst f)) m)
        + length (filter (fun r => listed r && P (filepath r)) rs).
Proof.
  induction rs as [|r rs IH]; intros m.
  - simpl. lia.
  - rewrite countRows_cons, IH. cbn [filter].
    destruct (listed r); cbn [andb]; [|reflexivity].
    rewrite chunksIn_countUp. destruct (P (filepath r)); simpl; lia.
Qed.

Variable E : Engines.

Lemma rootFolders_run (st : State) :
  rootFolders E st
    = match getAllIndexedFiles E st with
      | (Returned listing, st') =>
          (Returned (groupByFolder (dirname E) listing), st')
      | (Thrown e, st') => (Thrown e, st')
      end.
Proof. reflexivity. Qed.

(** What the groups of a listing are. *)
Lemma groupByFolder_groups (listing : list (jsstring * nat)) :
  NoDup (map folderPath (groupByFolder (dirname E) listing))
  /\ (forall g, In g (groupByFolder (dirname E) listing) ->
        files g = filesIn (dirname E) (folderPath g) listing
        /\ files g <> []
        /\ totalChunks g = chunksIn (files g))
  /\ (forall f, In f listing ->
        exists g, In g (groupByFolder (dirname E) listing)
                  /\ folderPath g = dirname E (fst f) /\ In f (files g)).
Proof.
  unfold groupByFolder.
  pose proof (groupByFolder_folders (dirname E) listing [] (NoDup_nil _)) as Hnd.
  pose proof (groupByFolder_find (dirname E) listing []) as Hfind.
  cbn [findFolder] in Hfind.
  split; [exact Hnd|]. split.
  - intros g Hg. apply (findFolder_In g _ Hnd) in Hg.
    rewrite Hfind in Hg.
    destruct (filesIn (dirname E) (folderPath g) listing) as [|f l] eqn:Hfiles;
      [discriminate|].
    injection Hg as <-. cbn [files totalChunks folderPath] in *.
    repeat split. discriminate.
  - intros f Hf.
    assert (Hin : In f (filesIn (dirname E) (dirname E (fst f)) listing))
      by (apply filter_In; split; [exact Hf | apply eqb_refl]).
    pose proof (Hfind (dirname E (fst f))) as Hd.
    destruct (filesIn (dirname E) (dirname E (fst f)) listing) as [|f0 l]
      eqn:Hfiles; [destruct Hin|].
    match type of Hd with _ = Some ?g0 =>
      exists g0; split; [|split; [reflexivity | exact Hin]] end.
    match goal with |- In ?g0 _ =>
      apply (findFolder_In g0 _ Hnd); exact Hd end.
Qed.

End TreeViewRows.

(** X25. When the query is not rejected, the folders at the root of the
    tree view have distinct paths and split the listed files by directory:
    a folder holds the listed files whose directory is its path, at least
    one, every listed file is in the folder of its directory, and the
    chunk total shown for a folder is the number of rows of its files. *)
Theorem rootFolders_split_by_directory (E : MemoryService.Engines)
  (st : MemoryService.State) :
  MemoryService.storeRejects E (MemoryService.storeCalls st) = false ->
  exists listing groups,
    fst (MemoryService.getAllIndexedFiles E st) = Returned listing
    /\ fst (MemoryViewProvider.rootFolders E st) = Returned groups
    /\ NoDup (map MemoryViewProvider.folderPath groups)
    /\ (forall g, In g groups ->
          MemoryViewProvider.files g
            = Folders.filesIn (MemoryService.dirname E)
                (MemoryViewProvider.folderPath g) listing
          /\ MemoryViewProvider.files g <> []
          /\ MemoryViewProvider.totalChunks g
             = length
                 (filter
                    (fun r => Indexing.listed r
                              && JS.eqb (MemoryService.dirname E
                                           (MemoryService.filepath r))
                                   (MemoryViewProvider.folderPath g))
                    (MemoryService.rows st)))
    /\ (forall f, In f listing ->
          exists g, In g groups
                    /\ MemoryViewProvider.folderPath g
                       = MemoryService.dirname E (fst f)
                    /\ In f (MemoryViewProvider.files g)).
Proof.
  intros Hok. rewrite rootFolders_run, getAllIndexedFiles_run.
  unfold MemoryService.rows.
  destruct (MemoryService.table st) as [rs|].
  - rewrite Hok. cbn [fst].
    exists (Indexing.countRows rs []),
      (MemoryViewProvider.groupByFolder (MemoryService.dirname E)
         (Indexing.countRows rs [])).
    destruct (groupByFolder_groups E (Indexing.countRows rs []))
      as [Hnd [Hgroups Hfiles]].
    repeat split; auto; try apply (Hgroups g H).
    destruct (Hgroups g H) as [Hf [_ Ht]]. rewrite Ht, Hf.
    unfold Folders.filesIn.
    rewrite (chunksIn_countRows
               (fun p => JS.eqb (MemoryService.dirname E p)
                           (MemoryViewProvider.folderPath g)) rs []).
    reflexivity.
  - cbn [fst]. exists [], []. split; [reflexivity|]. split; [reflexivity|].
    split; [apply NoDup_nil|]. split; intros ? [].
Qed.

(** X26. With a store that does not reject, deleting a folder shown in the
    tree view returns the chunk total shown for it, unless its path is the
    directory of the path [init] or of the empty path, whose rows the tree
    does not show. *)
Theorem deleteFolderIndex_matches_tree (E : MemoryService.Engines)
  (st : MemoryService.State) (groups : list MemoryViewProvider.FolderGroup)
  (g : MemoryViewProvider.FolderGroup) :
  (forall k, MemoryService.storeRejects E k = false) ->
  fst (MemoryViewProvider.rootFolders E st) = Returned groups ->
  In g groups ->
  MemoryService.dirname E (lit "init") <> MemoryViewProvider.folderPath g ->
  MemoryService.dirname E [] <> MemoryViewProvider.folderPath g ->
  fst (MemoryService.deleteFolderIndex E (MemoryViewProvider.folderPath g) st)
    = Returned (MemoryViewProvider.totalChunks g).
Proof.
  intros Hok. rewrite rootFolders_run, getAllIndexedFiles_run.
  destruct (MemoryService.table st) as [rs|] eqn:Ht.
  2:{ cbn [fst]. intros Hg; injection Hg as <-. intros []. }
  rewrite Hok. cbn [fst]. intros Hg; injection Hg as <-.
  intros Hin Hinit Hempty.
  destruct (groupByFolder_groups E (Indexing.countRows rs []))
    as [_ [Hgroups _]].
  destruct (Hgroups g Hin) as [Hf [_ Htotal]].
  rewrite (deleteFolderIndex_run E _ st rs Ht), Hok.
  destruct (deleteEach_reliable E
              (map MemoryService.id
                 (filter (fun r => JS.eqb (MemoryService.dirname E
                                             (MemoryService.filepath r))
                                     (MemoryViewProvider.folderPath g)) rs))
              Hok (MemoryService.storeRequested rs st)) as [st' Hst'];
    [discriminate|].
  rewrite Hst'. cbn [fst]. f_equal.
  rewrite Htotal, Hf. unfold Folders.filesIn.
  rewrite (chunksIn_countRows
             (fun p => JS.eqb (MemoryService.dirname E p)
                         (MemoryViewProvider.folderPath g)) rs []).
  simpl. f_equal. apply filter_ext. intros r.
  destruct (JS.eqb (MemoryService.dirname E (MemoryService.filepath r))
              (MemoryViewProvider.folderPath g)) eqn:Hdir;
    [|rewrite andb_false_r; reflexivity].
  rewrite andb_true_r. symmetry. apply listed_spec.
  apply eqb_eq in Hdir. split; intros Hp; rewrite Hp in Hdir; congruence.
Qed.

Section Estimate.

Import FolderIndexer.


End Estimate.


(* ------------------------------------------------------------------ *)
(** * Instances of the properties of the commands and the listings *)

Lemma visitNode_chunks_are_node_texts_witness :
  In (lit "function foo(){ return 1; }")
    (ChunkingService._visitNode
       (ChunkingService.mkNode (lit "function_declaration")
          (lit "function foo(){ return 1; }") []) [] 500)
  /\ exists d,
       SyntaxTree.within d
         (ChunkingService.mkNode (lit "function_declaration")
            (lit "function foo(){ return 1; }") [])
       /\ SyntaxTree.emittedWhole 500 d
       /\ ChunkingService.text d = lit "function foo(){ return 1; }".
Proof.
  assert (Hin : In (lit "function foo(){ return 1; }")
                  (ChunkingService._visitNode
                     (ChunkingService.mkNode (lit "function_declaration")
                        (lit "function foo(){ return 1; }") []) [] 500))
    by (left; reflexivity).
  split; [exact Hin|].
  apply (visitNode_chunks_are_node_texts
           (ChunkingService.mkNode (lit "function_declaration")
              (lit "function foo(){ return 1; }") []) 500
           (lit "function foo(){ return 1; }") Hin).
Defined.

Lemma init_wellCached (P : ChunkingService.Parser) :
  ChunkingInvariants.wellCached (ChunkingService.init P).
Proof. intros languageId g H. discriminate H. Qed.

Lemma loadLanguage_caches_configured_witness :
  ChunkingInvariants.wellCached (ChunkingService.init Examples.lineParser)
  /\ ChunkingInvariants.wellCached
       (snd (ChunkingService.loadLanguage Examples.lineParser (lit "python")
               (ChunkingService.init Examples.lineParser)))
  /\ ChunkingService.activeGrammar
       (snd (ChunkingService.loadLanguage Examples.lineParser (lit "python")
               (ChunkingService.init Examples.lineParser)))
     = Some (lit "tree-sitter-python.wasm").
Proof.
  pose proof (init_wellCached Examples.lineParser) as Hw.
  split; [exact Hw|].
  destruct (loadLanguage_caches_configured Examples.lineParser (lit "python")
              (ChunkingService.init Examples.lineParser) Hw)
    as [Hcache [_ Hloaded]].
  split; [exact Hcache|].
  destruct (Hloaded eq_refl) as [Hactive _]. exact Hactive.
Defined.

Lemma chunk_never_empty_witness :
  ChunkingInvariants.wellCached (ChunkingService.init Examples.lineParser)
  /\ fst (ChunkingService.chunk Examples.lineParser Examples.twoFunctions
            (Some (lit "typescript")) 500
            (ChunkingService.init Examples.lineParser)) <> [].
Proof.
  pose proof (init_wellCached Examples.lineParser) as Hw.
  split; [exact Hw|].
  apply (chunk_never_empty Examples.lineParser Examples.twoFunctions
           (Some (lit "typescript")) 500
           (ChunkingService.init Examples.lineParser) Hw).
Defined.

Lemma addDocument_appends_rows_witness :
  MemoryService.table Examples.indexed = Some Examples.indexedRows
  /\ exists n st',
       MemoryService.addDocument Examples.engines Examples.twoFunctions
         (lit "/w/x.ts") (Some (lit "typescript")) Examples.indexed
       = (Returned n, st')
       /\ exists new,
            MemoryService.table st' = Some (Examples.indexedRows ++ new)
            /\ n = length new
            /\ map MemoryService.text new
               = Indexing.sent Examples.engines Examples.twoFunctions
                   (Some (lit "typescript")) Examples.indexed.
Proof.
  assert (Ht : MemoryService.table Examples.indexed = Some Examples.indexedRows)
    by reflexivity.
  split; [exact Ht|].
  destruct (addDocument_appends_rows Examples.engines Examples.twoFunctions
              (lit "/w/x.ts") (Some (lit "typescript")) Examples.indexed
              Examples.indexedRows Ht) as [Hrows Hreturns].
  destruct Hreturns as [n [st' Hrun]].
  - intros k chunk. discriminate.
  - intros k. reflexivity.
  - exists n, st'. split; [exact Hrun|].
    destruct (Hrows n st' Hrun) as [new [Htable [Hn [Htext _]]]].
    exists new. auto.
Defined.

Lemma addDocument_twice_doubles_witness :
  MemoryService.table Examples.indexed = Some Examples.indexedRows
  /\ MemoryService.addDocument Examples.engines Examples.twoFunctions
       (lit "/w/x.ts") (Some (lit "typescript")) Examples.indexed
     = (Returned 2, Scenarios.indexedOnce)
  /\ MemoryService.addDocument Examples.engines Examples.twoFunctions
       (lit "/w/x.ts") (Some (lit "typescript")) Scenarios.indexedOnce
     = (Returned 2, Scenarios.indexedTwice)
  /\ length (Indexing.rowsOf (lit "/w/x.ts")
               (MemoryService.rows Scenarios.indexedOnce))
     = length (Indexing.rowsOf (lit "/w/x.ts") Examples.indexedRows) + 2
  /\ length (Indexing.rowsOf (lit "/w/x.ts")
               (MemoryService.rows Scenarios.indexedTwice))
     = length (Indexing.rowsOf (lit "/w/x.ts") Examples.indexedRows) + 2 * 2.
Proof.
  assert (Ht : MemoryService.table Examples.indexed = Some Examples.indexedRows)
    by reflexivity.
  assert (H1 : MemoryService.addDocument Examples.engines Examples.twoFunctions
                 (lit "/w/x.ts") (Some (lit "typescript")) Examples.indexed
               = (Returned 2, Scenarios.indexedOnce))
    by (vm_compute; reflexivity).
  assert (H2 : MemoryService.addDocument Examples.engines Examples.twoFunctions
                 (lit "/w/x.ts") (Some (lit "typescript")) Scenarios.indexedOnce
               = (Returned 2, Scenarios.indexedTwice))
    by (vm_compute; reflexivity).
  split; [exact Ht|]. split; [exact H1|]. split; [exact H2|].
  apply (addDocument_twice_doubles Examples.engines Examples.twoFunctions
           (lit "/w/x.ts") (Some (lit "typescript")) Examples.indexed
           Scenarios.indexedOnce Scenarios.indexedTwice Examples.indexedRows
           2 2 Ht H1 H2).
Defined.

Lemma getAllIndexedFiles_counts_rows_witness :
  MemoryService.storeRejects Examples.engines
    (MemoryService.storeCalls Examples.indexed) = false
  /\ exists files,
       fst (MemoryService.getAllIndexedFiles Examples.engines Examples.indexed)
         = Returned files
       /\ NoDup (map fst files)
       /\ forall p n,
            In (p, n) files
            <-> p <> [] /\ p <> lit "init"
                /\ n = length (Indexing.rowsOf p
                                 (MemoryService.rows Examples.indexed))
                /\ 0 < n.
Proof.
  split; [reflexivity|].
  apply (getAllIndexedFiles_counts_rows Examples.engines Examples.indexed).
  reflexivity.
Defined.

Lemma indexed_filepaths (r : MemoryService.MemRecord) :
  In r (MemoryService.rows Examples.indexed) -> MemoryService.filepath r <> [].
Proof.
  intros Hin. simpl in Hin.
  repeat (destruct Hin as [<-|Hin]; [discriminate|]). destruct Hin.
Qed.

Lemma listed_counts_sum_to_chunk_count_witness :
  MemoryService.storeRejects Examples.engines
    (MemoryService.storeCalls Examples.indexed) = false
  /\ (forall r, In r (MemoryService.rows Examples.indexed) ->
        MemoryService.filepath r <> [])
  /\ exists files count,
       fst (MemoryService.getAllIndexedFiles Examples.engines Examples.indexed)
         = Returned files
       /\ fst (MemoryService.getIndexedChunkCount Examples.engines
                 Examples.indexed) = Returned count
       /\ Extension.sumOfCounts files = count.
Proof.
  split; [reflexivity|]. split; [exact indexed_filepaths|].
  apply (listed_counts_sum_to_chunk_count Examples.engines Examples.indexed).
  - reflexivity.
  - exact indexed_filepaths.
Defined.

Lemma indexed_ids_distinct :
  NoDup (map MemoryService.id (MemoryService.rows Examples.indexed)).
Proof. apply distinct_NoDup; reflexivity. Qed.

Lemma clearAllIndexes_any_outcome_witness :
  NoDup (map MemoryService.id (MemoryService.rows Examples.indexed))
  /\ MemoryService.clearAllIndexes Examples.engines Examples.indexed
     = (fst (MemoryService.clearAllIndexes Examples.engines Examples.indexed),
        snd (MemoryService.clearAllIndexes Examples.engines Examples.indexed))
  /\ forall r,
       In r (MemoryService.rows Examples.indexed) ->
       MemoryService.filepath r = lit "init" ->
       In r (MemoryService.rows
               (snd (MemoryService.clearAllIndexes Examples.engines
                       Examples.indexed))).
Proof.
  split; [exact indexed_ids_distinct|]. split; [reflexivity|].
  apply (clearAllIndexes_any_outcome Examples.engines Examples.indexed
           (snd (MemoryService.clearAllIndexes Examples.engines Examples.indexed))
           (fst (MemoryService.clearAllIndexes Examples.engines Examples.indexed))
           indexed_ids_distinct eq_refl).
Defined.

Lemma deleteFolderIndex_any_outcome_witness :
  NoDup (map MemoryService.id (MemoryService.rows Examples.indexed))
  /\ MemoryService.deleteFolderIndex Examples.engines (lit "/w/src")
       Examples.indexed
     = (fst (MemoryService.deleteFolderIndex Examples.engines (lit "/w/src")
               Examples.indexed),
        snd (MemoryService.deleteFolderIndex Examples.engines (lit "/w/src")
               Examples.indexed))
  /\ forall r,
       In r (MemoryService.rows Examples.indexed) ->
       MemoryService.dirname Examples.engines (MemoryService.filepath r)
         <> lit "/w/src" ->
       In r (MemoryService.rows
               (snd (MemoryService.deleteFolderIndex Examples.engines
                       (lit "/w/src") Examples.indexed))).
Proof.
  split; [exact indexed_ids_distinct|]. split; [reflexivity|].
  apply (deleteFolderIndex_any_outcome Examples.engines (lit "/w/src")
           Examples.indexed
           (snd (MemoryService.deleteFolderIndex Examples.engines
                   (lit "/w/src") Examples.indexed))
           (fst (MemoryService.deleteFolderIndex Examples.engines
                   (lit "/w/src") Examples.indexed))
           indexed_ids_distinct eq_refl).
Defined.

Lemma deleteFileIndex_then_no_chunks_witness :
  MemoryService.deleteFileIndex Examples.engines (lit "/w/src/a.ts")
    Examples.indexed
  = (Returned tt,
     snd (MemoryService.deleteFileIndex Examples.engines (lit "/w/src/a.ts")
            Examples.indexed))
  /\ fst (MemoryService.getFileChunks Examples.engines (lit "/w/src/a.ts")
            (snd (MemoryService.deleteFileIndex Examples.engines
                    (lit "/w/src/a.ts") Examples.indexed)))
     = Returned [].
Proof.
  assert (Hrun : MemoryService.deleteFileIndex Examples.engines
                   (lit "/w/src/a.ts") Examples.indexed
                 = (Returned tt,
                    snd (MemoryService.deleteFileIndex Examples.engines
                           (lit "/w/src/a.ts") Examples.indexed)))
    by reflexivity.
  split; [exact Hrun|].
  apply (deleteFileIndex_then_no_chunks Examples.engines (lit "/w/src/a.ts")
           Examples.indexed _ Hrun).
Defined.

Lemma search_outcomes_witness :
  MemoryService.search Examples.engines (lit "chunk") 2 Examples.indexed
  = (fst (MemoryService.search Examples.engines (lit "chunk") 2
            Examples.indexed),
     snd (MemoryService.search Examples.engines (lit "chunk") 2
            Examples.indexed))
  /\ MemoryService.table
       (snd (MemoryService.search Examples.engines (lit "chunk") 2
               Examples.indexed))
     = MemoryService.table Examples.indexed
  /\ forall results,
       fst (MemoryService.search Examples.engines (lit "chunk") 2
              Examples.indexed) = Returned results ->
       length results <= 2.
Proof.
  split; [reflexivity|].
  destruct (search_outcomes Examples.engines (lit "chunk") 2 Examples.indexed
              (snd (MemoryService.search Examples.engines (lit "chunk") 2
                      Examples.indexed))
              (fst (MemoryService.search Examples.engines (lit "chunk") 2
                      Examples.indexed)) eq_refl) as [Htable [_ Hresults]].
  split; [exact Htable|].
  intros results Hr. apply (Hresults results Hr).
Defined.

Lemma indexFile_reports_total_witness :
  MemoryService.table Examples.indexed = Some Examples.indexedRows
  /\ (forall k, MemoryService.storeRejects Examples.engines k = false)
  /\ Extension.indexFile Examples.engines Examples.twoFunctions
       (lit "/w/x.ts") (lit "typescript") Examples.indexed
     = (Returned (2, 5),
        snd (Extension.indexFile Examples.engines Examples.twoFunctions
               (lit "/w/x.ts") (lit "typescript") Examples.indexed))
  /\ 5 = length (filter Indexing.counted Examples.indexedRows)
         + (if JS.eqb (lit "/w/x.ts") (lit "init") then 0 else 2).
Proof.
  assert (Hrun : Extension.indexFile Examples.engines Examples.twoFunctions
                   (lit "/w/x.ts") (lit "typescript") Examples.indexed
                 = (Returned (2, 5),
                    snd (Extension.indexFile Examples.engines
                           Examples.twoFunctions (lit "/w/x.ts")
                           (lit "typescript") Examples.indexed)))
    by (vm_compute; reflexivity).
  split; [reflexivity|]. split; [intros k; reflexivity|]. split; [exact Hrun|].
  apply (indexFile_reports_total Examples.engines Examples.twoFunctions
           (lit "/w/x.ts") (lit "typescript") Examples.indexed _
           Examples.indexedRows 2 5 eq_refl (fun k => eq_refl) Hrun).
Defined.

Lemma uuidv4_injective (i j : nat) :
  MemoryService.uuidv4 Examples.engines i
    = MemoryService.uuidv4 Examples.engines j -> i = j.
Proof.
  cbn [MemoryService.uuidv4 Examples.engines]. intros H.
  apply app_inv_head in H. apply (f_equal (@length _)) in H.
  rewrite !repeat_length in H. lia.
Qed.

Lemma uuidv4_unused (k : nat) :
  MemoryService.uuidCalls Examples.indexed <= k ->
  ~ In (MemoryService.uuidv4 Examples.engines k)
      (map MemoryService.id Examples.indexedRows).
Proof.
  intros _ Hin. simpl in Hin.
  repeat (destruct Hin as [Hin|Hin]; [discriminate Hin|]). destruct Hin.
Qed.

Lemma addDocument_keeps_ids_distinct_witness :
  MemoryService.table Examples.indexed = Some Examples.indexedRows
  /\ NoDup (map MemoryService.id Examples.indexedRows)
  /\ (forall i j,
        MemoryService.uuidv4 Examples.engines i
          = MemoryService.uuidv4 Examples.engines j -> i = j)
  /\ (forall k, MemoryService.uuidCalls Examples.indexed <= k ->
        ~ In (MemoryService.uuidv4 Examples.engines k)
            (map MemoryService.id Examples.indexedRows))
  /\ NoDup (map MemoryService.id (MemoryService.rows Scenarios.indexedOnce)).
Proof.
  split; [reflexivity|]. split; [exact indexed_ids_distinct|].
  split; [exact uuidv4_injective|]. split; [exact uuidv4_unused|].
  apply (addDocument_keeps_ids_distinct Examples.engines Examples.twoFunctions
           (lit "/w/x.ts") (Some (lit "typescript")) Examples.indexed
           Scenarios.indexedOnce Examples.indexedRows
           (fst (MemoryService.addDocument Examples.engines
                   Examples.twoFunctions (lit "/w/x.ts")
                   (Some (lit "typescript")) Examples.indexed))
           eq_refl indexed_ids_distinct uuidv4_injective uuidv4_unused
           eq_refl).
Defined.

Lemma getFilesToIndex_first_qualifying_witness :
  FolderIndexer.getFilesToIndex Examples.workspace (lit "/w")
    (Examples.atMost 1) = Returned [lit "/w/src/a.ts"]
  /\ (1 <= FolderIndexer.maxFiles
             (FolderIndexer.effectiveOptions Examples.workspace
                (Examples.atMost 1))
      <= Z.of_nat (length (FolderIndexer.qualifyingFiles Examples.workspace
                             (lit "/w") (Examples.atMost 1))))%Z
  /\ Z.of_nat (length [lit "/w/src/a.ts"])
     = FolderIndexer.maxFiles
         (FolderIndexer.effectiveOptions Examples.workspace (Examples.atMost 1)).
Proof.
  assert (Hrun : FolderIndexer.getFilesToIndex Examples.workspace (lit "/w")
                   (Examples.atMost 1) = Returned [lit "/w/src/a.ts"])
    by (vm_compute; reflexivity).
  assert (Hmany : (1 <= FolderIndexer.maxFiles
                          (FolderIndexer.effectiveOptions Examples.workspace
                             (Examples.atMost 1))
                   <= Z.of_nat
                        (length (FolderIndexer.qualifyingFiles
                                   Examples.workspace (lit "/w")
                                   (Examples.atMost 1))))%Z)
    by (vm_compute; split; discriminate).
  split; [exact Hrun|]. split; [exact Hmany|].
  destruct (getFilesToIndex_first_qualifying Examples.workspace (lit "/w")
              (Examples.atMost 1) [lit "/w/src/a.ts"] Hrun) as [_ [_ Hexact]].
  exact (Hexact Hmany).
Defined.

Lemma validate_compares_with_default_witness :
  FolderIndexer.maxFiles' FolderIndexer.noOptions = None
  /\ (500 < FolderIndexer.maxFiles
              (FolderIndexer.settings Scenarios.bigWorkspace))%Z
  /\ (500 < Z.of_nat
              (length (FolderIndexer.qualifyingFiles Scenarios.bigWorkspace
                         (lit "/big") FolderIndexer.noOptions)))%Z
  /\ FolderIndexer.validateIndexingOperation Scenarios.bigWorkspace
       (lit "/big") FolderIndexer.noOptions
     = Returned {| FolderIndexer.valid := false;
                   FolderIndexer.message := FolderIndexer.TooManyFiles 501 500;
                   FolderIndexer.fileCount := 501 |}
  /\ FolderIndexer.valid
       {| FolderIndexer.valid := false;
          FolderIndexer.message := FolderIndexer.TooManyFiles 501 500;
          FolderIndexer.fileCount := 501 |} = false.
Proof.
  assert (H2 : (500 < FolderIndexer.maxFiles
                        (FolderIndexer.settings Scenarios.bigWorkspace))%Z)
    by reflexivity.
  assert (H3 : (500 < Z.of_nat
                        (length (FolderIndexer.qualifyingFiles
                                   Scenarios.bigWorkspace (lit "/big")
                                   FolderIndexer.noOptions)))%Z)
    by (vm_compute; reflexivity).
  assert (H4 : FolderIndexer.validateIndexingOperation Scenarios.bigWorkspace
                 (lit "/big") FolderIndexer.noOptions
               = Returned {| FolderIndexer.valid := false;
                             FolderIndexer.message :=
                               FolderIndexer.TooManyFiles 501 500;
                             FolderIndexer.fileCount := 501 |})
    by (vm_compute; reflexivity).
  split; [reflexivity|]. split; [exact H2|]. split; [exact H3|].
  split; [exact H4|].
  apply (validate_compares_with_default Scenarios.bigWorkspace (lit "/big")
           FolderIndexer.noOptions _ eq_refl H2 H3 H4).
Defined.

Lemma indexFiles_tallies_witness :
  MemoryService.table Examples.indexed = Some Examples.indexedRows
  /\ Extension.indexed
       (fst (Extension.indexFiles Examples.engines Scenarios.editor 0
               Scenarios.threeFiles Scenarios.noTally Examples.indexed))
     + Extension.failed
         (fst (Extension.indexFiles Examples.engines Scenarios.editor 0
                 Scenarios.threeFiles Scenarios.noTally Examples.indexed))
     <= length Scenarios.threeFiles.
Proof.
  split; [reflexivity|].
  apply (indexFiles_tallies Examples.engines Scenarios.editor
           Scenarios.threeFiles Examples.indexed Examples.indexedRows eq_refl).
Defined.

Lemma indexFiles_stops_at_cancellation_witness :
  Extension.isCancellationRequested Scenarios.cancellingEditor 1 = true
  /\ Extension.indexFiles Examples.engines Scenarios.cancellingEditor 0
       Scenarios.threeFiles Scenarios.noTally Examples.indexed
     = Extension.indexFiles Examples.engines Scenarios.cancellingEditor 0
         (firstn 1 Scenarios.threeFiles) Scenarios.noTally Examples.indexed.
Proof.
  split; [reflexivity|].
  apply (indexFiles_stops_at_cancellation Examples.engines
           Scenarios.cancellingEditor Scenarios.threeFiles 1 Scenarios.noTally
           Examples.indexed).
  reflexivity.
Defined.

Lemma indexFolder_handles_at_most_500_witness :
  Extension.indexFolder Examples.workspace Examples.engines Scenarios.editor
    Extension.YesIndexFolder (lit "/w") Examples.indexed
  = (Returned (Some {| Extension.indexed := 2; Extension.failed := 1;
                       Extension.totalChunks := 3 |}),
     snd (Extension.indexFolder Examples.workspace Examples.engines
            Scenarios.editor Extension.YesIndexFolder (lit "/w")
            Examples.indexed))
  /\ 2 + 1 <= 500.
Proof.
  assert (Hrun : Extension.indexFolder Examples.workspace Examples.engines
                   Scenarios.editor Extension.YesIndexFolder (lit "/w")
                   Examples.indexed
                 = (Returned (Some {| Extension.indexed := 2;
                                      Extension.failed := 1;
                                      Extension.totalChunks := 3 |}),
                    snd (Extension.indexFolder Examples.workspace
                           Examples.engines Scenarios.editor
                           Extension.YesIndexFolder (lit "/w")
                           Examples.indexed)))
    by (vm_compute; reflexivity).
  split; [exact Hrun|].
  apply (indexFolder_handles_at_most_500 Examples.workspace Examples.engines
           Scenarios.editor Extension.YesIndexFolder (lit "/w")
           Examples.indexed _ _ Hrun).
Defined.

Lemma rootFolders_split_by_directory_witness :
  MemoryService.storeRejects Examples.engines
    (MemoryService.storeCalls Examples.indexed) = false
  /\ exists listing groups,
       fst (MemoryService.getAllIndexedFiles Examples.engines Examples.indexed)
         = Returned listing
       /\ fst (MemoryViewProvider.rootFolders Examples.engines Examples.indexed)
          = Returned groups
       /\ NoDup (map MemoryViewProvider.folderPath groups).
Proof.
  split; [reflexivity|].
  destruct (rootFolders_split_by_directory Examples.engines Examples.indexed
              eq_refl) as [listing [groups [Hl [Hg [Hnd _]]]]].
  exists listing, groups. auto.
Defined.

Lemma deleteFolderIndex_matches_tree_witness :
  (forall k, MemoryService.storeRejects Examples.engines k = false)
  /\ fst (MemoryViewProvider.rootFolders Examples.engines Examples.indexed)
     = Returned [Scenarios.srcFolder; Scenarios.subFolder]
  /\ In Scenarios.srcFolder [Scenarios.srcFolder; Scenarios.subFolder]
  /\ MemoryService.dirname Examples.engines (lit "init")
     <> MemoryViewProvider.folderPath Scenarios.srcFolder
  /\ MemoryService.dirname Examples.engines []
     <> MemoryViewProvider.folderPath Scenarios.srcFolder
  /\ fst (MemoryService.deleteFolderIndex Examples.engines
            (MemoryViewProvider.folderPath Scenarios.srcFolder)
            Examples.indexed)
     = Returned (MemoryViewProvider.totalChunks Scenarios.srcFolder).
Proof.
  assert (H1 : forall k, MemoryService.storeRejects Examples.engines k = false)
    by (intros k; reflexivity).
  assert (H2 : fst (MemoryViewProvider.rootFolders Examples.engines
                      Examples.indexed)
               = Returned [Scenarios.srcFolder; Scenarios.subFolder])
    by reflexivity.
  assert (H3 : In Scenarios.srcFolder [Scenarios.srcFolder; Scenarios.subFolder])
    by (left; reflexivity).
  assert (H4 : MemoryService.dirname Examples.engines (lit "init")
               <> MemoryViewProvider.folderPath Scenarios.srcFolder)
    by (vm_compute; discriminate).
  assert (H5 : MemoryService.dirname Examples.engines []
               <> MemoryViewProvider.folderPath Scenarios.srcFolder)
    by (vm_compute; discriminate).
  split; [exact H1|]. split; [exact H2|]. split; [exact H3|].
  split; [exact H4|]. split; [exact H5|].
  apply (deleteFolderIndex_matches_tree Examples.engines Examples.indexed
           [Scenarios.srcFolder; Scenarios.subFolder] Scenarios.srcFolder
           H1 H2 H3 H4 H5).
Defined.

